(** * AES browser utility: hex codec, parameter validation, cipher adapter
      and the message / field-binding layer of the UI manager.

    The development embeds the JavaScript of
      - dist/utils/CryptoUtils.js   (hex codec, size checks),
      - dist/crypto/AESCrypto.js    (validator and cipher adapter),
      - the modular UIManager       (dist/ui/UIManager.js),
      - the monolithic main script  (static CryptoUtils, UIManager with the
                                     characters-based message duration),
      - the orchestrator            (dist/managers/AESCryptoManager.js)
    and proves properties of these definitions.

    Conventions.  A JavaScript string is the list of its UTF-16 code units.
    A [Uint8Array] is a list of bytes.  A JavaScript [throw] is the [Throw]
    constructor of [result].  Numbers that the program only uses as integers
    (lengths, counters, millisecond durations) are integers here; the
    quotient [length / 2] of the size checks is a rational, as it may be a
    half. *)

From Stdlib Require Import ZArith NArith QArith String Ascii List Lia.
From Stdlib.Strings Require Import Byte.
From Stdlib Require Import DecimalString HexadecimalString DecimalN HexadecimalN.
From stdpp Require Import base option list gmap.

(* ================================================================== *)
(** ** JavaScript strings *)
(* ================================================================== *)

Module Js.

(** A string is a sequence of UTF-16 code units. *)
Definition jsstring := list N.

(** Decoding of the UTF-8 bytes of a literal of this file into code units
    (one, two and three byte sequences: the basic multilingual plane). *)
Fixpoint utf8_decode (l : list N) : jsstring :=
  match l with
  | [] => []
  | b0 :: r =>
      if (b0 <? 128)%N then b0 :: utf8_decode r
      else if (b0 <? 224)%N then
        match r with
        | b1 :: r' => ((b0 - 192) * 64 + (b1 - 128))%N :: utf8_decode r'
        | [] => [65533%N]
        end
      else
        match r with
        | b1 :: b2 :: r' =>
            ((b0 - 224) * 4096 + (b1 - 128) * 64 + (b2 - 128))%N :: utf8_decode r'
        | _ => [65533%N]
        end
  end.

Definition codes (s : string) : jsstring :=
  map N_of_ascii (list_ascii_of_string s).

(** [js "..."] is the JavaScript string written as a literal. *)
Definition js (s : string) : jsstring := utf8_decode (codes s).

(** WhiteSpace and LineTerminator code points of ECMAScript, the characters
    removed by [String.prototype.trim] and skipped by [parseInt]. *)
Definition whiteSpaceCodes : list N :=
  [ 9; 10; 11; 12; 13; 32; 160; 5760;
    8192; 8193; 8194; 8195; 8196; 8197; 8198; 8199; 8200; 8201; 8202;
    8232; 8233; 8239; 8287; 12288; 65279 ]%N.

Definition isWhiteSpace (c : N) : bool := existsb (N.eqb c) whiteSpaceCodes.

Fixpoint trimStart (s : jsstring) : jsstring :=
  match s with
  | [] => []
  | c :: r => if isWhiteSpace c then trimStart r else s
  end.

Definition trimEnd (s : jsstring) : jsstring := rev (trimStart (rev s)).

(** [s.trim()] *)
Definition trim (s : jsstring) : jsstring := trimEnd (trimStart s).

(** [s.substr(start, len)] for a start inside the string. *)
Definition substr (s : jsstring) (start len : nat) : jsstring :=
  take len (drop start s).

(** [s.padStart(targetLength, c)] for a one character filler. *)
Definition padStart (targetLength : nat) (c : N) (s : jsstring) : jsstring :=
  repeat c (targetLength - length s) ++ s.

(** The character class [[0-9A-Fa-f]]. *)
Definition isHexDigit (c : N) : bool :=
  ((48 <=? c) && (c <=? 57) || (65 <=? c) && (c <=? 70)
   || (97 <=? c) && (c <=? 102))%N.

(** The character class [[0-9]]. *)
Definition isDecDigit (c : N) : bool := ((48 <=? c) && (c <=? 57))%N.

Definition hexDigitValue (c : N) : option N :=
  if ((48 <=? c) && (c <=? 57))%N then Some (c - 48)%N
  else if ((97 <=? c) && (c <=? 102))%N then Some (c - 87)%N
  else if ((65 <=? c) && (c <=? 70))%N then Some (c - 55)%N
  else None.

(** Value of the longest prefix of hex digits; [None] when it is empty. *)
Fixpoint parseDigits16 (s : jsstring) (acc : option N) : option N :=
  match s with
  | [] => acc
  | c :: r =>
      match hexDigitValue c with
      | Some d => parseDigits16 r (Some (16 * default 0 acc + d)%N)
      | None => acc
      end
  end.

(** [parseInt(s, 16)]: leading white space is skipped, then an optional
    sign, then an optional [0x] or [0X], then the longest run of hex digits.
    [None] is [NaN]. *)
Definition parseInt16 (s : jsstring) : option Z :=
  let s0 := trimStart s in
  let '(sign, s1) :=
    match s0 with
    | 45%N :: r => ((-1)%Z, r)
    | 43%N :: r => (1%Z, r)
    | _ => (1%Z, s0)
    end in
  let s2 :=
    match s1 with
    | 48%N :: 120%N :: r => r
    | 48%N :: 88%N :: r => r
    | _ => s1
    end in
  match parseDigits16 s2 None with
  | None => None
  | Some n => Some (sign * Z.of_N n)%Z
  end.

(** [n.toString(16)] and [String(n)] for a non-negative integer [n]. *)
Definition toString16 (n : N) : jsstring :=
  codes (HexadecimalString.NilEmpty.string_of_uint (N.to_hex_uint n)).

Definition toString10 (n : N) : jsstring :=
  codes (DecimalString.NilEmpty.string_of_uint (N.to_uint n)).

(** [String(z)] for an integer: a minus sign before the digits of a
    negative one. *)
Definition numberToString (z : Z) : jsstring :=
  match z with
  | Zneg p => 45%N :: toString10 (Npos p)
  | _ => toString10 (Z.to_N z)
  end.

(** ToUint8 of the value stored into a [Uint8Array] cell: [NaN] is stored
    as 0, an integer modulo 256. *)
Definition toUint8 (v : option Z) : byte :=
  match v with
  | None => x00
  | Some z => default x00 (Byte.of_N (Z.to_N (z mod 256)))
  end.

(** [haystack.includes(needle)] *)
Fixpoint isPrefixOf (p s : jsstring) : bool :=
  match p, s with
  | [], _ => true
  | _ :: _, [] => false
  | a :: p', b :: s' => (a =? b)%N && isPrefixOf p' s'
  end.

Fixpoint includes (haystack needle : jsstring) : bool :=
  isPrefixOf needle haystack ||
  match haystack with
  | [] => false
  | _ :: r => includes r needle
  end.

(** [s.split(c).length] goes through [split]: the pieces between the
    occurrences of the separator [c]. *)
Fixpoint split (sep : N) (s : jsstring) : list jsstring :=
  match s with
  | [] => [[]]
  | c :: r =>
      if (c =? sep)%N then [] :: split sep r
      else match split sep r with
           | p :: ps => (c :: p) :: ps
           | [] => [[c]]
           end
  end.

(** [s.replace(/\n/g, '<br>')] *)
Definition replaceNewlines (s : jsstring) : jsstring :=
  flat_map (fun c => if (c =? 10)%N then js "<br>" else [c]) s.

(** [s.toLowerCase()] on the letters A to Z. *)
Definition toLowerCase (s : jsstring) : jsstring :=
  map (fun c => if ((65 <=? c) && (c <=? 90))%N then (c + 32)%N else c) s.

(** What a [throw] carries: an [Error] object with its message, or any
    other value. *)
Inductive exn : Type :=
  | Error (message : jsstring)
  | NonError.

Inductive result (A : Type) : Type :=
  | Ok (a : A)
  | Throw (e : exn).
Arguments Ok {A} a.
Arguments Throw {A} e.

End Js.
Import Js.

(* ================================================================== *)
(** ** dist/utils/CryptoUtils.js *)
(* ================================================================== *)

Module CryptoUtils.

(** [/^[0-9A-Fa-f]+$/.test(s)]: one or more characters, all of them hex
    digits (no [m] flag: [$] is the end of the input). *)
Definition hexRegex_test (s : jsstring) : bool :=
  match s with
  | [] => false
  | _ :: _ => forallb isHexDigit s
  end.

Definition isValidHex (hex : jsstring) : bool :=
  hexRegex_test (trim hex).

(** The loop [for (let i = 0; i < normalizedHex.length; i += 2)] of
    [hexToUint8Array]; a store outside the typed array is ignored. *)
Fixpoint hexLoop (fuel : nat) (normalizedHex : jsstring) (i : nat)
    (result : list byte) : list byte :=
  match fuel with
  | O => result
  | S fuel' =>
      if (i <? length normalizedHex)%nat then
        hexLoop fuel' normalizedHex (i + 2)
          (<[ (i / 2)%nat := toUint8 (parseInt16 (substr normalizedHex i 2)) ]> result)
      else result
  end.

Definition hexToUint8Array (hexString : jsstring) : result (list byte) :=
  let cleanHex := trim hexString in
  if negb (isValidHex cleanHex) then
    Throw (Error (js "String hexadecimal inválida"))
  else
    let normalizedHex :=
      if (length cleanHex mod 2 =? 0)%nat then cleanHex else 48%N :: cleanHex in
    let result := replicate (length normalizedHex / 2) x00 in
    Ok (hexLoop (length normalizedHex) normalizedHex 0 result).

Definition uint8ArrayToHex (array : list byte) : jsstring :=
  concat (map (fun byte => padStart 2 48%N (toString16 (Byte.to_N byte))) array).

(** [keyHex.length / 2], a rational. *)
Definition halfLength (hex : jsstring) : Q :=
  Qmake (Z.of_nat (length hex)) 2.

Definition isValidKeySize (keyHex : jsstring) : bool :=
  let keyBytes := halfLength keyHex in
  Qeq_bool keyBytes (inject_Z 16) || Qeq_bool keyBytes (inject_Z 24)
  || Qeq_bool keyBytes (inject_Z 32).

Definition isValidIVSize (ivHex : jsstring) (expectedLength : Z) : bool :=
  let ivBytes := halfLength ivHex in
  Qeq_bool ivBytes (inject_Z expectedLength).

End CryptoUtils.

(* ================================================================== *)
(** ** dist/crypto/AESCrypto.js *)
(* ================================================================== *)

Module AESCrypto.

Inductive CryptoAlgorithm : Type := AES_CBC | AES_GCM | AES_CTR.

Record AESConfig : Type := mkAESConfig {
  algorithm : CryptoAlgorithm;
  keyLength : Z;   (* bits *)
  ivLength : Z     (* bytes *)
}.

(** The default argument of the constructor. *)
Definition defaultConfig : AESConfig :=
  {| algorithm := AES_CBC; keyLength := 128; ivLength := 16 |}.

Inductive CryptoOperation : Type := OpEncrypt | OpDecrypt.

(** [!s] for a string [s]. *)
Definition isEmpty (s : jsstring) : bool :=
  match s with [] => true | _ :: _ => false end.

(** The messages of the errors thrown by [validateParameters], under the
    names the specification gives to the failures. *)
Definition MissingParameter (operation : CryptoOperation) : exn :=
  Error (js "Para "
         ++ (match operation with
             | OpEncrypt => js "encriptar"
             | OpDecrypt => js "decriptar"
             end)
         ++ js ", forneça uma chave e IV válidos.").

Definition InvalidKeyFormat : exn :=
  Error (js "Chave deve ser uma string hexadecimal válida.").

Definition InvalidIVFormat : exn :=
  Error (js "IV deve ser uma string hexadecimal válida.").

Definition InvalidKeySize : exn :=
  Error (js "Chave deve ter 128, 192 ou 256 bits (16, 24 ou 32 bytes).").

Definition InvalidIVSize (config : AESConfig) : exn :=
  Error (js "IV deve ter " ++ numberToString (ivLength config)
         ++ js " bytes (" ++ numberToString (ivLength config * 2)
         ++ js " caracteres hex).").

Definition validateParameters (config : AESConfig) (keyHex ivHex : jsstring)
    (operation : CryptoOperation) : result unit :=
  if isEmpty keyHex || isEmpty ivHex then Throw (MissingParameter operation)
  else if negb (CryptoUtils.isValidHex keyHex) then Throw InvalidKeyFormat
  else if negb (CryptoUtils.isValidHex ivHex) then Throw InvalidIVFormat
  else if negb (CryptoUtils.isValidKeySize keyHex) then Throw InvalidKeySize
  else if negb (CryptoUtils.isValidIVSize ivHex (ivLength config))
       then Throw (InvalidIVSize config)
  else Ok tt.

Definition EmptyPlaintext : exn :=
  Error (js "Texto para encriptação não pode estar vazio.").

Definition EmptyCiphertext : exn :=
  Error (js "Dados para decriptação não podem estar vazios.").

Definition InvalidCiphertextFormat : exn :=
  Error (js "Dados encriptados devem ser uma string hexadecimal válida.").

(** The [catch] blocks of [encrypt] and [decrypt]. *)
Definition encryptCatch (error : exn) : exn :=
  match error with
  | Error message => Error (js "Erro na encriptação: " ++ message)
  | NonError => Error (js "Erro desconhecido na encriptação")
  end.

Definition decryptCatch (error : exn) : exn :=
  match error with
  | Error message => Error (js "Erro na decriptação: " ++ message)
  | NonError => Error (js "Erro desconhecido na decriptação")
  end.

(** A call of the platform (Web Crypto), as recorded in the call log. *)
Inductive PlatformCall : Type :=
  | CallImportKey (name : CryptoAlgorithm) (keyData : list byte)
  | CallEncrypt (name : CryptoAlgorithm) (iv data : list byte)
  | CallDecrypt (name : CryptoAlgorithm) (iv data : list byte).

(** Computations that may throw and that record the platform calls they
    make: the log is threaded through, an [await] is a plain call. *)
Definition M (A : Type) : Type :=
  list PlatformCall -> result A * list PlatformCall.

Definition ret {A} (a : A) : M A := fun log => (Ok a, log).

Definition throw {A} (e : exn) : M A := fun log => (Throw e, log).

Definition bind {A B} (m : M A) (k : A -> M B) : M B :=
  fun log =>
    match m log with
    | (Ok a, log') => k a log'
    | (Throw e, log') => (Throw e, log')
    end.

Definition lift {A} (r : result A) : M A := fun log => (r, log).

Definition tryCatch {A} (body : M A) (handler : exn -> M A) : M A :=
  fun log =>
    match body log with
    | (Ok a, log') => (Ok a, log')
    | (Throw e, log') => handler e log'
    end.

Definition platform {A} (c : PlatformCall) (r : result A) : M A :=
  fun log => (r, log ++ [c]).

Notation "x <- m ;; k" := (bind m (fun x => k))
  (at level 100, m at next level, right associativity).

(** The platform: key handles; [crypto.subtle.importKey] with format
    ['raw'], not extractable, usages encrypt and decrypt;
    [crypto.subtle.encrypt] and [crypto.subtle.decrypt]; [TextEncoder] and
    [TextDecoder].  The three [subtle] operations may reject. *)
Record Platform : Type := mkPlatform {
  CryptoKey : Type;
  subtle_importKey : CryptoAlgorithm -> list byte -> result CryptoKey;
  subtle_encrypt :
    CryptoAlgorithm -> list byte -> CryptoKey -> list byte -> result (list byte);
  subtle_decrypt :
    CryptoAlgorithm -> list byte -> CryptoKey -> list byte -> result (list byte);
  textEncode : jsstring -> list byte;
  textDecode : list byte -> jsstring
}.

Section Adapter.

Variable P : Platform.

Definition createCryptoKey (config : AESConfig) (keyData : list byte)
    : M (CryptoKey P) :=
  platform (CallImportKey (algorithm config) keyData)
           (subtle_importKey P (algorithm config) keyData).

Definition encrypt (config : AESConfig) (plainText keyHex ivHex : jsstring)
    : M jsstring :=
  tryCatch
    (_ <- lift (validateParameters config keyHex ivHex OpEncrypt) ;;
     _ <- (if isEmpty plainText then throw EmptyPlaintext else ret tt) ;;
     keyData <- lift (CryptoUtils.hexToUint8Array keyHex) ;;
     ivData <- lift (CryptoUtils.hexToUint8Array ivHex) ;;
     let plainTextBuffer := textEncode P plainText in
     cryptoKey <- createCryptoKey config keyData ;;
     let ivBuffer := ivData in
     encryptedBuffer <-
       platform (CallEncrypt (algorithm config) ivBuffer plainTextBuffer)
                (subtle_encrypt P (algorithm config) ivBuffer cryptoKey
                                plainTextBuffer) ;;
     ret (CryptoUtils.uint8ArrayToHex encryptedBuffer))
    (fun error => throw (encryptCatch error)).

Definition decrypt (config : AESConfig) (encryptedHex keyHex ivHex : jsstring)
    : M jsstring :=
  tryCatch
    (_ <- lift (validateParameters config keyHex ivHex OpDecrypt) ;;
     _ <- (if isEmpty encryptedHex then throw EmptyCiphertext else ret tt) ;;
     _ <- (if negb (CryptoUtils.isValidHex encryptedHex)
           then throw InvalidCiphertextFormat else ret tt) ;;
     keyData <- lift (CryptoUtils.hexToUint8Array keyHex) ;;
     ivData <- lift (CryptoUtils.hexToUint8Array ivHex) ;;
     encryptedData <- lift (CryptoUtils.hexToUint8Array encryptedHex) ;;
     cryptoKey <- createCryptoKey config keyData ;;
     let ivBuffer := ivData in
     let encryptedBuffer := encryptedData in
     decryptedBuffer <-
       platform (CallDecrypt (algorithm config) ivBuffer encryptedBuffer)
                (subtle_decrypt P (algorithm config) ivBuffer cryptoKey
                                encryptedBuffer) ;;
     ret (textDecode P decryptedBuffer))
    (fun error => throw (decryptCatch error)).

(** The platform raises [e] while [encrypt] (resp. [decrypt]) runs: the
    key import rejects with [e], or it succeeds and the cipher primitive
    rejects with [e]. *)
Definition encryptRaises (config : AESConfig) (plainText keyHex ivHex : jsstring)
    (e : exn) : Prop :=
  exists keyData ivData,
    CryptoUtils.hexToUint8Array keyHex = Ok keyData
    /\ CryptoUtils.hexToUint8Array ivHex = Ok ivData
    /\ (subtle_importKey P (algorithm config) keyData = Throw e
        \/ exists cryptoKey,
             subtle_importKey P (algorithm config) keyData = Ok cryptoKey
             /\ subtle_encrypt P (algorithm config) ivData cryptoKey
                               (textEncode P plainText) = Throw e).

Definition decryptRaises (config : AESConfig) (encryptedHex keyHex ivHex : jsstring)
    (e : exn) : Prop :=
  exists keyData ivData encryptedData,
    CryptoUtils.hexToUint8Array keyHex = Ok keyData
    /\ CryptoUtils.hexToUint8Array ivHex = Ok ivData
    /\ CryptoUtils.hexToUint8Array encryptedHex = Ok encryptedData
    /\ (subtle_importKey P (algorithm config) keyData = Throw e
        \/ exists cryptoKey,
             subtle_importKey P (algorithm config) keyData = Ok cryptoKey
             /\ subtle_decrypt P (algorithm config) ivData cryptoKey
                               encryptedData = Throw e).

End Adapter.

End AESCrypto.

(* ================================================================== *)
(** ** The page: elements, document order, timers *)
(* ================================================================== *)

(** The part of the browser that the two UI managers use.  Elements are
    nodes of a heap, so that the closures of the timers and the table
    [this.elements] refer to the same element that the document holds.
    The document is the list of the attached elements in tree order, each
    element knowing its parent.  Of an element the model keeps the
    properties the managers read or write (tag, id, classes, editable flag,
    content, value, two style properties, parent).  The nodes of the heap
    are the elements that the scripts look up or create; what the parser or
    an assignment of [textContent] puts under an element is the [content]
    of that element.  The two contenteditable fields, which the managers
    write through [innerHTML] and [textContent], are taken to hold no node
    of the heap; the assignment of [textContent] to an element found by its
    id, [setTextContent], removes the children that the element has.  The
    [value] of an element is the string last assigned to it; what a form
    control makes of an assigned string (an [input] drops its line breaks)
    is left out.  [setTimeout] appends to the list of pending timers; any
    pending timer may be the next to fire.  Layout, focus, selection and
    user input are left out. *)
Module Dom.

(** The identity of a DOM node.  Closures and the [elements] table of the
    manager hold nodes; the state of a node lives in the heap. *)
Definition node := nat.

(** The content of an element, as last written through [textContent] or
    through [innerHTML]. *)
Inductive Content : Type :=
  | Text (text : jsstring)
  | Html (html : jsstring).

Record Element : Type := mkElement {
  tagName : jsstring;            (* upper case, as the DOM reports it *)
  el_id : jsstring;              (* the [id] attribute *)
  classList : list jsstring;     (* the tokens of [className] *)
  contentEditable : bool;        (* [contentEditable === 'true'] *)
  content : Content;
  value : jsstring;
  opacity : jsstring;            (* [style.opacity] *)
  transition : jsstring;         (* [style.transition] *)
  parentNode : option node
}.

Definition set_el_id (v : jsstring) (e : Element) : Element :=
  mkElement (tagName e) v (classList e) (contentEditable e) (content e)
            (value e) (opacity e) (transition e) (parentNode e).
Definition set_classList (v : list jsstring) (e : Element) : Element :=
  mkElement (tagName e) (el_id e) v (contentEditable e) (content e)
            (value e) (opacity e) (transition e) (parentNode e).
Definition set_content (v : Content) (e : Element) : Element :=
  mkElement (tagName e) (el_id e) (classList e) (contentEditable e) v
            (value e) (opacity e) (transition e) (parentNode e).
Definition set_value (v : jsstring) (e : Element) : Element :=
  mkElement (tagName e) (el_id e) (classList e) (contentEditable e) (content e)
            v (opacity e) (transition e) (parentNode e).
Definition set_opacity (v : jsstring) (e : Element) : Element :=
  mkElement (tagName e) (el_id e) (classList e) (contentEditable e) (content e)
            (value e) v (transition e) (parentNode e).
Definition set_transition (v : jsstring) (e : Element) : Element :=
  mkElement (tagName e) (el_id e) (classList e) (contentEditable e) (content e)
            (value e) (opacity e) v (parentNode e).
Definition set_parentNode (v : option node) (e : Element) : Element :=
  mkElement (tagName e) (el_id e) (classList e) (contentEditable e) (content e)
            (value e) (opacity e) (transition e) v.

(** [element.classList.add(c)] *)
Definition classList_add (c : jsstring) (e : Element) : Element :=
  if bool_decide (c ∈ classList e) then e
  else set_classList (classList e ++ [c]) e.

(** [element.classList.remove(c)] *)
Definition classList_remove (c : jsstring) (e : Element) : Element :=
  set_classList (filter (fun x => x <> c) (classList e)) e.

(** [element.classList.toggle(c, force)] *)
Definition classList_toggle (c : jsstring) (force : bool) (e : Element) : Element :=
  if force then classList_add c e else classList_remove c e.

(** The element [document.createElement(tag)] returns. *)
Definition blankElement (tag : jsstring) : Element :=
  mkElement tag [] [] false (Text []) [] [] [] None.

Inductive MessageType : Type := info | success | error | warning.

Definition typeName (type : MessageType) : jsstring :=
  match type with
  | info => js "info"
  | success => js "success"
  | error => js "error"
  | warning => js "warning"
  end.

Record MessageConfig : Type := mkMessageConfig {
  baseDuration : Z;
  durationFactor : Z;
  fadeTimeout : Z
}.

(** The table [this.elements]. *)
Record DOMElements : Type := mkDOMElements {
  generateKey : node;
  encryptButton : node;
  decryptButton : node;
  aesKey : node;
  iv : node;
  encryptInput : node;
  decryptInput : node;
  report : node
}.

Section State.

(** [Cb] is the type of the closures passed to [setTimeout]. *)
Context {Cb : Type}.

Record Timer : Type := mkTimer { delay : Z; callback : Cb }.

(** The manager instance ([elements], [messageConfig], [messageCounter])
    and the page it runs in: the heap of nodes, the attached elements in
    document order, and the pending timers in the order of their
    [setTimeout] calls. *)
Record State : Type := mkState {
  elements : DOMElements;
  messageConfig : MessageConfig;
  messageCounter : Z;
  heap : gmap node Element;
  order : list node;
  timers : list Timer
}.

Definition set_messageCounter (v : Z) (s : State) : State :=
  mkState (elements s) (messageConfig s) v (heap s) (order s) (timers s).
Definition set_heap (v : gmap node Element) (s : State) : State :=
  mkState (elements s) (messageConfig s) (messageCounter s) v (order s) (timers s).
Definition set_order (v : list node) (s : State) : State :=
  mkState (elements s) (messageConfig s) (messageCounter s) (heap s) v (timers s).
Definition set_timers (v : list Timer) (s : State) : State :=
  mkState (elements s) (messageConfig s) (messageCounter s) (heap s) (order s) v.

(** An assignment to a property of the element at node [n]. *)
Definition update (n : node) (f : Element -> Element) (s : State) : State :=
  set_heap (alter f n (heap s)) s.

(** The element at [n] has the ID [i].  An element whose [id] is the empty
    string has no ID. *)
Definition hasId (h : gmap node Element) (i : jsstring) (n : node) : bool :=
  match h !! n with
  | Some e => bool_decide (el_id e = i) && negb (bool_decide (i = []))
  | None => false
  end.

(** [document.getElementById(i)]: the first attached element, in document
    order, whose ID is [i]; [null] for the empty string. *)
Definition findById (h : gmap node Element) (ord : list node) (i : jsstring)
    : option node :=
  find (hasId h i) ord.

Definition getElementById (s : State) (i : jsstring) : option node :=
  findById (heap s) (order s) i.

(** [document.createElement(tag)]: a fresh node, not attached. *)
Definition createElement (tag : jsstring) (s : State) : node * State :=
  let n := fresh (dom (heap s)) in
  (n, set_heap (<[ n := blankElement tag ]> (heap s)) s).

(** [a] is a proper ancestor of [n]. *)
Fixpoint isAncestor (fuel : nat) (h : gmap node Element) (a n : node) : bool :=
  match fuel with
  | O => false
  | S fuel' =>
      match h !! n with
      | Some e =>
          match parentNode e with
          | Some p => bool_decide (p = a) || isAncestor fuel' h a p
          | None => false
          end
      | None => false
      end
  end.

Definition inSubtree (h : gmap node Element) (root n : node) : bool :=
  bool_decide (n = root) || isAncestor (size h) h root n.

(** Document order with [child] placed after the last descendant of
    [parent]. *)
Fixpoint skipSubtree (h : gmap node Element) (parent child : node)
    (l : list node) : list node :=
  match l with
  | [] => [child]
  | n :: r =>
      if inSubtree h parent n then n :: skipSubtree h parent child r
      else child :: l
  end.

Fixpoint insertLastChild (h : gmap node Element) (parent child : node)
    (l : list node) : list node :=
  match l with
  | [] => []
  | n :: r =>
      if bool_decide (n = parent) then n :: skipSubtree h parent child r
      else n :: insertLastChild h parent child r
  end.

(** [parent.appendChild(child)] for a [child] that [createElement] has
    just returned (no parent, no children). *)
Definition appendChild (parent child : node) (s : State) : State :=
  set_order (insertLastChild (heap s) parent child (order s))
    (update child (set_parentNode (Some parent)) s).

Definition NotFoundError : exn :=
  Error (js "Failed to execute 'removeChild' on 'Node': The node to be removed is not a child of this node.").

(** [parent.removeChild(child)]: throws when [child] is not a child of
    [parent]; otherwise [child] and its descendants leave the document. *)
Definition removeChild (parent child : node) (s : State) : result State :=
  match heap s !! child with
  | Some e =>
      if bool_decide (parentNode e = Some parent) then
        Ok (set_order
              (filter (fun n => inSubtree (heap s) child n = false) (order s))
              (update child (set_parentNode None) s))
      else Throw NotFoundError
  | None => Throw NotFoundError
  end.

(** [messageElement.parentNode] *)
Definition parentOf (s : State) (n : node) : option node :=
  match heap s !! n with
  | Some e => parentNode e
  | None => None
  end.

(** The children of [n] lose their parent. *)
Definition detachChildren (n : node) (h : gmap node Element) : gmap node Element :=
  (fun e => if bool_decide (parentNode e = Some n) then set_parentNode None e else e)
    <$> h.

(** [element.textContent = text] for an element that may have children:
    the children leave the document with their descendants, and the text
    becomes the content. *)
Definition setTextContent (n : node) (text : jsstring) (s : State) : State :=
  set_order
    (filter (fun x => isAncestor (size (heap s)) (heap s) n x = false) (order s))
    (set_heap (alter (set_content (Text text)) n (detachChildren n (heap s))) s).

(** [element.tagName] *)
Definition tagNameOf (s : State) (n : node) : jsstring :=
  match heap s !! n with
  | Some e => tagName e
  | None => []
  end.

(** [setTimeout(cb, d)] *)
Definition setTimeout (cb : Cb) (d : Z) (s : State) : State :=
  set_timers (timers s ++ [mkTimer d cb]) s.

(** A session: the events are handled one after the other by [step],
    which returns the id that a call of [addMessage] returned.  The
    result lists these ids, in order, with the final state. *)
Fixpoint session {Ev : Type} (step : Ev -> State -> option jsstring * State)
    (evs : list Ev) (s : State) : list jsstring * State :=
  match evs with
  | [] => ([], s)
  | ev :: evs' =>
      let '(r, s') := step ev s in
      let '(ids, s'') := session step evs' s' in
      (match r with Some i => i :: ids | None => ids end, s'')
  end.

End State.

Arguments Timer : clear implicits.
Arguments State : clear implicits.

End Dom.
Import Dom.

(* ================================================================== *)
(** ** The modular UIManager (dist/ui/UIManager.js) *)
(* ================================================================== *)

Module UIManager.

(** The closures the manager passes to [setTimeout]. *)
Inductive Callback : Type :=
  | ShowMessage (messageElement : node)
      (* () => { messageElement.classList.add('show'); } *)
  | AutoRemove (messageId : jsstring)
      (* () => { this.removeMessage(messageId); } *)
  | DetachMessage (messageElement : node).
      (* () => { if (messageElement.parentNode)
                   messageElement.parentNode.removeChild(messageElement); } *)

Abbreviation State := (Dom.State Callback).

(** The default argument of the constructor. *)
Definition defaultMessageConfig : MessageConfig :=
  {| baseDuration := 3000; durationFactor := 50; fadeTimeout := 300 |}.

Definition calculateMessageDuration (config : MessageConfig) (message : jsstring) : Z :=
  let wordCount := Z.of_nat (length (split 32%N message)) in
  Z.max (baseDuration config)
        (baseDuration config + wordCount * durationFactor config).

(** [addMessage(message, type)]; [now] is what [Date.now()] returns. *)
Definition addMessage (message : jsstring) (type : MessageType) (now : Z)
    (s : State) : jsstring * State :=
  let s := set_messageCounter (messageCounter s + 1) s in
  let messageId :=
    js "msg-" ++ numberToString (messageCounter s) ++ js "-" ++ numberToString now in
  let duration := calculateMessageDuration (messageConfig s) message in
  let '(messageElement, s) := createElement (js "DIV") s in
  let s := update messageElement (set_classList [js "message"; typeName type]) s in
  let s := update messageElement (set_el_id messageId) s in
  let s := update messageElement (set_content (Text message)) s in
  let s := appendChild (report (elements s)) messageElement s in
  let s := setTimeout (ShowMessage messageElement) 10 s in
  let s := setTimeout (AutoRemove messageId) duration s in
  (messageId, s).

Definition removeMessage (messageId : jsstring) (s : State) : State :=
  match getElementById s messageId with
  | None => s
  | Some messageElement =>
      let s := update messageElement (classList_add (js "fade-out")) s in
      setTimeout (DetachMessage messageElement) (fadeTimeout (messageConfig s)) s
  end.

Definition showError (message : jsstring) (now : Z) (s : State) : State :=
  snd (addMessage message error now s).
Definition showSuccess (message : jsstring) (now : Z) (s : State) : State :=
  snd (addMessage message success now s).
Definition showInfo (message : jsstring) (now : Z) (s : State) : State :=
  snd (addMessage message info now s).
Definition showWarning (message : jsstring) (now : Z) (s : State) : State :=
  snd (addMessage message warning now s).

(** The body of a timer closure. *)
Definition runCallback (cb : Callback) (s : State) : result State :=
  match cb with
  | ShowMessage messageElement =>
      Ok (update messageElement (classList_add (js "show")) s)
  | AutoRemove messageId => Ok (removeMessage messageId s)
  | DetachMessage messageElement =>
      match parentOf s messageElement with
      | Some parent => removeChild parent messageElement s
      | None => Ok s
      end
  end.

(** The [k]-th pending timer fires: it leaves the pending list and its
    closure runs. *)
Definition fireTimer (k : nat) (s : State) : result State :=
  match timers s !! k with
  | Some t => runCallback (callback t) (set_timers (delete k (timers s)) s)
  | None => Ok s
  end.

Section Listeners.

(** What the listeners of the [input] event, registered by the constructor
    on the two contenteditable elements ([checkPlaceholder] and
    [normalizeContentEditableHTML]), do to the element that receives the
    event.  They depend on the browser (its parse of the markup, the
    focus, the selection) and write properties of that element only. *)
Variable inputListeners : Element -> Element.

Definition setContentEditableValue (element : node) (value : jsstring)
    (s : State) : State :=
  let htmlValue := replaceNewlines value in
  let s := update element (set_content (Html htmlValue)) s in
  update element inputListeners s.

(** One iteration of the [forEach] of [updateOutputValues]; a value
    [None] is [undefined]. *)
Definition updateOutputValue (s : State) (entry : jsstring * option jsstring)
    : State :=
  let '(key, value) := entry in
  match value with
  | None => s
  | Some value =>
      if bool_decide (key = js "aesKey") then
        update (aesKey (elements s)) (set_value value) s
      else if bool_decide (key = js "iv") then
        update (iv (elements s)) (set_value value) s
      else if bool_decide (key = js "encryptedOutput") then
        setContentEditableValue (decryptInput (elements s)) value s
      else if bool_decide (key = js "decryptedOutput") then
        setContentEditableValue (encryptInput (elements s)) value s
      else
        match getElementById s key with
        | Some element =>
            if bool_decide (tagNameOf s element = js "INPUT")
               || bool_decide (tagNameOf s element = js "TEXTAREA")
            then update element (set_value value) s
            else setTextContent element value s
        | None => s
        end
  end.

(** [updateOutputValues(values)]; [values] lists [Object.entries(values)]. *)
Definition updateOutputValues (values : list (jsstring * option jsstring))
    (s : State) : State :=
  foldl updateOutputValue s values.

(** What can happen to a manager during a session. *)
Inductive Event : Type :=
  | CallAddMessage (message : jsstring) (type : MessageType) (now : Z)
  | CallRemoveMessage (messageId : jsstring)
  | CallUpdateOutputValues (values : list (jsstring * option jsstring))
  | TimerFires (k : nat).

(** The state after an event, and the id it returned if it was a call
    of [addMessage].  An exception of a timer closure reaches the event
    loop; the timer is gone. *)
Definition step (ev : Event) (s : State) : option jsstring * State :=
  match ev with
  | CallAddMessage message type now =>
      let '(messageId, s') := addMessage message type now s in
      (Some messageId, s')
  | CallRemoveMessage messageId => (None, removeMessage messageId s)
  | CallUpdateOutputValues values => (None, updateOutputValues values s)
  | TimerFires k =>
      match fireTimer k s with
      | Ok s' => (None, s')
      | Throw _ => (None, set_timers (delete k (timers s)) s)
      end
  end.

(** The ids returned by the [addMessage] calls of a session, in order,
    and the final state. *)
Definition run (evs : list Event) (s : State) : list jsstring * State :=
  session step evs s.

End Listeners.

End UIManager.

(* ================================================================== *)
(** ** The monolithic main script (static CryptoUtils, UIManager) *)
(* ================================================================== *)

Module Legacy.

(** [/^[0-9A-Fa-f]*$/.test(hex) && hex.length % 2 === 0] *)
Definition isValidHex (hex : jsstring) : bool :=
  forallb isHexDigit hex && (length hex mod 2 =? 0)%nat.

Inductive Callback : Type :=
  | FadeIn (messageElement : node)
      (* () => { messageElement.style.opacity = '1'; } *)
  | AutoRemove (messageId : jsstring)
      (* () => { this.removeMessage(messageId); } *)
  | DetachMessage (messageElement : node).
      (* () => { if (messageElement.parentNode)
                   messageElement.parentNode.removeChild(messageElement); } *)

Abbreviation State := (Dom.State Callback).

(** [this.messageConfig] as the constructor sets it. *)
Definition constructorMessageConfig : MessageConfig :=
  {| baseDuration := 3000; durationFactor := 50; fadeTimeout := 300 |}.

Definition elementIds : list jsstring :=
  [ js "generateKey"; js "encryptButton"; js "decryptButton";
    js "aesKey"; js "iv"; js "encryptInput"; js "decryptInput"; js "report" ].

Definition ElementNotFound (i : jsstring) : exn :=
  Error (js "Elemento com ID '" ++ i ++ js "' não encontrado").

(** [initializeElements()] on a page. *)
Definition initializeElements (h : gmap node Element) (ord : list node)
    : result DOMElements :=
  let get i k :=
    match findById h ord i with
    | Some n => k n
    | None => Throw (ElementNotFound i)
    end in
  get (js "generateKey") (fun e1 =>
  get (js "encryptButton") (fun e2 =>
  get (js "decryptButton") (fun e3 =>
  get (js "aesKey") (fun e4 =>
  get (js "iv") (fun e5 =>
  get (js "encryptInput") (fun e6 =>
  get (js "decryptInput") (fun e7 =>
  get (js "report") (fun e8 =>
  Ok (mkDOMElements e1 e2 e3 e4 e5 e6 e7 e8))))))))).

(** [new UIManager()] on a page; the handlers that the constructor
    registers (focus, blur, keydown, paste) run on user input only. *)
Definition constructor (h : gmap node Element) (ord : list node)
    (pending : list (Timer Callback)) : result State :=
  match initializeElements h ord with
  | Ok els => Ok (mkState els constructorMessageConfig 0 h ord pending)
  | Throw e => Throw e
  end.

Definition generateMessageId (now : Z) (s : State) : jsstring * State :=
  let s := set_messageCounter (messageCounter s + 1) s in
  (js "report_" ++ numberToString (messageCounter s) ++ js "_" ++ numberToString now,
   s).

Definition calculateMessageDuration (s : State) (message : jsstring) : Z :=
  baseDuration (messageConfig s)
  + Z.of_nat (length message) * durationFactor (messageConfig s).

Definition addMessage (message : jsstring) (type : MessageType) (now : Z)
    (s : State) : jsstring * State :=
  let '(messageId, s) := generateMessageId now s in
  let duration := calculateMessageDuration s message in
  let '(messageElement, s) := createElement (js "P") s in
  let s := update messageElement (set_el_id messageId) s in
  let s := update messageElement
             (set_classList [js "message"; js "message-" ++ typeName type]) s in
  let s := update messageElement (set_content (Text message)) s in
  let s := appendChild (report (elements s)) messageElement s in
  let s := update messageElement (set_opacity (js "0")) s in
  let s := update messageElement
             (set_transition
                (js "opacity " ++ numberToString (fadeTimeout (messageConfig s))
                 ++ js "ms ease-in-out")) s in
  let s := setTimeout (FadeIn messageElement) 10 s in
  let s := setTimeout (AutoRemove messageId) duration s in
  (messageId, s).

Definition removeMessage (messageId : jsstring) (s : State) : State :=
  match getElementById s messageId with
  | Some messageElement =>
      let s := update messageElement (set_opacity (js "0")) s in
      setTimeout (DetachMessage messageElement) (fadeTimeout (messageConfig s)) s
  | None => s
  end.

Definition showError (message : jsstring) (now : Z) (s : State) : State :=
  snd (addMessage (js "Erro: " ++ message) error now s).
Definition showSuccess (message : jsstring) (now : Z) (s : State) : State :=
  snd (addMessage message success now s).
Definition showInfo (message : jsstring) (now : Z) (s : State) : State :=
  snd (addMessage message info now s).

Definition runCallback (cb : Callback) (s : State) : result State :=
  match cb with
  | FadeIn messageElement => Ok (update messageElement (set_opacity (js "1")) s)
  | AutoRemove messageId => Ok (removeMessage messageId s)
  | DetachMessage messageElement =>
      match parentOf s messageElement with
      | Some parent => removeChild parent messageElement s
      | None => Ok s
      end
  end.

Definition fireTimer (k : nat) (s : State) : result State :=
  match timers s !! k with
  | Some t => runCallback (callback t) (set_timers (delete k (timers s)) s)
  | None => Ok s
  end.

(** [setElementValue(element, value)] *)
Definition setElementValue (element : node) (value : jsstring) (s : State) : State :=
  update element
    (fun e =>
       if bool_decide (toLowerCase (tagName e) = js "div") && contentEditable e
       then set_content (Text value) e
       else set_value value e) s.

(** What [this.elements[key]] evaluates to: an element of the table, a
    member that the table, an object literal, inherits from
    [Object.prototype] (a function, or the prototype itself under
    [__proto__]), or [undefined]. *)
Inductive Member : Type :=
  | OwnElement (element : node)
  | Inherited
  | Undefined.

(** The property names of [Object.prototype] in a browser. *)
Definition objectPrototypeKeys : list jsstring :=
  [ js "constructor"; js "hasOwnProperty"; js "isPrototypeOf";
    js "propertyIsEnumerable"; js "toLocaleString"; js "toString"; js "valueOf";
    js "__proto__"; js "__defineGetter__"; js "__defineSetter__";
    js "__lookupGetter__"; js "__lookupSetter__" ].

(** [this.elements[key]] *)
Definition elementsLookup (els : DOMElements) (key : jsstring) : Member :=
  if bool_decide (key = js "generateKey") then OwnElement (generateKey els)
  else if bool_decide (key = js "encryptButton") then OwnElement (encryptButton els)
  else if bool_decide (key = js "decryptButton") then OwnElement (decryptButton els)
  else if bool_decide (key = js "aesKey") then OwnElement (aesKey els)
  else if bool_decide (key = js "iv") then OwnElement (iv els)
  else if bool_decide (key = js "encryptInput") then OwnElement (encryptInput els)
  else if bool_decide (key = js "decryptInput") then OwnElement (decryptInput els)
  else if bool_decide (key = js "report") then OwnElement (report els)
  else if existsb (fun name => bool_decide (key = name)) objectPrototypeKeys
  then Inherited
  else Undefined.

(** What [element.tagName.toLowerCase()] throws in [setElementValue] when
    [element] is an inherited member, which has no [tagName]: a
    [TypeError], here with the message of V8. *)
Definition UndefinedTagName : exn :=
  Error (js "Cannot read properties of undefined (reading 'toLowerCase')").

(** [values[key]] on the entries of an object literal. *)
Fixpoint property (values : list (jsstring * jsstring)) (key : jsstring)
    : option jsstring :=
  match values with
  | [] => None
  | (k, v) :: r => if bool_decide (k = key) then Some v else property r key
  end.

(** One iteration of the [forEach] of [setOutputValues], if no iteration
    before it has thrown. *)
Definition setOtherValue (acc : result unit * State) (entry : jsstring * jsstring)
    : result unit * State :=
  let '(outcome, s) := acc in
  let '(key, value) := entry in
  match outcome with
  | Throw _ => acc
  | Ok _ =>
      if negb (bool_decide (key = js "encryptedOutput"))
         && negb (bool_decide (key = js "decryptedOutput"))
      then match elementsLookup (elements s) key with
           | OwnElement element => (Ok tt, setElementValue element value s)
           | Inherited => (Throw UndefinedTagName, s)
           | Undefined => (Ok tt, s)
           end
      else (Ok tt, s)
  end.

(** [setOutputValues(values)]; [values] lists the entries of the object,
    whose values are strings.  The result is how the call ends, with the
    state it leaves: what was written before an exception stays written. *)
Definition setOutputValues (values : list (jsstring * jsstring)) (s : State)
    : result unit * State :=
  let s :=
    match property values (js "encryptedOutput") with
    | Some (c :: v) => setElementValue (decryptInput (elements s)) (c :: v) s
    | _ => s
    end in
  let s :=
    match property values (js "decryptedOutput") with
    | Some (c :: v) => setElementValue (encryptInput (elements s)) (c :: v) s
    | _ => s
    end in
  foldl setOtherValue (Ok tt, s) values.

Inductive Event : Type :=
  | CallAddMessage (message : jsstring) (type : MessageType) (now : Z)
  | CallRemoveMessage (messageId : jsstring)
  | CallSetOutputValues (values : list (jsstring * jsstring))
  | TimerFires (k : nat).

(** The state after an event.  An exception of [setOutputValues] reaches
    its caller, an exception of a timer closure the event loop. *)
Definition step (ev : Event) (s : State) : option jsstring * State :=
  match ev with
  | CallAddMessage message type now =>
      let '(messageId, s') := addMessage message type now s in
      (Some messageId, s')
  | CallRemoveMessage messageId => (None, removeMessage messageId s)
  | CallSetOutputValues values => (None, snd (setOutputValues values s))
  | TimerFires k =>
      match fireTimer k s with
      | Ok s' => (None, s')
      | Throw _ => (None, set_timers (delete k (timers s)) s)
      end
  end.

Definition run (evs : list Event) (s : State) : list jsstring * State :=
  session step evs s.

End Legacy.

(* ================================================================== *)
(** ** Random key material (dist/utils/CryptoUtils.js, dist/crypto/AESCrypto.js) *)
(* ================================================================== *)

Module KeyMaterial.

(** The failures of the platform whose message is chosen by the engine:
    the RangeError of [new Uint8Array(length)] for a negative length, and
    the QuotaExceededError of [crypto.getRandomValues] for more than 65536
    bytes.  Both are [Error] objects. *)
Inductive PlatformFault : Type := InvalidArrayLength | QuotaExceeded.

Section Random.

(** The random generator of the platform: [entropy i] is the [i]-th byte
    it produces.  The functions below thread the number of bytes drawn. *)
Variable entropy : nat -> byte.

Variable faultMessage : PlatformFault -> jsstring.

(** [new Uint8Array(length)]: the length, a number, is truncated toward
    zero (ToIndex); the array is filled with zeros.  Storage is not
    modelled: an array of any length below 2^53 is allocated. *)
Definition newUint8Array (length : Q) : result (list byte) :=
  let integer := (Qnum length ÷ Zpos (Qden length))%Z in
  if ((integer <? 0) || (2 ^ 53 - 1 <? integer))%Z
  then Throw (Error (faultMessage InvalidArrayLength))
  else Ok (replicate (Z.to_nat integer) x00).

(** [crypto.getRandomValues(array)] after [used] bytes have been drawn. *)
Definition getRandomValues (array : list byte) (used : nat)
    : result (list byte) * nat :=
  if (65536 <? Z.of_nat (length array))%Z
  then (Throw (Error (faultMessage QuotaExceeded)), used)
  else (Ok (map entropy (seq used (length array))), used + length array).

(** [generateRandomKey(length = 16)]; an omitted argument is [None]. *)
Definition generateRandomKey (length : option Q) (used : nat)
    : result jsstring * nat :=
  let length := default (inject_Z 16) length in
  match newUint8Array length with
  | Throw e => (Throw e, used)
  | Ok array =>
      match getRandomValues array used with
      | (Throw e, used) => (Throw e, used)
      | (Ok array, used) => (Ok (CryptoUtils.uint8ArrayToHex array), used)
      end
  end.

(** [generateRandomIV(length = 16)] *)
Definition generateRandomIV (length : option Q) (used : nat)
    : result jsstring * nat :=
  let length := default (inject_Z 16) length in
  match newUint8Array length with
  | Throw e => (Throw e, used)
  | Ok array =>
      match getRandomValues array used with
      | (Throw e, used) => (Throw e, used)
      | (Ok array, used) => (Ok (CryptoUtils.uint8ArrayToHex array), used)
      end
  end.

(** [generateKeyAndIV()]: the object [{key, iv}] as a pair. *)
Definition generateKeyAndIV (config : AESCrypto.AESConfig) (used : nat)
    : result (jsstring * jsstring) * nat :=
  let keyLength := Qmake (AESCrypto.keyLength config) 8 in
  match generateRandomKey (Some keyLength) used with
  | (Throw e, used) => (Throw e, used)
  | (Ok key, used) =>
      match generateRandomIV (Some (inject_Z (AESCrypto.ivLength config))) used with
      | (Throw e, used) => (Throw e, used)
      | (Ok iv, used) => (Ok (key, iv), used)
      end
  end.

(** [encryptWithResult(plainText, keyHex, ivHex)]; an omitted [ivHex] is
    [None].  The result [{encryptedData, iv}] is a pair of byte arrays. *)
Definition encryptWithResult (P : AESCrypto.Platform) (config : AESCrypto.AESConfig)
    (plainText keyHex : jsstring) (ivHex : option jsstring)
    (used : nat) (log : list AESCrypto.PlatformCall)
    : result (list byte * list byte) * nat * list AESCrypto.PlatformCall :=
  let '(actualIV, used) :=
    match ivHex with
    | Some (c :: r) => (Ok (c :: r), used)
    | _ => generateRandomIV (Some (inject_Z (AESCrypto.ivLength config))) used
    end in
  match actualIV with
  | Throw e => (Throw e, used, log)
  | Ok actualIV =>
      match AESCrypto.encrypt P config plainText keyHex actualIV log with
      | (Throw e, log) => (Throw e, used, log)
      | (Ok encryptedHex, log) =>
          match CryptoUtils.hexToUint8Array encryptedHex with
          | Throw e => (Throw e, used, log)
          | Ok encryptedData =>
              match CryptoUtils.hexToUint8Array actualIV with
              | Throw e => (Throw e, used, log)
              | Ok iv => (Ok (encryptedData, iv), used, log)
              end
          end
      end
  end.

End Random.

End KeyMaterial.

(* ================================================================== *)
(** ** The static CryptoUtils of the main script *)
(* ================================================================== *)

Module LegacyCryptoUtils.

(** The characters that [.] of a regular expression does not match. *)
Definition isLineTerminator (c : N) : bool :=
  ((c =? 10) || (c =? 13) || (c =? 8232) || (c =? 8233))%N.

(** [s.match(/.{1,2}/g)]: from left to right, the matches of two
    characters, or of one where a line terminator or the end follows;
    line terminators belong to no match.  The empty list is [null]. *)
Fixpoint matchPairs (s : jsstring) : list jsstring :=
  match s with
  | [] => []
  | a :: r =>
      if isLineTerminator a then matchPairs r
      else match r with
           | [] => [[a]]
           | b :: r' =>
               if isLineTerminator b then [a] :: matchPairs r'
               else [a; b] :: matchPairs r'
           end
  end.

Definition hexToUint8Array (hexString : jsstring) : result (list byte) :=
  if AESCrypto.isEmpty hexString then
    Throw (Error (js "String hexadecimal não pode estar vazia"))
  else if negb (Legacy.isValidHex hexString) then
    Throw (Error (js "String hexadecimal inválida"))
  else
    match matchPairs hexString with
    | [] => Throw (Error (js "Formato hexadecimal inválido"))
    | matches => Ok (map (fun byte => toUint8 (parseInt16 byte)) matches)
    end.

Definition uint8ArrayToHex (array : list byte) : jsstring :=
  concat (map (fun byte => padStart 2 48%N (toString16 (Byte.to_N byte))) array).

End LegacyCryptoUtils.

(* ================================================================== *)
(** ** Reading the fields, and the input listeners (dist/ui/UIManager.js) *)
(* ================================================================== *)

Module UIManagerFields.

(** The number of white space characters at the start of [s]: what [\s*]
    matches. *)
Fixpoint leadingWhiteSpace (s : jsstring) : nat :=
  match s with
  | c :: r => if isWhiteSpace c then S (leadingWhiteSpace r) else 0
  | [] => 0
  end.

(** The length of the match of [/<br\s*\/?>/i] at the start of [s], if
    there is one: [<], [b] or [B], [r] or [R], white space, an optional
    [/], then [>]. *)
Definition brMatch (s : jsstring) : option nat :=
  match s with
  | lt :: b :: r :: rest =>
      if ((lt =? 60) && ((b =? 98) || (b =? 66)) && ((r =? 114) || (r =? 82)))%N then
        let spaces := leadingWhiteSpace rest in
        match drop spaces rest with
        | c1 :: rest1 =>
            if (c1 =? 62)%N then Some (3 + spaces + 1)
            else if (c1 =? 47)%N then
              match rest1 with
              | c2 :: _ => if (c2 =? 62)%N then Some (3 + spaces + 2) else None
              | [] => None
              end
            else None
        | [] => None
        end
      else None
  | _ => None
  end.

(** [html.replace(/<br\s*\/?>/gi, '\n')], from left to right; [skip] is
    the number of characters that are still part of the last match. *)
Fixpoint replaceBrFrom (skip : nat) (s : jsstring) : jsstring :=
  match s with
  | [] => []
  | c :: r =>
      match skip with
      | S k => replaceBrFrom k r
      | O =>
          match brMatch s with
          | Some n => 10%N :: replaceBrFrom (n - 1) r
          | None => c :: replaceBrFrom 0 r
          end
      end
  end.

Definition replaceBr (html : jsstring) : jsstring := replaceBrFrom 0 html.

(** The number of characters other than [>] at the start of [s]: what
    [[^>]*] matches. *)
Fixpoint leadingNotGt (s : jsstring) : nat :=
  match s with
  | c :: r => if (c =? 62)%N then 0 else S (leadingNotGt r)
  | [] => 0
  end.

(** [c] is the letter [lower] in either case, as under the flag [i]. *)
Definition isLetter (lower c : N) : bool := ((c =? lower) || (c =? lower - 32))%N.

(** [s] starts with [<div], in any case. *)
Definition startsDivOpen (s : jsstring) : option jsstring :=
  match s with
  | lt :: d :: i :: v :: rest =>
      if (lt =? 60)%N && isLetter 100 d && isLetter 105 i && isLetter 118 v
      then Some rest else None
  | _ => None
  end.

(** [s] starts with [</div>], in any case. *)
Definition divCloseMatch (s : jsstring) : option nat :=
  match s with
  | lt :: sl :: d :: i :: v :: gt :: _ =>
      if (lt =? 60)%N && (sl =? 47)%N && isLetter 100 d && isLetter 105 i
         && isLetter 118 v && (gt =? 62)%N
      then Some 6 else None
  | _ => None
  end.

(** The length of the match of [/<div[^>]*>/i] at the start of [s]. *)
Definition divOpenMatch (s : jsstring) : option nat :=
  match startsDivOpen s with
  | Some rest =>
      let attrs := leadingNotGt rest in
      match drop attrs rest with
      | _ :: _ => Some (4 + attrs + 1)
      | [] => None
      end
  | None => None
  end.

(** The length of the match of [/<div[^>]*><br[^>]*><\/div>/i] at the start
    of [s]. *)
Definition divBrMatch (s : jsstring) : option nat :=
  match divOpenMatch s with
  | Some n =>
      match drop n s with
      | lt :: b :: r :: rest =>
          if (lt =? 60)%N && isLetter 98 b && isLetter 114 r then
            let attrs := leadingNotGt rest in
            match drop attrs rest with
            | _ :: rest1 =>
                match divCloseMatch rest1 with
                | Some m => Some (n + 3 + attrs + 1 + m)
                | None => None
                end
            | [] => None
            end
          else None
      | _ => None
      end
  | None => None
  end.

(** The length of the match of [/<(?!br\s*\/?)[^>]+>/i] at the start of
    [s]: a [<] that the letters [br] do not follow, one character or more
    other than [>], then [>]. *)
Definition otherTagMatch (s : jsstring) : option nat :=
  match s with
  | lt :: rest =>
      if (lt =? 60)%N then
        let br := match rest with
                  | b :: r :: _ => isLetter 98 b && isLetter 114 r
                  | _ => false
                  end in
        if br then None
        else
          let inner := leadingNotGt rest in
          match inner, drop inner rest with
          | S _, _ :: _ => Some (1 + inner + 1)
          | _, _ => None
          end
      else None
  | [] => None
  end.

(** The repetitions of [<br\s*\/?>\s*] at the start of [s]: how many, and
    how many characters they take together.  Every iteration takes four
    characters or more, so that [fuel] iterations suffice for a string of
    [fuel] characters. *)
Fixpoint brRun (fuel : nat) (s : jsstring) : nat * nat :=
  match fuel with
  | O => (0, 0)
  | S fuel' =>
      match brMatch s with
      | Some n =>
          let rest := drop n s in
          let spaces := leadingWhiteSpace rest in
          let '(count, len) := brRun fuel' (drop spaces rest) in
          (S count, n + spaces + len)
      | None => (0, 0)
      end
  end.

(** The length of the match of the last regular expression, three
    repetitions or more of [<br\s*\/?>\s*], at the start of [s]. *)
Definition brRunMatch (s : jsstring) : option nat :=
  let '(count, len) := brRun (length s) s in
  if 3 <=? count then Some len else None.

(** [s.replace(regex, replacement)] for a global [regex] that matches no
    empty string and a [replacement] without [$], from left to right;
    [matchAt] gives the length of the match of [regex] at the start of a
    string, and [skip] is the number of characters that are still part of
    the last match. *)
Fixpoint replaceAllFrom (matchAt : jsstring -> option nat) (replacement : jsstring)
    (skip : nat) (s : jsstring) : jsstring :=
  match s with
  | [] => []
  | c :: r =>
      match skip with
      | S k => replaceAllFrom matchAt replacement k r
      | O =>
          match matchAt s with
          | Some n => replacement ++ replaceAllFrom matchAt replacement (n - 1) r
          | None => c :: replaceAllFrom matchAt replacement 0 r
          end
      end
  end.

Definition replaceAll (matchAt : jsstring -> option nat) (replacement s : jsstring)
    : jsstring :=
  replaceAllFrom matchAt replacement 0 s.

(** The five replacements of [normalizeContentEditableHTML], all of them
    global and without regard to case: a [div] that holds only a line break
    becomes a line break, so does every other opening [div], the closing
    [div] goes, so does every tag that does not start with [br], and three
    line breaks or more in a row, white space between them included,
    become two. *)
Definition normalizeMarkup (html : jsstring) : jsstring :=
  (* html.replace(/<div[^>]*><br[^>]*><\/div>/gi, '<br>') *)
  let html := replaceAll divBrMatch (js "<br>") html in
  (* html.replace(/<div[^>]*>/gi, '<br>') *)
  let html := replaceAll divOpenMatch (js "<br>") html in
  (* html.replace(/<\/div>/gi, '') *)
  let html := replaceAll divCloseMatch [] html in
  (* html.replace(/<(?!br\s*\/?)[^>]+>/gi, '') *)
  let html := replaceAll otherTagMatch [] html in
  (* the last one, with '<br><br>' *)
  replaceAll brRunMatch (js "<br><br>") html.

(** The object that [getInputValues] returns. *)
Record CryptoInputs : Type := mkCryptoInputs {
  keyHex : jsstring;
  ivHex : jsstring;
  encryptData : jsstring;
  decryptData : jsstring
}.

Section Browser.

(** The browser: [serialize c] is what the getter of [innerHTML] returns
    for an element whose content is [c]; [textOfMarkup html] is the
    [textContent] of a new [div] after [div.innerHTML = html]. *)
Variable serialize : Content -> jsstring.
Variable textOfMarkup : jsstring -> jsstring.

(** [element.value] for the element at a node of the table. *)
Definition valueOf (s : UIManager.State) (element : node) : jsstring :=
  match heap s !! element with
  | Some e => value e
  | None => []
  end.

(** [getContentEditableValue(element)]; the temporary [div] is never
    attached and is not kept. *)
Definition getContentEditableValue (s : UIManager.State) (element : node) : jsstring :=
  let html :=
    match heap s !! element with
    | Some e => serialize (content e)
    | None => []
    end in
  let html := replaceBr html in
  trim (textOfMarkup html).

Definition getInputValues (s : UIManager.State) : CryptoInputs :=
  {| keyHex := trim (valueOf s (aesKey (elements s)));
     ivHex := trim (valueOf s (iv (elements s)));
     encryptData := getContentEditableValue s (encryptInput (elements s));
     decryptData := getContentEditableValue s (decryptInput (elements s)) |}.

(** [element.textContent] *)
Definition textContentOf (c : Content) : jsstring :=
  match c with
  | Text text => text
  | Html html => textOfMarkup html
  end.

(** [checkPlaceholder()], the first listener of the [input] event on a
    contenteditable element; the attribute [data-empty], which it sets or
    removes, is not a property of the model. *)
Definition checkPlaceholder (e : Element) : Element :=
  let isEmpty := AESCrypto.isEmpty (trim (textContentOf (content e))) in
  classList_toggle (js "empty") isEmpty e.

(** [normalizeContentEditableHTML(element)], the second listener; the
    selection, which it restores, is not part of the model. *)
Definition normalizeContentEditableHTML (e : Element) : Element :=
  let html := normalizeMarkup (serialize (content e)) in
  if bool_decide (serialize (content e) = html) then e
  else set_content (Html html) e.

(** What the listeners that the constructor registers for the [input]
    event on the two contenteditable elements do, in the order of their
    registration. *)
Definition registeredInputListeners (e : Element) : Element :=
  normalizeContentEditableHTML (checkPlaceholder e).

End Browser.

End UIManagerFields.

(* ================================================================== *)
(** ** Reading the fields in the main script *)
(* ================================================================== *)

Module LegacyFields.

Section Browser.

(** The browser: the [textContent] and the [innerText] of an element
    whose content was given as markup. *)
Variable textContentOfMarkup : jsstring -> jsstring.
Variable innerTextOfMarkup : jsstring -> jsstring.

(** [getElementValue(element)]; of an element whose content is a text,
    [textContent] is that text, and [innerText] is read only when the text
    is empty, when it is empty as well. *)
Definition getElementValue (s : Legacy.State) (element : node) : jsstring :=
  match heap s !! element with
  | Some e =>
      if bool_decide (toLowerCase (tagName e) = js "div") && contentEditable e then
        match content e with
        | Text text => text
        | Html html =>
            if AESCrypto.isEmpty (textContentOfMarkup html) then innerTextOfMarkup html
            else textContentOfMarkup html
        end
      else value e
  | None => []
  end.

Definition valueOf (s : Legacy.State) (element : node) : jsstring :=
  match heap s !! element with
  | Some e => value e
  | None => []
  end.

Definition getInputValues (s : Legacy.State) : UIManagerFields.CryptoInputs :=
  {| UIManagerFields.keyHex := trim (valueOf s (aesKey (elements s)));
     UIManagerFields.ivHex := trim (valueOf s (iv (elements s)));
     UIManagerFields.encryptData := trim (getElementValue s (encryptInput (elements s)));
     UIManagerFields.decryptData := trim (getElementValue s (decryptInput (elements s))) |}.

End Browser.

End LegacyFields.

(* ================================================================== *)
(** ** The orchestrator (dist/managers/AESCryptoManager.js) *)
(* ================================================================== *)

Module AESCryptoManager.

Import UIManagerFields.

(** The message of [getValidatedInputs]; it holds two quotation marks. *)
Definition KeyAndIVRequired : jsstring :=
  js "Chave AES e IV são obrigatórios. Use " ++ 34%N :: js "Gerar Chaves"
  ++ 34%N :: js " se necessário.".

(** [error instanceof Error ? error.message : fallback] *)
Definition messageOr (fallback : jsstring) (err : exn) : jsstring :=
  match err with
  | Error message => message
  | NonError => fallback
  end.

Section Manager.

(** The instance: the platform and the configuration of [this.aesCrypto],
    the random generator, the input listeners of [this.uiManager] and the
    browser functions that reading a field goes through. *)
Variable P : AESCrypto.Platform.
Variable config : AESCrypto.AESConfig.
Variable entropy : nat -> byte.
Variable faultMessage : KeyMaterial.PlatformFault -> jsstring.
Variable inputListeners : Element -> Element.
Variable serialize : Content -> jsstring.
Variable textOfMarkup : jsstring -> jsstring.

Definition getValidatedInputs (s : UIManager.State) : result CryptoInputs :=
  let inputs := getInputValues serialize textOfMarkup s in
  if AESCrypto.isEmpty (keyHex inputs) || AESCrypto.isEmpty (ivHex inputs)
  then Throw (Error KeyAndIVRequired)
  else Ok inputs.

(** [handleGenerateKey()]; [used] counts the random bytes drawn. *)
Definition handleGenerateKey (now : Z) (s : UIManager.State) (used : nat)
    : UIManager.State * nat :=
  match KeyMaterial.generateKeyAndIV entropy faultMessage config used with
  | (Ok (key, iv), used) =>
      let s := UIManager.updateOutputValues inputListeners
                 [(js "aesKey", Some key); (js "iv", Some iv)] s in
      (UIManager.showSuccess (js "Nova chave AES e IV gerados com sucesso!") now s, used)
  | (Throw err, used) =>
      let message := messageOr (js "Erro desconhecido ao gerar chave") err in
      (UIManager.showError (js "Erro ao gerar chave: " ++ message) now s, used)
  end.

(** [handleEncrypt()] up to its [await]: the state it leaves, and the
    inputs of the cipher call it waits for, if it makes one. *)
Definition handleEncrypt_begin (now : Z) (s : UIManager.State)
    : UIManager.State * option CryptoInputs :=
  match getValidatedInputs s with
  | Throw err =>
      (UIManager.showError (messageOr (js "Erro desconhecido na encriptação") err)
         now s, None)
  | Ok inputs =>
      if AESCrypto.isEmpty (encryptData inputs) then
        (UIManager.showError (js "Digite o texto a ser encriptado.") now s, None)
      else (UIManager.showInfo (js "Encriptando dados...") now s, Some inputs)
  end.

(** [handleEncrypt()] from the moment the cipher call has settled. *)
Definition handleEncrypt_end (outcome : result jsstring) (now : Z)
    (s : UIManager.State) : UIManager.State :=
  match outcome with
  | Ok encryptedData =>
      let s := UIManager.updateOutputValues inputListeners
                 [(js "encryptedOutput", Some encryptedData)] s in
      UIManager.showSuccess (js "Dados encriptados com sucesso!") now s
  | Throw err =>
      UIManager.showError (messageOr (js "Erro desconhecido na encriptação") err) now s
  end.

(** A run of [handleEncrypt()] during which no other event is handled;
    [now1] and [now2] are the times of its two messages. *)
Definition handleEncrypt (now1 now2 : Z) (s : UIManager.State)
    (log : list AESCrypto.PlatformCall)
    : UIManager.State * list AESCrypto.PlatformCall :=
  match handleEncrypt_begin now1 s with
  | (s, None) => (s, log)
  | (s, Some inputs) =>
      let '(outcome, log) :=
        AESCrypto.encrypt P config (encryptData inputs) (keyHex inputs) (ivHex inputs)
          log in
      (handleEncrypt_end outcome now2 s, log)
  end.

Definition handleDecrypt_begin (now : Z) (s : UIManager.State)
    : UIManager.State * option CryptoInputs :=
  match getValidatedInputs s with
  | Throw err =>
      (UIManager.showError (messageOr (js "Erro desconhecido na decriptação") err)
         now s, None)
  | Ok inputs =>
      if AESCrypto.isEmpty (decryptData inputs) then
        (UIManager.showError (js "Digite os dados a serem decriptados.") now s, None)
      else (UIManager.showInfo (js "Decriptando dados...") now s, Some inputs)
  end.

Definition handleDecrypt_end (outcome : result jsstring) (now : Z)
    (s : UIManager.State) : UIManager.State :=
  match outcome with
  | Ok decryptedData =>
      let s := UIManager.updateOutputValues inputListeners
                 [(js "decryptedOutput", Some decryptedData)] s in
      UIManager.showSuccess (js "Dados decriptados com sucesso!") now s
  | Throw err =>
      UIManager.showError (messageOr (js "Erro desconhecido na decriptação") err) now s
  end.

Definition handleDecrypt (now1 now2 : Z) (s : UIManager.State)
    (log : list AESCrypto.PlatformCall)
    : UIManager.State * list AESCrypto.PlatformCall :=
  match handleDecrypt_begin now1 s with
  | (s, None) => (s, log)
  | (s, Some inputs) =>
      let '(outcome, log) :=
        AESCrypto.decrypt P config (decryptData inputs) (keyHex inputs) (ivHex inputs)
          log in
      (handleDecrypt_end outcome now2 s, log)
  end.

(** [importKey(keyHex, ivHex)] *)
Definition importKey (keyHex ivHex : jsstring) (now : Z) (s : UIManager.State)
    : UIManager.State :=
  let body : result UIManager.State :=
    if negb (CryptoUtils.isValidHex keyHex) || negb (CryptoUtils.isValidHex ivHex) then
      Throw (Error (js "Chave e IV devem ser strings hexadecimais válidas."))
    else if negb (CryptoUtils.isValidKeySize keyHex) then
      Throw (Error (js "Chave deve ter 128, 192 ou 256 bits."))
    else if negb (CryptoUtils.isValidIVSize ivHex 16) then
      Throw (Error (js "IV deve ter 128 bits (16 bytes)."))
    else
      let s := UIManager.updateOutputValues inputListeners
                 [(js "aesKey", Some keyHex); (js "iv", Some ivHex)] s in
      Ok (UIManager.showSuccess (js "Chave e IV importados com sucesso!") now s) in
  match body with
  | Ok s => s
  | Throw err =>
      let message := messageOr (js "Erro desconhecido ao importar chave") err in
      UIManager.showError (js "Erro ao importar chave: " ++ message) now s
  end.

End Manager.

End AESCryptoManager.

(* ================================================================== *)
(** ** Reference definitions used in the statements *)
(* ================================================================== *)

Module Spec.

(** The hex alphabet, character by character. *)
Definition hexAlphabet : jsstring := js "0123456789ABCDEFabcdef".

(** The byte written by the two hex digits [a] (high) and [b] (low). *)
Definition byteOfDigits (a b : N) : byte :=
  default x00
    (Byte.of_N (16 * default 0%N (hexDigitValue a) + default 0%N (hexDigitValue b))).

(** A string of hex digits read two by two. *)
Fixpoint decodePairs (s : jsstring) : list byte :=
  match s with
  | a :: b :: r => byteOfDigits a b :: decodePairs r
  | _ => []
  end.

(** A single leading zero before an odd number of digits. *)
Definition zeroPad (s : jsstring) : jsstring :=
  if Nat.even (length s) then s else 48%N :: s.

(** No white space at either end. *)
Definition trimmed (s : jsstring) : Prop :=
  trimStart s = s /\ trimStart (rev s) = rev s.

(** The fields of the manager instance are the same in [s] and [s']. *)
Definition sameManager {Cb} (s s' : Dom.State Cb) : Prop :=
  elements s' = elements s /\ messageConfig s' = messageConfig s
  /\ messageCounter s' = messageCounter s.

(** The delay of the timer that was scheduled last. *)
Definition scheduledDuration {Cb} (s : Dom.State Cb) : option Z :=
  delay <$> last (timers s).

(** The id of the message with counter [c] made at time [t]. *)
Definition messageId (prefix : jsstring) (sep : N) (c t : Z) : jsstring :=
  prefix ++ numberToString c ++ sep :: numberToString t.

End Spec.

(* ================================================================== *)
(** ** Concrete platforms and pages, for the examples *)
(* ================================================================== *)

Module Scenario.

(** A platform whose cipher leaves the data as it is. *)
Definition echoPlatform : AESCrypto.Platform :=
  {| AESCrypto.CryptoKey := list byte;
     AESCrypto.subtle_importKey := fun _ keyData => Ok keyData;
     AESCrypto.subtle_encrypt := fun _ _ _ data => Ok data;
     AESCrypto.subtle_decrypt := fun _ _ _ data => Ok data;
     AESCrypto.textEncode := map (fun c => toUint8 (Some (Z.of_N c)));
     AESCrypto.textDecode := map Byte.to_N |}.

Definition operationError : jsstring :=
  js "The operation failed for an operation-specific reason".

(** A platform whose cipher primitives reject, as [decrypt] does on a
    wrong padding. *)
Definition rejectingPlatform : AESCrypto.Platform :=
  {| AESCrypto.CryptoKey := list byte;
     AESCrypto.subtle_importKey := fun _ keyData => Ok keyData;
     AESCrypto.subtle_encrypt := fun _ _ _ _ => Throw (Error operationError);
     AESCrypto.subtle_decrypt := fun _ _ _ _ => Throw (Error operationError);
     AESCrypto.textEncode := map (fun c => toUint8 (Some (Z.of_N c)));
     AESCrypto.textDecode := map Byte.to_N |}.

Definition zeros32 : jsstring := js "00000000000000000000000000000000".

(** A page with the eight elements of the application under its body. *)
Definition element (tag i : jsstring) (editable : bool) (parent : option node)
    : Element :=
  mkElement tag i [] editable (Text []) [] [] [] parent.

Definition pageHeap : gmap node Element :=
  list_to_map
    [ (0, element (js "BODY") (js "") false None);
      (1, element (js "BUTTON") (js "generateKey") false (Some 0));
      (2, element (js "BUTTON") (js "encryptButton") false (Some 0));
      (3, element (js "BUTTON") (js "decryptButton") false (Some 0));
      (4, element (js "INPUT") (js "aesKey") false (Some 0));
      (5, element (js "INPUT") (js "iv") false (Some 0));
      (6, element (js "DIV") (js "encryptInput") true (Some 0));
      (7, element (js "DIV") (js "decryptInput") true (Some 0));
      (8, element (js "DIV") (js "report") false (Some 0)) ].

Definition pageOrder : list node := [0; 1; 2; 3; 4; 5; 6; 7; 8].

Definition pageElements : DOMElements := mkDOMElements 1 2 3 4 5 6 7 8.

(** The modular manager on this page, with the default message
    configuration. *)
Definition modularPage : UIManager.State :=
  mkState pageElements UIManager.defaultMessageConfig 0 pageHeap pageOrder [].

(** The manager of the main script on this page, as its constructor
    leaves it. *)
Definition legacyPage : Legacy.State :=
  mkState pageElements Legacy.constructorMessageConfig 0 pageHeap pageOrder [].

(** The listeners of an element whose markup needs no normalisation. *)
Definition quietListeners (e : Element) : Element := e.

Definition now : Z := 1730000000000.

(** The two pages after [addMessage("ok", "success")]. *)
Definition modularWithMessage : UIManager.State :=
  snd (UIManager.addMessage (js "ok") success now modularPage).

Definition legacyWithMessage : Legacy.State :=
  snd (Legacy.addMessage (js "ok") success now legacyPage).

End Scenario.

(* ================================================================== *)
(** ** Further reference definitions: alphabets and pages *)
(* ================================================================== *)

Module Shape.

(** The digits that [uint8ArrayToHex] writes. *)
Definition lowerHexAlphabet : jsstring := js "0123456789abcdef".

(** The lower-case form of one code unit, as [toLowerCase] maps it. *)
Definition lowerChar (c : N) : N :=
  if ((65 <=? c) && (c <=? 90))%N then (c + 32)%N else c.

(** The line feeds in the white space at the start of [s]. *)
Fixpoint breakRun (s : jsstring) : nat :=
  match s with
  | c :: r =>
      if (c =? 10)%N then S (breakRun r)
      else if isWhiteSpace c then breakRun r
      else 0
  | [] => 0
  end.

(** No run of white space in [s] holds three line feeds or more. *)
Fixpoint noTripleBreak (s : jsstring) : bool :=
  match s with
  | [] => true
  | _ :: r => (breakRun s <? 3) && noTripleBreak r
  end.

End Shape.

Module Page.

(** Every attached node is in the heap, and so is the parent of every
    node of the heap. *)
Definition closed {Cb} (s : Dom.State Cb) : Prop :=
  (forall x, In x (order s) -> is_Some (heap s !! x))
  /\ (forall x e p, heap s !! x = Some e -> parentNode e = Some p ->
                    is_Some (heap s !! p)).

(** The same, as a check that runs on a given page. *)
Definition closedb {Cb} (s : Dom.State Cb) : bool :=
  forallb (fun x => bool_decide (is_Some (heap s !! x))) (order s)
  && forallb (fun xe : node * Element =>
                match parentNode (snd xe) with
                | Some p => bool_decide (is_Some (heap s !! p))
                | None => true
                end) (map_to_list (heap s)).

End Page.

(* ================================================================== *)
(** ** A random generator, a browser and a filled page, for the examples *)
(* ================================================================== *)

Module Fixture.

(** A generator that counts: its [i]-th byte is [i] modulo 256. *)
Definition countingEntropy (i : nat) : byte :=
  default x00 (Byte.of_N (N.of_nat i mod 256)).

Definition engineMessage (fault : KeyMaterial.PlatformFault) : jsstring :=
  match fault with
  | KeyMaterial.InvalidArrayLength => js "Invalid typed array length"
  | KeyMaterial.QuotaExceeded => js "The requested length exceeds 65536 bytes"
  end.

(** A browser on contents without markup other than line breaks: the
    markup of a content is the string that was written, and the text of
    such a markup is the markup. *)
Definition plainSerialize (c : Content) : jsstring :=
  match c with
  | Text text => text
  | Html html => html
  end.

Definition plainTextOfMarkup (html : jsstring) : jsstring := html.

(** Two lines. *)
Definition twoLines : jsstring := js "3f9a" ++ 10%N :: js "00ff".

(** A text with three line feeds in a row. *)
Definition threeBreaks : jsstring := js "a" ++ [10; 10; 10]%N ++ js "b".

(** The page of the modular manager, with a key and an IV surrounded by
    white space in their fields and a text to encrypt. *)
Definition filledPage : UIManager.State :=
  update 6 (set_content (Html (js "hello")))
    (update 5 (set_value (js " 000102030405060708090a0b0c0d0e0f "))
       (update 4 (set_value (js "  00000000000000000000000000000000"))
          Scenario.modularPage)).


End Fixture.

Example legacy_setOutputValues_inherited_key :
  let '(outcome, s) :=
    Legacy.setOutputValues
      [(js "aesKey", js "00"); (js "toString", js "x"); (js "iv", js "11")]
      Scenario.legacyPage in
  outcome = Throw Legacy.UndefinedTagName
  /\ value <$> heap s !! aesKey Scenario.pageElements = Some (js "00")
  /\ value <$> heap s !! iv Scenario.pageElements = Some (js "").
Proof. vm_compute. repeat split. Qed.

(** A write under the key [report] removes the message that the element
    holds. *)
Example updateOutputValues_report :
  let s := UIManager.updateOutputValues Scenario.quietListeners
             [(js "report", Some (js "x"))] Scenario.modularWithMessage in
  order Scenario.modularWithMessage = Scenario.pageOrder ++ [9]
  /\ order s = Scenario.pageOrder
  /\ parentOf s 9 = None
  /\ content <$> heap s !! report Scenario.pageElements = Some (Text (js "x")).
Proof. vm_compute. repeat split. Qed.

Example normalizeMarkup_collapses :
  UIManagerFields.normalizeMarkup (js "x<br/> <BR > <br>y<br>z") = js "x<br><br>y<br>z".
Proof. vm_compute. reflexivity. Qed.

Example normalizeMarkup_divs :
  UIManagerFields.normalizeMarkup
    (js "<div>a</div><DIV class='x'><br></div>b<p>c</p><span>d")
  = js "<br>a<br>bcd".
Proof. vm_compute. reflexivity. Qed.

Example normalizeMarkup_comparison :
  UIManagerFields.normalizeMarkup (js "a < b and c > d<br><br>") = js "a  d<br><br>".
Proof. vm_compute. reflexivity. Qed.

(** A key of 31 digits decodes to 16 bytes and is rejected for its size. *)
Example validateParameters_odd_key :
  let keyHex := js "0000000000000000000000000000000" in
  CryptoUtils.hexToUint8Array keyHex = Ok (replicate 16 x00)
  /\ AESCrypto.validateParameters AESCrypto.defaultConfig keyHex Scenario.zeros32
       AESCrypto.OpEncrypt
     = Throw AESCrypto.InvalidKeySize.
Proof. vm_compute. split; reflexivity. Qed.

Example js_ascii : js "0aF" = [48; 97; 70]%N.
Proof. reflexivity. Qed.

Example js_accents : js "ção é" = [231; 227; 111; 32; 233]%N.
Proof. reflexivity. Qed.

Example trim_ex : trim (js "  ab c
 ") = js "ab c".
Proof. reflexivity. Qed.

Example parseInt16_ex : parseInt16 (js "fF") = Some 255%Z.
Proof. reflexivity. Qed.

Example parseInt16_nan : parseInt16 (js "zz") = None.
Proof. reflexivity. Qed.

Example toString16_ex : toString16 171 = js "ab".
Proof. reflexivity. Qed.

Example numberToString_ex : numberToString (-1730000000123) = js "-1730000000123".
Proof. reflexivity. Qed.

Example hexToUint8Array_ex :
  CryptoUtils.hexToUint8Array (js " 1aB ") = Ok [x01; xab].
Proof. reflexivity. Qed.

Example uint8ArrayToHex_ex :
  CryptoUtils.uint8ArrayToHex [x00; x0f; xff] = js "000fff".
Proof. reflexivity. Qed.

Example isValidKeySize_ex :
  CryptoUtils.isValidKeySize (repeat 48%N 31) = false /\
  CryptoUtils.isValidKeySize (repeat 48%N 32) = true.
Proof. split; reflexivity. Qed.

(* ================================================================== *)
(** ** Strings: white space and trimming *)
(* ================================================================== *)

Section TrimFacts.

Lemma trimStart_split (s : jsstring) :
  exists w, s = w ++ trimStart s /\ forallb isWhiteSpace w = true.
Proof.
  induction s as [|c r [w [Hr Hw]]]; simpl.
  - exists []. split; reflexivity.
  - destruct (isWhiteSpace c) eqn:Hc.
    + exists (c :: w). simpl. rewrite Hc, Hw. split; [congruence | reflexivity].
    + exists []. split; reflexivity.
Qed.

Lemma trimStart_head (s : jsstring) :
  trimStart s = s <-> s = [] \/ exists c r, s = c :: r /\ isWhiteSpace c = false.
Proof.
  split.
  - destruct s as [|c r]; [now left | right].
    simpl in H. destruct (isWhiteSpace c) eqn:Hc; [| now eauto].
    exfalso. destruct (trimStart_split r) as [w [Hr _]].
    apply (f_equal (@length N)) in H. apply (f_equal (@length N)) in Hr.
    rewrite length_app in Hr. simpl in H. lia.
  - intros [-> | (c & r & -> & Hc)]; simpl; [reflexivity | now rewrite Hc].
Qed.

Lemma trimStart_idem (s : jsstring) : trimStart (trimStart s) = trimStart s.
Proof.
  induction s as [|c r IH]; simpl; [reflexivity |].
  destruct (isWhiteSpace c) eqn:Hc; [exact IH | simpl; now rewrite Hc].
Qed.

(** Stripping the end keeps a first character that is not white space. *)
Lemma trimEnd_keeps_head (s : jsstring) :
  trimStart s = s -> trimStart (trimEnd s) = trimEnd s.
Proof.
  intros Hs. unfold trimEnd.
  destruct (trimStart_split (rev s)) as [w [Hr Hw]].
  apply trimStart_head.
  destruct (rev (trimStart (rev s))) as [|c r] eqn:Hv; [now left | right].
  exists c, r. split; [reflexivity |].
  assert (Hs' : s = (c :: r) ++ rev w).
  { rewrite <- Hv, <- rev_app_distr, <- Hr. now rewrite rev_involutive. }
  apply trimStart_head in Hs. destruct Hs as [-> | (c' & r' & Hcr & Hc')].
  - discriminate.
  - rewrite Hcr in Hs'. simpl in Hs'. now inversion Hs'; subst.
Qed.

Lemma trim_trimmed (s : jsstring) : Spec.trimmed (trim s).
Proof.
  unfold Spec.trimmed, trim. split.
  - apply trimEnd_keeps_head, trimStart_idem.
  - unfold trimEnd. rewrite rev_involutive. apply trimStart_idem.
Qed.

Lemma trimmed_trim (s : jsstring) : Spec.trimmed s -> trim s = s.
Proof.
  intros [H1 H2]. unfold trim, trimEnd. rewrite H1, H2. apply rev_involutive.
Qed.

Lemma trim_idem (s : jsstring) : trim (trim s) = trim s.
Proof. apply trimmed_trim, trim_trimmed. Qed.

(** [trim s] is [s] without a run of white space at each end. *)
Lemma trim_split (s : jsstring) :
  exists l r, s = l ++ trim s ++ r
              /\ forallb isWhiteSpace l = true /\ forallb isWhiteSpace r = true.
Proof.
  destruct (trimStart_split s) as [l [Hl Hwl]].
  destruct (trimStart_split (rev (trimStart s))) as [w [Hw Hww]].
  exists l, (rev w). unfold trim, trimEnd. repeat split.
  - rewrite <- rev_app_distr, <- Hw, rev_involutive. exact Hl.
  - exact Hwl.
  - rewrite forallb_forall in *. intros x Hx. apply Hww. now apply in_rev.
Qed.

Lemma hexDigit_not_whiteSpace (c : N) :
  isHexDigit c = true -> isWhiteSpace c = false.
Proof.
  unfold isHexDigit, isWhiteSpace, whiteSpaceCodes. intros H. simpl.
  repeat match goal with
         | |- context [(c =? ?k)%N] => destruct (N.eqb_spec c k); [subst c; discriminate H |]
         end.
  reflexivity.
Qed.

Lemma hex_trimmed (s : jsstring) :
  forallb isHexDigit s = true -> Spec.trimmed s.
Proof.
  intros H. split; apply trimStart_head.
  - destruct s as [|c r]; [now left | right]. exists c, r. split; [reflexivity |].
    simpl in H. apply andb_true_iff in H. now apply hexDigit_not_whiteSpace.
  - destruct (rev s) as [|c r] eqn:Hr; [now left | right].
    exists c, r. split; [reflexivity |]. apply hexDigit_not_whiteSpace.
    rewrite forallb_forall in H. apply H, in_rev. rewrite Hr. now left.
Qed.

Lemma hex_trim (s : jsstring) : forallb isHexDigit s = true -> trim s = s.
Proof. intros H. now apply trimmed_trim, hex_trimmed. Qed.

End TrimFacts.

(* ================================================================== *)
(** ** The hex codec *)
(* ================================================================== *)

Section CodecFacts.

(** A boolean property checked on every number below a bound. *)
Lemma N_forall_below (p : N -> bool) (n : nat) :
  forallb p (map N.of_nat (seq 0 n)) = true ->
  forall c, (c < N.of_nat n)%N -> p c = true.
Proof.
  intros H c Hc. rewrite forallb_forall in H. apply H.
  apply in_map_iff. exists (N.to_nat c). split; [apply N2Nat.id |].
  apply in_seq. lia.
Qed.

Lemma isHexDigit_bound (c : N) : isHexDigit c = true -> (c < N.of_nat 103)%N.
Proof.
  unfold isHexDigit. rewrite !orb_true_iff, !andb_true_iff, !N.leb_le. lia.
Qed.

Lemma isHexDigit_alphabet (c : N) :
  isHexDigit c = true <-> In c Spec.hexAlphabet.
Proof.
  split.
  - intros H.
    assert (Hp : implb (isHexDigit c) (existsb (N.eqb c) Spec.hexAlphabet) = true).
    { apply (N_forall_below
               (fun c => implb (isHexDigit c) (existsb (N.eqb c) Spec.hexAlphabet))
               103); [vm_compute; reflexivity | now apply isHexDigit_bound]. }
    rewrite H in Hp. cbn [implb] in Hp. apply existsb_exists in Hp.
    destruct Hp as [x [Hx Hcx]]. apply N.eqb_eq in Hcx. now subst.
  - intros H. vm_compute in H.
    repeat (destruct H as [<- | H]; [reflexivity |]). contradiction.
Qed.

(** Two hex digits are read by [parseInt] as the byte they write. *)
Lemma parse_pair (a b : N) :
  isHexDigit a = true -> isHexDigit b = true ->
  toUint8 (parseInt16 [a; b]) = Spec.byteOfDigits a b.
Proof.
  intros Ha Hb.
  pose (p := fun a b : N =>
               implb (isHexDigit a && isHexDigit b)
                     (Byte.eqb (toUint8 (parseInt16 [a; b])) (Spec.byteOfDigits a b))).
  assert (Hp : p a b = true).
  { apply (N_forall_below (p a) 103); [| now apply isHexDigit_bound].
    apply (N_forall_below
             (fun a => forallb (p a) (map N.of_nat (seq 0 103))) 103);
      [vm_compute; reflexivity | now apply isHexDigit_bound]. }
  unfold p in Hp. rewrite Ha, Hb in Hp. cbn [andb implb] in Hp.
  now apply Byte.byte_dec_bl.
Qed.

(** The byte of two hex digits is printed as these digits in lower case. *)
Lemma format_pair (a b : N) :
  isHexDigit a = true -> isHexDigit b = true ->
  padStart 2 48%N (toString16 (Byte.to_N (Spec.byteOfDigits a b)))
  = toLowerCase [a; b].
Proof.
  intros Ha Hb.
  pose (p := fun a b : N =>
               implb (isHexDigit a && isHexDigit b)
                     (bool_decide
                        (padStart 2 48%N (toString16 (Byte.to_N (Spec.byteOfDigits a b)))
                         = toLowerCase [a; b]))).
  assert (Hp : p a b = true).
  { apply (N_forall_below (p a) 103); [| now apply isHexDigit_bound].
    apply (N_forall_below
             (fun a => forallb (p a) (map N.of_nat (seq 0 103))) 103);
      [vm_compute; reflexivity | now apply isHexDigit_bound]. }
  unfold p in Hp. rewrite Ha, Hb in Hp. cbn [andb implb] in Hp.
  now apply bool_decide_eq_true in Hp.
Qed.

(** A byte is printed as two hex digits that write it back. *)
Lemma format_byte (x : byte) :
  exists h l,
    padStart 2 48%N (toString16 (Byte.to_N x)) = [h; l]
    /\ isHexDigit h = true /\ isHexDigit l = true
    /\ Spec.byteOfDigits h l = x.
Proof.
  pose (p := fun n : N =>
               match padStart 2 48%N (toString16 n) with
               | [h; l] =>
                   isHexDigit h && isHexDigit l
                   && (Byte.to_N (Spec.byteOfDigits h l) =? n)%N
               | _ => false
               end).
  assert (Hp : p (Byte.to_N x) = true).
  { apply (N_forall_below p 256); [vm_compute; reflexivity |].
    pose proof (Byte.to_N_bounded x). lia. }
  unfold p in Hp.
  destruct (padStart 2 48%N (toString16 (Byte.to_N x))) as [|h [|l [|? ?]]];
    try discriminate.
  apply andb_true_iff in Hp as [Hp Hx]. apply andb_true_iff in Hp as [Hh Hl].
  exists h, l. repeat split; try assumption.
  apply N.eqb_eq in Hx.
  pose proof (Byte.of_to_N (Spec.byteOfDigits h l)) as H1.
  pose proof (Byte.of_to_N x) as H2. rewrite Hx in H1. congruence.
Qed.

(** The loop of [hexToUint8Array] ends within its fuel and has then
    written every cell. *)
Lemma hexLoop_decode (s : jsstring) :
  forallb isHexDigit s = true ->
  forall fuel k (result : list byte),
    length s = 2 * length result ->
    k <= length result ->
    length result - k <= fuel ->
    CryptoUtils.hexLoop fuel s (2 * k) result
    = take k result ++ Spec.decodePairs (drop (2 * k) s).
Proof.
  intros Hs. induction fuel as [|fuel IH]; intros k result Hlen Hk Hfuel.
  - simpl. rewrite take_ge, drop_ge by lia. simpl. now rewrite app_nil_r.
  - cbn [CryptoUtils.hexLoop].
    destruct (Nat.ltb_spec (2 * k) (length s)) as [Hlt | Hge].
    + replace (2 * k + 2) with (2 * S k) by lia.
      replace (2 * k / 2) with k by (rewrite Nat.mul_comm, Nat.div_mul; lia).
      rewrite IH; rewrite ?length_insert; try lia.
      destruct (drop (2 * k) s) as [|a [|b r]] eqn:Hd;
        try (apply (f_equal (@length N)) in Hd; rewrite length_drop in Hd;
             simpl in Hd; lia).
      assert (Hab : isHexDigit a = true /\ isHexDigit b = true).
      { rewrite forallb_forall in Hs.
        split; apply Hs; rewrite <- (take_drop (2 * k) s), Hd;
          apply in_or_app; right; simpl; auto. }
      replace (drop (2 * S k) s) with r.
      2:{ replace (2 * S k) with (2 * k + 2) by lia.
          rewrite <- drop_drop, Hd. reflexivity. }
      unfold substr. rewrite Hd. cbn [take].
      rewrite parse_pair by apply Hab. cbn [Spec.decodePairs].
      rewrite (take_S_r _ _ (Spec.byteOfDigits a b))
        by (apply list_lookup_insert_eq; lia).
      rewrite take_insert_ge by lia. now rewrite <- app_assoc.
    + rewrite take_ge, drop_ge by lia. simpl. now rewrite app_nil_r.
Qed.

Lemma isValidHex_trim (s : jsstring) :
  CryptoUtils.isValidHex (trim s) = CryptoUtils.isValidHex s.
Proof. unfold CryptoUtils.isValidHex. now rewrite trim_idem. Qed.

Lemma hexRegex_test_forallb (s : jsstring) :
  CryptoUtils.hexRegex_test s = true -> forallb isHexDigit s = true.
Proof. destruct s; [discriminate | trivial]. Qed.

Lemma mod2_even (n : nat) : (n mod 2 =? 0)%nat = Nat.even n.
Proof.
  destruct (Nat.even n) eqn:He.
  - apply Nat.even_spec in He. destruct He as [m ->].
    rewrite Nat.mul_comm, Nat.Div0.mod_mul. reflexivity.
  - apply Nat.eqb_neq. intros H0.
    apply Nat.Div0.mod_divides in H0. destruct H0 as [m Hm].
    assert (Nat.even n = true) by (apply Nat.even_spec; exists m; exact Hm).
    congruence.
Qed.

Lemma zeroPad_normalized (s : jsstring) :
  (if (length s mod 2 =? 0)%nat then s else 48%N :: s) = Spec.zeroPad s.
Proof. unfold Spec.zeroPad. now rewrite mod2_even. Qed.

Lemma zeroPad_even (s : jsstring) :
  length (Spec.zeroPad s) = 2 * (length (Spec.zeroPad s) / 2).
Proof.
  unfold Spec.zeroPad. destruct (Nat.even (length s)) eqn:He.
  - apply Nat.even_spec in He. destruct He as [m Hm]. rewrite Hm.
    rewrite (Nat.mul_comm 2 m), Nat.div_mul; lia.
  - assert (Ho : Nat.odd (length s) = true)
      by (unfold Nat.odd; now rewrite He).
    apply Nat.odd_spec in Ho. destruct Ho as [m Hm]. simpl length. rewrite Hm.
    replace (S (2 * m + 1)) with ((m + 1) * 2) by lia.
    rewrite Nat.div_mul; lia.
Qed.

(** [hexToUint8Array] on a valid string: the digits left after trimming,
    zero padded to an even number, read two by two. *)
Lemma hexToUint8Array_valid (s : jsstring) :
  CryptoUtils.isValidHex s = true ->
  CryptoUtils.hexToUint8Array s = Ok (Spec.decodePairs (Spec.zeroPad (trim s))).
Proof.
  intros Hv. unfold CryptoUtils.hexToUint8Array.
  rewrite isValidHex_trim, Hv. cbn [negb]. rewrite zeroPad_normalized.
  f_equal.
  assert (Hhex : forallb isHexDigit (Spec.zeroPad (trim s)) = true).
  { apply hexRegex_test_forallb in Hv. unfold Spec.zeroPad.
    destruct (Nat.even _); [exact Hv | simpl; now rewrite Hv]. }
  pose proof (zeroPad_even (trim s)) as He.
  rewrite (hexLoop_decode _ Hhex _ 0); rewrite ?length_replicate; try lia.
  reflexivity.
Qed.

Lemma hexToUint8Array_invalid (s : jsstring) :
  CryptoUtils.isValidHex s = false ->
  CryptoUtils.hexToUint8Array s = Throw (Error (js "String hexadecimal inválida")).
Proof.
  intros Hv. unfold CryptoUtils.hexToUint8Array.
  now rewrite isValidHex_trim, Hv.
Qed.

Lemma uint8ArrayToHex_cons (x : byte) (array : list byte) :
  CryptoUtils.uint8ArrayToHex (x :: array)
  = padStart 2 48%N (toString16 (Byte.to_N x)) ++ CryptoUtils.uint8ArrayToHex array.
Proof. reflexivity. Qed.

Lemma uint8ArrayToHex_hex (array : list byte) :
  forallb isHexDigit (CryptoUtils.uint8ArrayToHex array) = true.
Proof.
  induction array as [|x array IH]; [reflexivity |].
  rewrite uint8ArrayToHex_cons.
  destruct (format_byte x) as (h & l & -> & Hh & Hl & _).
  simpl. now rewrite Hh, Hl.
Qed.

Lemma uint8ArrayToHex_length (array : list byte) :
  length (CryptoUtils.uint8ArrayToHex array) = 2 * length array.
Proof.
  induction array as [|x array IH]; [reflexivity |].
  rewrite uint8ArrayToHex_cons.
  destruct (format_byte x) as (h & l & -> & _). simpl. lia.
Qed.

Lemma decodePairs_uint8ArrayToHex (array : list byte) :
  Spec.decodePairs (CryptoUtils.uint8ArrayToHex array) = array.
Proof.
  induction array as [|x array IH]; [reflexivity |].
  rewrite uint8ArrayToHex_cons.
  destruct (format_byte x) as (h & l & -> & _ & _ & Hx).
  simpl. now rewrite Hx, IH.
Qed.

Lemma uint8ArrayToHex_decodePairs (n : nat) :
  forall h, length h = 2 * n -> forallb isHexDigit h = true ->
            CryptoUtils.uint8ArrayToHex (Spec.decodePairs h) = toLowerCase h.
Proof.
  induction n as [|n IH]; intros h Hlen Hhex.
  - destruct h; [reflexivity | discriminate].
  - destruct h as [|a [|b r]]; try (simpl in Hlen; lia).
    simpl in Hhex. apply andb_true_iff in Hhex as [Ha Hhex].
    apply andb_true_iff in Hhex as [Hb Hhex].
    cbn [Spec.decodePairs]. rewrite uint8ArrayToHex_cons.
    rewrite format_pair by assumption.
    rewrite IH by (simpl in Hlen; lia || assumption). reflexivity.
Qed.

End CodecFacts.

(** C1 (amended).  For every non-empty byte array [b],
    [hexToUint8Array (uint8ArrayToHex b)] returns a byte array equal to [b];
    and for every non-empty string [h] of hex digits of even length,
    [hexToUint8Array h] returns bytes that [uint8ArrayToHex] prints as [h]
    with every letter in lower case. *)
Theorem hex_roundtrip :
  (forall b : list byte,
      b <> [] ->
      CryptoUtils.hexToUint8Array (CryptoUtils.uint8ArrayToHex b) = Ok b)
  /\ (forall h : jsstring,
         h <> [] ->
         (forall c, In c h -> In c Spec.hexAlphabet) ->
         Nat.even (length h) = true ->
         exists bytes,
           CryptoUtils.hexToUint8Array h = Ok bytes
           /\ CryptoUtils.uint8ArrayToHex bytes = toLowerCase h).
Proof.
  split.
  - intros b Hb.
    pose proof (uint8ArrayToHex_hex b) as Hhex.
    pose proof (uint8ArrayToHex_length b) as Hlen.
    assert (Hv : CryptoUtils.isValidHex (CryptoUtils.uint8ArrayToHex b) = true).
    { unfold CryptoUtils.isValidHex. rewrite hex_trim by exact Hhex.
      destruct (CryptoUtils.uint8ArrayToHex b) eqn:E; [| exact Hhex].
      destruct b; [congruence | simpl in Hlen; lia]. }
    rewrite hexToUint8Array_valid by exact Hv.
    rewrite hex_trim by exact Hhex.
    unfold Spec.zeroPad. rewrite Hlen.
    replace (Nat.even (2 * length b)) with true
      by (symmetry; apply Nat.even_spec; now exists (length b)).
    now rewrite decodePairs_uint8ArrayToHex.
  - intros h Hne Hal Hev.
    assert (Hhex : forallb isHexDigit h = true).
    { apply forallb_forall. intros c Hc. now apply isHexDigit_alphabet, Hal. }
    assert (Hv : CryptoUtils.isValidHex h = true).
    { unfold CryptoUtils.isValidHex. rewrite hex_trim by exact Hhex.
      destruct h; [congruence | exact Hhex]. }
    exists (Spec.decodePairs h). split.
    + rewrite hexToUint8Array_valid by exact Hv.
      rewrite hex_trim by exact Hhex. unfold Spec.zeroPad. now rewrite Hev.
    + apply Nat.even_spec in Hev. destruct Hev as [n Hn].
      now apply (uint8ArrayToHex_decodePairs n).
Qed.

Lemma hex_roundtrip_witness :
  CryptoUtils.hexToUint8Array (CryptoUtils.uint8ArrayToHex [x00; x9f; xff])
  = Ok [x00; x9f; xff]
  /\ exists bytes,
       CryptoUtils.hexToUint8Array (js "00aB9Fff") = Ok bytes
       /\ CryptoUtils.uint8ArrayToHex bytes = toLowerCase (js "00aB9Fff").
Proof.
  split.
  - apply (proj1 hex_roundtrip [x00; x9f; xff]). discriminate.
  - apply (proj2 hex_roundtrip (js "00aB9Fff")).
    + discriminate.
    + intros c Hc. vm_compute in Hc. vm_compute.
      repeat (destruct Hc as [<- | Hc]; [tauto |]). contradiction.
    + reflexivity.
Defined.

(** C1, as stated, fails on the empty byte array: it is printed as the
    empty string, which [hexToUint8Array] rejects. *)
Lemma hex_roundtrip_empty_array :
  CryptoUtils.uint8ArrayToHex [] = js ""
  /\ CryptoUtils.hexToUint8Array (CryptoUtils.uint8ArrayToHex [])
     = Throw (Error (js "String hexadecimal inválida"))
  /\ CryptoUtils.hexToUint8Array (CryptoUtils.uint8ArrayToHex []) <> Ok [].
Proof. repeat split. discriminate. Qed.

(** C4 (amended).  [isValidHex hex] is true if and only if the trimmed
    string is not empty and every character of it is in the hex alphabet;
    for the empty string it is false. *)
Theorem isValidHex_spec :
  (forall hex : jsstring,
      CryptoUtils.isValidHex hex = true
      <-> trim hex <> [] /\ forall c, In c (trim hex) -> In c Spec.hexAlphabet)
  /\ CryptoUtils.isValidHex (js "") = false.
Proof.
  split; [| reflexivity].
  intros hex. unfold CryptoUtils.isValidHex, CryptoUtils.hexRegex_test.
  destruct (trim hex) as [|c r] eqn:E.
  - split; [discriminate | intros [H _]; congruence].
  - rewrite forallb_forall. split.
    + intros H. split; [discriminate |]. intros x Hx.
      now apply isHexDigit_alphabet, H.
    + intros [_ H] x Hx. now apply isHexDigit_alphabet, H.
Qed.

(** C4, as stated, fails on the empty string: all of its characters are in
    the hex alphabet, and [isValidHex] returns false. *)
Lemma isValidHex_empty_string :
  (forall c, In c (trim (js "")) -> In c Spec.hexAlphabet)
  /\ CryptoUtils.isValidHex (js "") = false.
Proof. split; [intros c [] | reflexivity]. Qed.

(** The static [isValidHex] of the main script does not trim, accepts the
    empty string and wants an even number of digits. *)
Lemma legacy_isValidHex_spec (hex : jsstring) :
  Legacy.isValidHex hex = true
  <-> (forall c, In c hex -> In c Spec.hexAlphabet) /\ Nat.even (length hex) = true.
Proof.
  unfold Legacy.isValidHex.
  rewrite andb_true_iff, forallb_forall, mod2_even.
  split; intros [H1 H2]; (split; [| exact H2]);
    intros c Hc; now apply isHexDigit_alphabet, H1.
Qed.

(** C10.  [hexToUint8Array] trims before it validates: on every string it
    returns what it returns on the trimmed string, and when the trimmed
    string is valid hex it succeeds with the bytes of the trimmed string,
    a zero put before an odd number of digits. *)
Theorem hexToUint8Array_trims (s : jsstring) :
  CryptoUtils.hexToUint8Array s = CryptoUtils.hexToUint8Array (trim s)
  /\ (CryptoUtils.isValidHex (trim s) = true ->
      CryptoUtils.hexToUint8Array s
      = Ok (Spec.decodePairs (Spec.zeroPad (trim s)))).
Proof.
  split.
  - unfold CryptoUtils.hexToUint8Array. now rewrite trim_idem.
  - rewrite isValidHex_trim. apply hexToUint8Array_valid.
Qed.

Lemma hexToUint8Array_trims_witness :
  isHexDigit 32 = false
  /\ CryptoUtils.hexToUint8Array (js " 1aB ") = CryptoUtils.hexToUint8Array (js "1aB")
  /\ CryptoUtils.hexToUint8Array (js " 1aB ") = Ok [x01; xab].
Proof.
  split; [reflexivity |]. split.
  - exact (proj1 (hexToUint8Array_trims (js " 1aB "))).
  - exact (proj2 (hexToUint8Array_trims (js " 1aB ")) eq_refl).
Defined.

(* ================================================================== *)
(** ** The parameter validator *)
(* ================================================================== *)

Section ValidatorFacts.

Import AESCrypto.

Lemma isValidKeySize_length (keyHex : jsstring) :
  CryptoUtils.isValidKeySize keyHex = true
  <-> length keyHex = 32 \/ length keyHex = 48 \/ length keyHex = 64.
Proof.
  unfold CryptoUtils.isValidKeySize, CryptoUtils.halfLength.
  rewrite !orb_true_iff, !Qeq_bool_iff. unfold Qeq, inject_Z. simpl. lia.
Qed.

Lemma isValidIVSize_length (ivHex : jsstring) (expectedLength : Z) :
  CryptoUtils.isValidIVSize ivHex expectedLength = true
  <-> Z.of_nat (length ivHex) = (2 * expectedLength)%Z.
Proof.
  unfold CryptoUtils.isValidIVSize, CryptoUtils.halfLength.
  rewrite Qeq_bool_iff. unfold Qeq, inject_Z. simpl. lia.
Qed.

Lemma validateParameters_Ok (config : AESConfig) (keyHex ivHex : jsstring)
    (operation : CryptoOperation) :
  validateParameters config keyHex ivHex operation = Ok tt
  <-> keyHex <> [] /\ ivHex <> []
      /\ CryptoUtils.isValidHex keyHex = true
      /\ CryptoUtils.isValidHex ivHex = true
      /\ CryptoUtils.isValidKeySize keyHex = true
      /\ CryptoUtils.isValidIVSize ivHex (ivLength config) = true.
Proof.
  unfold validateParameters.
  destruct keyHex as [|k keyHex]; [simpl; split; [discriminate | tauto] |].
  destruct ivHex as [|i ivHex]; [simpl; split; [discriminate | tauto] |].
  cbn [isEmpty orb].
  destruct (CryptoUtils.isValidHex (k :: keyHex));
    [| simpl; split; [discriminate | intuition discriminate]].
  destruct (CryptoUtils.isValidHex (i :: ivHex));
    [| simpl; split; [discriminate | intuition discriminate]].
  destruct (CryptoUtils.isValidKeySize (k :: keyHex));
    [| simpl; split; [discriminate | intuition discriminate]].
  destruct (CryptoUtils.isValidIVSize (i :: ivHex) (ivLength config));
    [| simpl; split; [discriminate | intuition discriminate]].
  simpl. split; [| reflexivity]. intros _. repeat split; discriminate.
Qed.

(** The operation only chooses the wording of the first message. *)
Lemma validateParameters_Ok_operation (config : AESConfig) (keyHex ivHex : jsstring)
    (op1 op2 : CryptoOperation) :
  validateParameters config keyHex ivHex op1 = Ok tt ->
  validateParameters config keyHex ivHex op2 = Ok tt.
Proof. rewrite !validateParameters_Ok. trivial. Qed.

Lemma InvalidIVSize_not_InvalidKeySize (config : AESConfig) :
  InvalidIVSize config <> InvalidKeySize.
Proof. unfold InvalidIVSize, InvalidKeySize. intros H. inversion H. Qed.

Lemma decodePairs_length (n : nat) :
  forall s, length s <= n ->
            length (Spec.decodePairs s) = length s / 2.
Proof.
  induction n as [|n IH]; intros s Hs.
  - destruct s as [|a [|b r]]; simpl in *; try reflexivity; lia.
  - destruct s as [|a [|b r]]; try reflexivity.
    cbn [Spec.decodePairs length].
    rewrite IH by (simpl in Hs; lia).
    change (S (S (length r))) with (1 * 2 + length r).
    rewrite Nat.add_comm, Nat.div_add by lia. lia.
Qed.

(** On a key written with hex digits only, and an IV that passes the
    checks made before the size of the key is looked at: the key-size
    error is raised exactly when the key is not 32, 48 or 64 digits long,
    and in particular whenever the key does not decode to 16, 24 or 32
    bytes. *)
Lemma validateParameters_hex_key (config : AESConfig) (keyHex ivHex : jsstring)
    (operation : CryptoOperation) :
  keyHex <> [] -> forallb isHexDigit keyHex = true ->
  ivHex <> [] -> CryptoUtils.isValidHex ivHex = true ->
  (validateParameters config keyHex ivHex operation = Throw InvalidKeySize
   <-> ~ (length keyHex = 32 \/ length keyHex = 48 \/ length keyHex = 64))
  /\ (forall keyData,
        CryptoUtils.hexToUint8Array keyHex = Ok keyData ->
        ~ (length keyData = 16 \/ length keyData = 24 \/ length keyData = 32) ->
        validateParameters config keyHex ivHex operation = Throw InvalidKeySize).
Proof.
  intros Hk Hhex Hi Hiv.
  assert (Hkv : CryptoUtils.isValidHex keyHex = true).
  { unfold CryptoUtils.isValidHex. rewrite hex_trim by exact Hhex.
    destruct keyHex; [congruence | exact Hhex]. }
  assert (Hiff : validateParameters config keyHex ivHex operation = Throw InvalidKeySize
                 <-> ~ (length keyHex = 32 \/ length keyHex = 48 \/ length keyHex = 64)).
  { unfold validateParameters.
    destruct keyHex as [|k keyHex]; [congruence |].
    destruct ivHex as [|i ivHex]; [congruence |].
    cbn [isEmpty orb]. rewrite Hkv, Hiv. cbn [negb].
    rewrite <- isValidKeySize_length.
    destruct (CryptoUtils.isValidKeySize (k :: keyHex)); cbn [negb].
    - split; [| intros H; exfalso; now apply H].
      destruct (CryptoUtils.isValidIVSize _ _); cbn [negb]; intros H.
      + discriminate.
      + exfalso. apply (InvalidIVSize_not_InvalidKeySize config). congruence.
    - split; [intros _ H; discriminate | reflexivity]. }
  split; [exact Hiff |].
  intros keyData Hd Hlen. apply Hiff. intros Hl. apply Hlen.
  rewrite hexToUint8Array_valid in Hd by exact Hkv. inversion Hd; subst keyData.
  rewrite hex_trim by exact Hhex.
  assert (He : Nat.even (length keyHex) = true).
  { destruct Hl as [-> | [-> | ->]]; reflexivity. }
  unfold Spec.zeroPad. rewrite He.
  rewrite (decodePairs_length (length keyHex)) by lia.
  destruct Hl as [-> | [-> | ->]]; simpl; auto.
Qed.

End ValidatorFacts.

(** C2.  The code at the failing input: a key of 30 hex digits between two
    spaces is valid hex, decodes to 15 bytes, and passes the validation
    (with the default configuration and an IV of 32 digits), because
    [isValidKeySize] measures the string before it is trimmed. *)
Theorem validateParameters_padded_key :
  let keyHex := js " 000000000000000000000000000000 " in
  let ivHex := js "00000000000000000000000000000000" in
  CryptoUtils.isValidHex keyHex = true
  /\ CryptoUtils.hexToUint8Array keyHex = Ok (replicate 15 x00)
  /\ CryptoUtils.isValidKeySize keyHex = true
  /\ AESCrypto.validateParameters AESCrypto.defaultConfig keyHex ivHex
       AESCrypto.OpEncrypt = Ok tt.
Proof. repeat split. Qed.

(* ================================================================== *)
(** ** The cipher adapter *)
(* ================================================================== *)

Section CipherFacts.

Import AESCrypto.

Variable P : Platform.

Lemma includes_app_r (p m : jsstring) : includes (p ++ m) m = true.
Proof.
  assert (Hp : forall m : jsstring, isPrefixOf m m = true).
  { induction m0 as [|c r IH]; [reflexivity | simpl; now rewrite N.eqb_refl]. }
  induction p as [|c p IH]; simpl.
  - destruct m; simpl; [reflexivity |]. now rewrite N.eqb_refl, Hp.
  - rewrite IH. apply orb_true_r.
Qed.

(** Parameters that pass the validation decode. *)
Lemma validateParameters_decodes (config : AESConfig) (keyHex ivHex : jsstring)
    (operation : CryptoOperation) :
  validateParameters config keyHex ivHex operation = Ok tt ->
  CryptoUtils.hexToUint8Array keyHex
  = Ok (Spec.decodePairs (Spec.zeroPad (trim keyHex)))
  /\ CryptoUtils.hexToUint8Array ivHex
     = Ok (Spec.decodePairs (Spec.zeroPad (trim ivHex))).
Proof.
  rewrite validateParameters_Ok. intros (_ & _ & Hk & Hi & _).
  split; now apply hexToUint8Array_valid.
Qed.

(** C5.  For every key and IV that pass the parameter validation,
    [encrypt] on the empty plaintext throws the empty-payload error (in
    the wrapping of [encrypt]) and the call log is left as it was: neither
    the key import nor the encrypt primitive of the platform is called. *)
Theorem encrypt_empty_plaintext (config : AESConfig) (keyHex ivHex : jsstring)
    (log : list PlatformCall) :
  validateParameters config keyHex ivHex OpEncrypt = Ok tt ->
  encrypt P config (js "") keyHex ivHex log
  = (Throw (Error (js "Erro na encriptação: Texto para encriptação não pode estar vazio.")),
     log).
Proof.
  intros Hv.
  assert (E : encryptCatch EmptyPlaintext
              = Error (js "Erro na encriptação: Texto para encriptação não pode estar vazio."))
    by (vm_compute; reflexivity).
  rewrite <- E. unfold encrypt, tryCatch, bind, lift. rewrite Hv. reflexivity.
Qed.

(** C3 (amended).  For every error [e] raised by the platform (by the key
    import or by the cipher primitive) during [encrypt] or [decrypt], the
    adapter catches it and throws an [Error] whose message is the fixed
    prefix of the operation followed by the message of [e] when [e] is an
    [Error], and the fixed text of the operation when it is not. *)
Theorem platform_errors_rewrapped (config : AESConfig) (keyHex ivHex : jsstring)
    (e : exn) :
  validateParameters config keyHex ivHex OpEncrypt = Ok tt ->
  (forall plainText log,
      plainText <> [] ->
      encryptRaises P config plainText keyHex ivHex e ->
      fst (encrypt P config plainText keyHex ivHex log)
      = Throw (match e with
               | Error message => Error (js "Erro na encriptação: " ++ message)
               | NonError => Error (js "Erro desconhecido na encriptação")
               end))
  /\ (forall encryptedHex log,
         CryptoUtils.isValidHex encryptedHex = true ->
         decryptRaises P config encryptedHex keyHex ivHex e ->
         fst (decrypt P config encryptedHex keyHex ivHex log)
         = Throw (match e with
                  | Error message => Error (js "Erro na decriptação: " ++ message)
                  | NonError => Error (js "Erro desconhecido na decriptação")
                  end)).
Proof.
  intros Hv. split.
  - intros plainText log Hne (keyData & ivData & Hk & Hi & Hraise).
    unfold encrypt, tryCatch, bind, lift, createCryptoKey, platform.
    rewrite Hv, Hk, Hi.
    destruct plainText as [|c r]; [congruence |]. cbn [isEmpty ret].
    destruct Hraise as [Himp | (cryptoKey & Himp & Henc)].
    + rewrite Himp. reflexivity.
    + rewrite Himp, Henc. reflexivity.
  - intros encryptedHex log Hhex (keyData & ivData & encryptedData & Hk & Hi & Hd & Hraise).
    unfold decrypt, tryCatch, bind, lift, createCryptoKey, platform.
    rewrite (validateParameters_Ok_operation _ _ _ _ OpDecrypt Hv), Hk, Hi, Hd, Hhex.
    assert (Hne : isEmpty encryptedHex = false).
    { destruct encryptedHex; [discriminate Hhex | reflexivity]. }
    rewrite Hne. cbn [negb ret].
    destruct Hraise as [Himp | (cryptoKey & Himp & Hdec)].
    + rewrite Himp. reflexivity.
    + rewrite Himp, Hdec. reflexivity.
Qed.

End CipherFacts.

Lemma encrypt_empty_plaintext_witness :
  AESCrypto.validateParameters AESCrypto.defaultConfig
    Scenario.zeros32 Scenario.zeros32 AESCrypto.OpEncrypt = Ok tt
  /\ AESCrypto.encrypt Scenario.echoPlatform AESCrypto.defaultConfig (js "")
       Scenario.zeros32 Scenario.zeros32 []
     = (Throw (Error (js "Erro na encriptação: Texto para encriptação não pode estar vazio.")),
        []).
Proof.
  split; [reflexivity |].
  apply (encrypt_empty_plaintext Scenario.echoPlatform). reflexivity.
Defined.

Lemma platform_errors_rewrapped_witness :
  fst (AESCrypto.encrypt Scenario.rejectingPlatform AESCrypto.defaultConfig
         (js "hello") Scenario.zeros32 Scenario.zeros32 [])
  = Throw (Error (js "Erro na encriptação: " ++ Scenario.operationError))
  /\ fst (AESCrypto.decrypt Scenario.rejectingPlatform AESCrypto.defaultConfig
            Scenario.zeros32 Scenario.zeros32 Scenario.zeros32 [])
     = Throw (Error (js "Erro na decriptação: " ++ Scenario.operationError)).
Proof.
  pose proof (platform_errors_rewrapped Scenario.rejectingPlatform
                AESCrypto.defaultConfig Scenario.zeros32 Scenario.zeros32
                (Error Scenario.operationError) eq_refl) as [Henc Hdec].
  split.
  - apply Henc; [discriminate |].
    exists (replicate 16 x00), (replicate 16 x00).
    repeat split. right. exists (replicate 16 x00). split; reflexivity.
  - apply Hdec; [reflexivity |].
    exists (replicate 16 x00), (replicate 16 x00), (replicate 16 x00).
    repeat split. right. exists (replicate 16 x00). split; reflexivity.
Defined.

(** C3, as stated, fails: when the platform rejects a decryption, the
    message of the error that [decrypt] throws contains the message of the
    platform's error. *)
Lemma decrypt_exposes_platform_message :
  AESCrypto.subtle_decrypt Scenario.rejectingPlatform AESCrypto.AES_CBC
    (replicate 16 x00) (replicate 16 x00) (replicate 16 x00)
  = Throw (Error Scenario.operationError)
  /\ fst (AESCrypto.decrypt Scenario.rejectingPlatform AESCrypto.defaultConfig
            Scenario.zeros32 Scenario.zeros32 Scenario.zeros32 [])
     = Throw (Error (js "Erro na decriptação: The operation failed for an operation-specific reason"))
  /\ includes
       (js "Erro na decriptação: The operation failed for an operation-specific reason")
       Scenario.operationError = true.
Proof. split; [| split]; vm_compute; reflexivity. Qed.

(* ================================================================== *)
(** ** Numbers written in decimal *)
(* ================================================================== *)

Section NumberFacts.

Lemma codes_inj (s1 s2 : string) : codes s1 = codes s2 -> s1 = s2.
Proof.
  unfold codes. intros H.
  apply (f_equal (map ascii_of_N)) in H. rewrite !map_map in H.
  rewrite !(map_ext _ (fun a => a) ascii_N_embedding), !map_id in H.
  apply (f_equal string_of_list_ascii) in H.
  now rewrite !string_of_list_ascii_of_string in H.
Qed.

Lemma toString10_inj (n1 n2 : N) : toString10 n1 = toString10 n2 -> n1 = n2.
Proof.
  unfold toString10. intros H. apply codes_inj in H.
  apply (f_equal DecimalString.NilEmpty.uint_of_string) in H.
  rewrite !DecimalString.NilEmpty.usu in H. inversion H as [H'].
  now apply DecimalN.Unsigned.to_uint_inj.
Qed.

Lemma string_of_uint_digits (d : Decimal.uint) :
  forallb isDecDigit (codes (DecimalString.NilEmpty.string_of_uint d)) = true.
Proof. induction d; simpl; auto. Qed.

Lemma toString10_digits (n : N) : forallb isDecDigit (toString10 n) = true.
Proof. apply string_of_uint_digits. Qed.

Lemma toString10_nonempty (n : N) : toString10 n <> [].
Proof.
  unfold toString10. destruct n as [|p]; [discriminate |].
  pose proof (DecimalPos.Unsigned.to_uint_nonnil p) as Hp.
  change (N.to_uint (N.pos p)) with (Pos.to_uint p).
  destruct (Pos.to_uint p); [congruence | discriminate ..].
Qed.

(** Two runs of digits that are followed by the same separator. *)
Lemma digits_sep_inj (sep : N) (d1 : jsstring) :
  isDecDigit sep = false ->
  forall d2 r1 r2,
    forallb isDecDigit d1 = true -> forallb isDecDigit d2 = true ->
    d1 ++ sep :: r1 = d2 ++ sep :: r2 -> d1 = d2.
Proof.
  intros Hsep. induction d1 as [|c d1 IH]; intros [|c2 d2] r1 r2 H1 H2 E;
    simpl in *.
  - reflexivity.
  - inversion E; subst. apply andb_true_iff in H2 as [H2 _]. congruence.
  - inversion E; subst. apply andb_true_iff in H1 as [H1 _]. congruence.
  - inversion E; subst. apply andb_true_iff in H1 as [_ H1].
    apply andb_true_iff in H2 as [_ H2]. f_equal. eapply IH; eauto.
Qed.

Lemma numberToString_sep_inj (sep : N) (z1 z2 : Z) (r1 r2 : jsstring) :
  isDecDigit sep = false ->
  numberToString z1 ++ sep :: r1 = numberToString z2 ++ sep :: r2 ->
  z1 = z2.
Proof.
  intros Hsep E.
  assert (Hnn : forall (n1 n2 : N) (r1 r2 : jsstring),
             toString10 n1 ++ sep :: r1 = toString10 n2 ++ sep :: r2 -> n1 = n2).
  { intros n1 n2 q1 q2 H. apply toString10_inj.
    eapply (digits_sep_inj sep); eauto using toString10_digits. }
  assert (Hmix : forall (n1 n2 : N) (r1 r2 : jsstring),
             toString10 n1 ++ sep :: r1 <> 45%N :: toString10 n2 ++ sep :: r2).
  { intros n1 n2 q1 q2 H. pose proof (toString10_digits n1) as Hd.
    pose proof (toString10_nonempty n1) as Hne.
    destruct (toString10 n1) as [|c r]; [congruence |].
    simpl in H, Hd. inversion H; subst. discriminate Hd. }
  destruct z1 as [|p1|p1], z2 as [|p2|p2]; cbn [numberToString] in E;
    try reflexivity;
    try (apply Hnn in E; simpl in E; congruence);
    try (exfalso; apply Hmix in E; exact E);
    try (exfalso; symmetry in E; apply Hmix in E; exact E).
  simpl in E. inversion E as [E']. apply Hnn in E'. congruence.
Qed.

(** The ids [prefix + counter + separator + timestamp] tell the counters
    apart. *)
Lemma messageId_counter_inj (prefix : jsstring) (sep : N) (c1 c2 t1 t2 : Z) :
  isDecDigit sep = false ->
  prefix ++ numberToString c1 ++ sep :: numberToString t1
  = prefix ++ numberToString c2 ++ sep :: numberToString t2 ->
  c1 = c2.
Proof.
  intros Hsep E. apply app_inv_head in E.
  now apply (numberToString_sep_inj sep) in E.
Qed.

End NumberFacts.

(* ================================================================== *)
(** ** The page *)
(* ================================================================== *)

Section DomFacts.

Context {Cb : Type}.
Implicit Types (s : Dom.State Cb) (h : gmap node Element) (n : node).

Lemma find_none_intro {A} (f : A -> bool) (l : list A) :
  (forall x, In x l -> f x = false) -> find f l = None.
Proof.
  induction l as [|a l IH]; intros H; simpl; [reflexivity |].
  rewrite (H a) by now left. apply IH. intros x Hx. apply H. now right.
Qed.

Lemma find_ext_in {A} (f g : A -> bool) (l : list A) :
  (forall x, In x l -> f x = g x) -> find f l = find g l.
Proof.
  induction l as [|a l IH]; intros H; simpl; [reflexivity |].
  rewrite (H a) by now left. destruct (g a); [reflexivity |].
  apply IH. intros x Hx. apply H. now right.
Qed.

Lemma filter_singleton_find {A} (f : A -> bool) (l : list A) (x : A) :
  List.filter f l = [x] -> find f l = Some x.
Proof.
  induction l as [|a l IH]; simpl; [discriminate |].
  destruct (f a); [congruence | exact IH].
Qed.

Lemma filter_singleton_unique {A} (f : A -> bool) (l : list A) (x y : A) :
  List.filter f l = [x] -> In y l -> f y = true -> y = x.
Proof.
  intros Hf Hy Hfy.
  assert (Hin : In y (List.filter f l)) by (apply filter_In; now split).
  rewrite Hf in Hin. destruct Hin as [-> | []]. reflexivity.
Qed.

(** An assignment that leaves the id alone does not change what
    [getElementById] finds. *)
Lemma hasId_alter (f : Element -> Element) h (m n : node) (i : jsstring) :
  (forall e, el_id (f e) = el_id e) ->
  hasId (alter f m h) i n = hasId h i n.
Proof.
  intros Hf. unfold hasId. destruct (decide (m = n)) as [-> | Hne].
  - rewrite lookup_alter_eq. destruct (h !! n); simpl; [now rewrite Hf | reflexivity].
  - now rewrite lookup_alter_ne.
Qed.

Lemma hasId_alter_ne (f : Element -> Element) h (m n : node) (i : jsstring) :
  m <> n -> hasId (alter f m h) i n = hasId h i n.
Proof. intros Hne. unfold hasId. now rewrite lookup_alter_ne. Qed.

Lemma getElementById_update (f : Element -> Element) s (m : node) (i : jsstring) :
  (forall e, el_id (f e) = el_id e) ->
  getElementById (update m f s) i = getElementById s i.
Proof.
  intros Hf. unfold getElementById, findById. cbn [update set_heap heap order].
  apply find_ext_in. intros x _. now apply hasId_alter.
Qed.

Lemma parentOf_update (f : Element -> Element) s (m : node) :
  (forall e, parentNode (f e) = parentNode e) ->
  parentOf (update m f s) m = parentOf s m.
Proof.
  intros Hf. unfold parentOf. cbn [update set_heap heap].
  rewrite lookup_alter_eq. destruct (heap s !! m); simpl; [apply Hf | reflexivity].
Qed.

Lemma inSubtree_root h (n : node) : inSubtree h n n = true.
Proof. unfold inSubtree. now rewrite bool_decide_eq_true_2. Qed.

(** A node that is marked (its id and parent left alone) and then detached
    by the closure of the fade-out timer: the closure does not throw, and
    afterwards no attached element has the id, if it was the only one. *)
Lemma detach_marked (f : Element -> Element) s (i : jsstring) (el parent : node) :
  (forall e, el_id (f e) = el_id e) ->
  (forall e, parentNode (f e) = parentNode e) ->
  List.filter (hasId (heap s) i) (order s) = [el] ->
  parentOf s el = Some parent ->
  exists s2,
    match parentOf (update el f s) el with
    | Some p => removeChild p el (update el f s)
    | None => Ok (update el f s)
    end = Ok s2
    /\ getElementById s2 i = None
    /\ elements s2 = elements s /\ messageConfig s2 = messageConfig s
    /\ messageCounter s2 = messageCounter s /\ timers s2 = timers s.
Proof.
  intros Hid Hpar Huniq Hp.
  rewrite parentOf_update by exact Hpar. rewrite Hp.
  unfold removeChild. cbn [update set_heap heap].
  rewrite lookup_alter_eq.
  unfold parentOf in Hp. destruct (heap s !! el) as [e|] eqn:He; [| discriminate].
  cbn [fmap option_fmap option_map]. rewrite Hpar, Hp.
  rewrite bool_decide_eq_true_2 by reflexivity.
  eexists. split; [reflexivity |]. split; [| repeat split].
  unfold getElementById, findById. cbn [update set_heap set_order heap order].
  apply find_none_intro. intros x Hx.
  apply list_elem_of_In, list_elem_of_filter in Hx. destruct Hx as [Hsub Hx].
  apply list_elem_of_In in Hx.
  assert (Hne : x <> el).
  { intros ->. now rewrite inSubtree_root in Hsub. }
  rewrite !hasId_alter_ne by congruence.
  destruct (hasId (heap s) i x) eqn:Hh; [| reflexivity].
  exfalso. apply Hne. eapply filter_singleton_unique; eauto.
Qed.

Lemma filter_nil_intro {A} (f : A -> bool) (l : list A) :
  (forall x, In x l -> f x = false) -> List.filter f l = [].
Proof.
  induction l as [|a l IH]; intros H; simpl; [reflexivity |].
  rewrite (H a) by now left. apply IH. intros x Hx. apply H. now right.
Qed.

Lemma filter_nil_elim {A} (f : A -> bool) (l : list A) (x : A) :
  List.filter f l = [] -> In x l -> f x = false.
Proof.
  intros Hf Hx. destruct (f x) eqn:E; [| reflexivity].
  assert (Hin : In x (List.filter f l)) by (apply filter_In; now split).
  rewrite Hf in Hin. destruct Hin.
Qed.

Lemma filter_one {A} (f : A -> bool) (l1 l2 : list A) (c : A) :
  f c = true -> (forall x, In x (l1 ++ l2) -> f x = false) ->
  List.filter f (l1 ++ c :: l2) = [c].
Proof.
  intros Hc Hl. rewrite List.filter_app. simpl. rewrite Hc.
  rewrite !filter_nil_intro; [reflexivity | |];
    intros x Hx; apply Hl, in_or_app; auto.
Qed.

(** [appendChild] puts the child at one place of the document order. *)
Lemma skipSubtree_split h (p c : node) (r : list node) :
  exists r1 r2, r = r1 ++ r2 /\ skipSubtree h p c r = r1 ++ c :: r2.
Proof.
  induction r as [|n r (r1 & r2 & Hr & IH)]; simpl.
  - exists [], []. split; reflexivity.
  - destruct (inSubtree h p n).
    + exists (n :: r1), r2. simpl. rewrite IH. split; congruence.
    + exists [], (n :: r). split; reflexivity.
Qed.

Lemma insertLastChild_split h (p c : node) (l : list node) :
  In p l ->
  exists l1 l2, l = l1 ++ l2 /\ insertLastChild h p c l = l1 ++ c :: l2.
Proof.
  induction l as [|a l IH]; intros Hin; [destruct Hin |]. simpl.
  case_bool_decide as Ha.
  - destruct (skipSubtree_split h p c l) as (r1 & r2 & Hr & E).
    exists (a :: r1), r2. simpl. rewrite E. split; congruence.
  - destruct Hin as [-> | Hin]; [congruence |].
    destruct (IH Hin) as (l1 & l2 & Hl & E).
    exists (a :: l1), l2. simpl. rewrite E. split; congruence.
Qed.

(** A node that [createElement] returns is not in the document, when every
    attached node is in the heap. *)
Lemma fresh_not_attached s (x : node) :
  (forall y, In y (order s) -> is_Some (heap s !! y)) ->
  In x (order s) -> x <> fresh (dom (heap s)).
Proof.
  intros Hdom Hx ->. apply Hdom, elem_of_dom in Hx.
  exact (is_fresh (dom (heap s)) Hx).
Qed.

Lemma alter_idem (f : Element -> Element) h (n : node) :
  (forall e, f (f e) = f e) -> alter f n (alter f n h) = alter f n h.
Proof.
  intros Hf. apply map_eq. intros m. destruct (decide (n = m)) as [-> | Hne].
  - rewrite !lookup_alter_eq. destruct (h !! m); simpl; [now rewrite Hf | reflexivity].
  - now rewrite !lookup_alter_ne.
Qed.

Lemma classList_add_id (c : jsstring) (e : Element) :
  el_id (classList_add c e) = el_id e.
Proof. unfold classList_add. now case_bool_decide. Qed.

Lemma classList_add_parentNode (c : jsstring) (e : Element) :
  parentNode (classList_add c e) = parentNode e.
Proof. unfold classList_add. now case_bool_decide. Qed.

Lemma sameManager_refl s : Spec.sameManager s s.
Proof. repeat split. Qed.

Lemma sameManager_trans (s1 s2 s3 : Dom.State Cb) :
  Spec.sameManager s1 s2 -> Spec.sameManager s2 s3 -> Spec.sameManager s1 s3.
Proof. unfold Spec.sameManager. intuition congruence. Qed.

Lemma removeChild_sameManager (parent child : node) s s' :
  removeChild parent child s = Ok s' -> Spec.sameManager s s'.
Proof.
  unfold removeChild. destruct (heap s !! child); [| discriminate].
  case_bool_decide; [| discriminate]. intros E; inversion E. repeat split.
Qed.

Section Session.

Context {Ev : Type}.
Variable step : Ev -> Dom.State Cb -> option jsstring * Dom.State Cb.
Variables (prefix : jsstring) (sep : N).
Hypothesis sep_not_digit : isDecDigit sep = false.

(** A step never lowers the counter; a call of [addMessage] adds one to it
    and returns the id made of the new counter. *)
Hypothesis step_counter :
  forall ev s,
    match fst (step ev s) with
    | Some i =>
        messageCounter (snd (step ev s)) = (messageCounter s + 1)%Z
        /\ exists t, i = Spec.messageId prefix sep (messageCounter s + 1) t
    | None => messageCounter (snd (step ev s)) = messageCounter s
    end.

Lemma session_cons (ev : Ev) (evs : list Ev) s :
  session step (ev :: evs) s
  = (match fst (step ev s) with
     | Some i => i :: fst (session step evs (snd (step ev s)))
     | None => fst (session step evs (snd (step ev s)))
     end,
     snd (session step evs (snd (step ev s)))).
Proof.
  cbn [session]. destruct (step ev s) as [r s']. cbn [fst snd].
  destruct (session step evs s') as [ids s'']. reflexivity.
Qed.

(** Every id returned during a session carries a counter above the
    counter the session started with. *)
Lemma session_ids_above (evs : list Ev) :
  forall s i,
    In i (fst (session step evs s)) ->
    exists c t, (messageCounter s < c)%Z /\ i = Spec.messageId prefix sep c t.
Proof.
  induction evs as [|ev evs IH]; intros s i Hi; [destruct Hi |].
  rewrite session_cons in Hi. cbn [fst] in Hi.
  pose proof (step_counter ev s) as Hstep.
  destruct (fst (step ev s)) as [i0|].
  - destruct Hstep as [Hc [t Ht]]. destruct Hi as [<- | Hi].
    + exists (messageCounter s + 1)%Z, t. split; [lia | exact Ht].
    + apply IH in Hi. destruct Hi as (c & t' & Hlt & ->).
      exists c, t'. split; [lia | reflexivity].
  - apply IH in Hi. destruct Hi as (c & t' & Hlt & ->).
    exists c, t'. split; [lia | reflexivity].
Qed.

Lemma session_ids_NoDup (evs : list Ev) :
  forall s, NoDup (fst (session step evs s)).
Proof.
  induction evs as [|ev evs IH]; intros s; [constructor |].
  rewrite session_cons. cbn [fst].
  pose proof (step_counter ev s) as Hstep.
  destruct (fst (step ev s)) as [i0|]; [| apply IH].
  destruct Hstep as [Hc [t Ht]]. constructor; [| apply IH].
  rewrite list_elem_of_In. intros Hin. apply session_ids_above in Hin.
  destruct Hin as (c & t' & Hlt & Hi). rewrite Ht in Hi.
  apply messageId_counter_inj in Hi; [lia | exact sep_not_digit].
Qed.

End Session.

End DomFacts.


(* ================================================================== *)
(** ** The message queue of the modular manager *)
(* ================================================================== *)

Section UIManagerFacts.

Import UIManager.

Variable inputListeners : Element -> Element.

Implicit Types (s : UIManager.State).

Lemma addMessage_id (message : jsstring) (type : MessageType) (now : Z) s :
  fst (addMessage message type now s)
  = Spec.messageId (js "msg-") 45 (messageCounter s + 1) now.
Proof. reflexivity. Qed.

Lemma addMessage_counter (message : jsstring) (type : MessageType) (now : Z) s :
  messageCounter (snd (addMessage message type now s)) = (messageCounter s + 1)%Z.
Proof. reflexivity. Qed.

Lemma addMessage_timers (message : jsstring) (type : MessageType) (now : Z) s :
  timers (snd (addMessage message type now s))
  = timers s
    ++ [ mkTimer 10 (ShowMessage (fresh (dom (heap s))));
         mkTimer (calculateMessageDuration (messageConfig s) message)
                 (AutoRemove (fst (addMessage message type now s))) ].
Proof. unfold addMessage. cbn. now rewrite <- app_assoc. Qed.

Lemma removeMessage_sameManager (messageId : jsstring) s :
  Spec.sameManager s (removeMessage messageId s).
Proof.
  unfold removeMessage. destruct (getElementById s messageId); repeat split.
Qed.

Lemma updateOutputValue_sameManager s (entry : jsstring * option jsstring) :
  Spec.sameManager s (updateOutputValue inputListeners s entry).
Proof.
  destruct entry as [key [value|]]; [| repeat split].
  unfold updateOutputValue.
  repeat (case_bool_decide; [repeat split |]).
  destruct (getElementById s key) as [element |]; [| repeat split].
  destruct (bool_decide _ || bool_decide _); repeat split.
Qed.

Lemma updateOutputValues_sameManager (values : list (jsstring * option jsstring)) s :
  Spec.sameManager s (updateOutputValues inputListeners values s).
Proof.
  unfold updateOutputValues. revert s.
  induction values as [|entry values IH]; intros s; [apply sameManager_refl |].
  simpl. eapply sameManager_trans; [apply updateOutputValue_sameManager | apply IH].
Qed.

Lemma fireTimer_sameManager (k : nat) s s' :
  fireTimer k s = Ok s' -> Spec.sameManager s s'.
Proof.
  unfold fireTimer. destruct (timers s !! k) as [[d cb]|];
    [| intros H; inversion H; apply sameManager_refl].
  cbn [callback]. destruct cb as [el | i | el]; cbn [runCallback].
  - intros H; inversion H. repeat split.
  - intros H; inversion H.
    eapply sameManager_trans; [| apply removeMessage_sameManager]. repeat split.
  - destruct (parentOf _ el) as [p|]; [| intros H; inversion H; repeat split].
    intros H. apply removeChild_sameManager in H.
    eapply sameManager_trans; [| exact H]. repeat split.
Qed.

(** A step never lowers the counter; a call of [addMessage] adds one to it
    and returns the id made of the new counter. *)
Lemma step_counter (ev : Event) s :
  match fst (step inputListeners ev s) with
  | Some i =>
      messageCounter (snd (step inputListeners ev s)) = (messageCounter s + 1)%Z
      /\ exists t, i = Spec.messageId (js "msg-") 45 (messageCounter s + 1) t
  | None => messageCounter (snd (step inputListeners ev s)) = messageCounter s
  end.
Proof.
  destruct ev as [message type now | i | values | k]; cbn [step].
  - pose proof (addMessage_id message type now s) as Hi.
    pose proof (addMessage_counter message type now s) as Hc.
    destruct (addMessage message type now s) as [i s']. cbn [fst snd] in *.
    split; [exact Hc | exists now; exact Hi].
  - apply removeMessage_sameManager.
  - apply updateOutputValues_sameManager.
  - destruct (fireTimer k s) as [s'|e] eqn:Hf; cbn [fst snd]; [| reflexivity].
    apply fireTimer_sameManager in Hf. apply Hf.
Qed.

(** After [addMessage] on a page where the report element is attached
    and no attached element has the new id yet, the new element is the only
    attached element with the returned id, and it is a child of the report
    element. *)
Lemma modular_addMessage_sole_element (message : jsstring) (type : MessageType)
    (now : Z) s :
  (forall x, In x (order s) -> is_Some (heap s !! x)) ->
  In (report (elements s)) (order s) ->
  List.filter (hasId (heap s) (fst (addMessage message type now s))) (order s) = [] ->
  List.filter (hasId (heap (snd (addMessage message type now s)))
                     (fst (addMessage message type now s)))
              (order (snd (addMessage message type now s)))
  = [fresh (dom (heap s))]
  /\ parentOf (snd (addMessage message type now s)) (fresh (dom (heap s)))
     = Some (report (elements s)).
Proof.
  intros Hdom Hrep Hnone.
  unfold addMessage, createElement, appendChild, setTimeout, update, parentOf in *.
  cbn [fst snd heap order set_heap set_order set_timers set_messageCounter
       elements messageConfig messageCounter timers] in *.
  set (n := fresh (dom (heap s))) in *.
  set (i := js "msg-" ++ _) in *.
  split.
  - match goal with
    | |- context [insertLastChild ?h ?p n (order s)] =>
        destruct (insertLastChild_split h p n (order s) Hrep) as (l1 & l2 & Hl & ->)
    end.
    apply filter_one.
    + unfold hasId. rewrite !lookup_alter_eq, lookup_insert_eq. simpl.
      now rewrite bool_decide_eq_true_2 by reflexivity.
    + intros x Hx. rewrite <- Hl in Hx.
      assert (Hne : n <> x) by (apply not_eq_sym; now apply fresh_not_attached).
      unfold hasId. rewrite !lookup_alter_ne, lookup_insert_ne by exact Hne.
      exact (filter_nil_elim _ _ x Hnone Hx).
  - rewrite !lookup_alter_eq, lookup_insert_eq. reflexivity.
Qed.

(** What the closure of the fade-out timer does when it runs. *)
Lemma modular_fire_detach_attached (k : nat) s (d : Z) (el p : node) (e : Element) :
  timers s !! k = Some (mkTimer d (DetachMessage el)) ->
  heap s !! el = Some e -> parentNode e = Some p ->
  fireTimer k s
  = Ok (mkState (elements s) (messageConfig s) (messageCounter s)
          (alter (set_parentNode None) el (heap s))
          (filter (fun n => inSubtree (heap s) el n = false) (order s))
          (delete k (timers s))).
Proof.
  intros Ht He Hp. unfold fireTimer. rewrite Ht. cbn [callback runCallback].
  unfold parentOf, removeChild. cbn [heap set_timers].
  rewrite He, Hp, bool_decide_eq_true_2 by reflexivity. reflexivity.
Qed.

Lemma modular_fire_detach_detached (k : nat) s (d : Z) (el : node) (e : Element) :
  timers s !! k = Some (mkTimer d (DetachMessage el)) ->
  heap s !! el = Some e -> parentNode e = None ->
  fireTimer k s = Ok (set_timers (delete k (timers s)) s).
Proof.
  intros Ht He Hp. unfold fireTimer. rewrite Ht. cbn [callback runCallback].
  unfold parentOf. cbn [heap set_timers]. now rewrite He, Hp.
Qed.

(** A second [removeMessage] during the fade-out of the first finds the
    element still attached: it schedules one more timer, whose closure
    finds the element detached and does nothing.  Once both timers have
    run the state is the one a single call leads to. *)
Lemma modular_removeMessage_during_fade s (messageId : jsstring)
    (messageElement parent : node) :
  List.filter (hasId (heap s) messageId) (order s) = [messageElement] ->
  parentOf s messageElement = Some parent ->
  let s1 := removeMessage messageId s in
  let s1' := removeMessage messageId s1 in
  timers s1' = timers s1 ++ [mkTimer (fadeTimeout (messageConfig s))
                                     (DetachMessage messageElement)]
  /\ exists s2 s3,
       fireTimer (length (timers s)) s1 = Ok s2
       /\ fireTimer (length (timers s)) s1' = Ok s3
       /\ fireTimer (length (timers s)) s3 = Ok s2.
Proof.
  intros Huniq Hp s1 s1'.
  pose proof (filter_singleton_find _ _ _ Huniq) as Hfind.
  set (f := classList_add (js "fade-out")).
  set (t := mkTimer (fadeTimeout (messageConfig s)) (DetachMessage messageElement)).
  assert (E1 : s1 = mkState (elements s) (messageConfig s) (messageCounter s)
                      (alter f messageElement (heap s)) (order s) (timers s ++ [t])).
  { unfold s1, removeMessage, getElementById, findById. now rewrite Hfind. }
  assert (Hfind1 : getElementById s1 messageId = Some messageElement).
  { rewrite E1. unfold getElementById, findById. cbn [heap order].
    rewrite <- Hfind. apply find_ext_in. intros x _.
    apply hasId_alter, classList_add_id. }
  assert (Hidem : forall e, f (f e) = f e).
  { intros e. unfold f, classList_add at 1. case_bool_decide as Hin; [reflexivity |].
    exfalso. apply Hin. unfold classList_add. case_bool_decide; [assumption |].
    cbn [classList set_classList]. apply elem_of_app. right. now left. }
  assert (E1' : s1' = mkState (elements s) (messageConfig s) (messageCounter s)
                        (alter f messageElement (heap s)) (order s)
                        ((timers s ++ [t]) ++ [t])).
  { unfold s1', removeMessage. rewrite Hfind1, E1.
    unfold setTimeout, update. cbn [heap set_timers set_heap messageConfig timers
                                    elements messageCounter order].
    fold f. now rewrite alter_idem. }
  split; [rewrite E1', E1; reflexivity |].
  unfold parentOf in Hp.
  destruct (heap s !! messageElement) as [e|] eqn:He; [| discriminate].
  assert (He1 : alter f messageElement (heap s) !! messageElement = Some (f e)).
  { now rewrite lookup_alter_eq, He. }
  assert (Hp1 : parentNode (f e) = Some parent).
  { unfold f. now rewrite classList_add_parentNode. }
  do 2 eexists. split; [| split].
  - rewrite E1.
    rewrite (modular_fire_detach_attached _ _ (delay t) messageElement parent (f e));
      cbn [timers heap]; [| now apply list_lookup_middle | exact He1 | exact Hp1].
    cbn [elements messageConfig messageCounter heap order timers].
    rewrite delete_middle, app_nil_r. reflexivity.
  - rewrite E1'.
    rewrite (modular_fire_detach_attached _ _ (delay t) messageElement parent (f e));
      cbn [timers heap];
      [| rewrite <- app_assoc; now apply list_lookup_middle | exact He1 | exact Hp1].
    cbn [elements messageConfig messageCounter heap order timers].
    rewrite <- app_assoc. cbn [app]. rewrite delete_middle. reflexivity.
  - rewrite (modular_fire_detach_detached _ _ (delay t) messageElement
               (set_parentNode None (f e)));
      cbn [timers heap];
      [| now apply list_lookup_middle
       | now rewrite lookup_alter_eq, He1
       | reflexivity].
    unfold set_timers.
    cbn [elements messageConfig messageCounter heap order timers].
    rewrite delete_middle, app_nil_r. reflexivity.
Qed.

(** The ids returned during a session of the modular manager differ. *)
Lemma run_ids_NoDup (evs : list Event) s :
  NoDup (fst (run inputListeners evs s)).
Proof.
  apply (session_ids_NoDup (step inputListeners) (js "msg-") 45); [reflexivity |].
  intros ev s0. apply step_counter.
Qed.

End UIManagerFacts.

(* ================================================================== *)
(** ** The message queue of the main script *)
(* ================================================================== *)

Section LegacyFacts.

Import Legacy.

Implicit Types (s : Legacy.State).

Lemma legacy_addMessage_id (message : jsstring) (type : MessageType) (now : Z) s :
  fst (addMessage message type now s)
  = Spec.messageId (js "report_") 95 (messageCounter s + 1) now.
Proof. reflexivity. Qed.

Lemma legacy_addMessage_counter (message : jsstring) (type : MessageType) (now : Z) s :
  messageCounter (snd (addMessage message type now s)) = (messageCounter s + 1)%Z.
Proof. reflexivity. Qed.

Lemma legacy_addMessage_config (message : jsstring) (type : MessageType) (now : Z) s :
  messageConfig (snd (addMessage message type now s)) = messageConfig s.
Proof. reflexivity. Qed.

Lemma legacy_addMessage_timers (message : jsstring) (type : MessageType) (now : Z) s :
  timers (snd (addMessage message type now s))
  = timers s
    ++ [ mkTimer 10 (FadeIn (fresh (dom (heap s))));
         mkTimer (baseDuration (messageConfig s)
                  + Z.of_nat (length message) * durationFactor (messageConfig s))
                 (AutoRemove (fst (addMessage message type now s))) ].
Proof. unfold addMessage. cbn. now rewrite <- app_assoc. Qed.

Lemma legacy_removeMessage_sameManager (messageId : jsstring) s :
  Spec.sameManager s (removeMessage messageId s).
Proof.
  unfold removeMessage. destruct (getElementById s messageId); repeat split.
Qed.

Lemma legacy_setOutputValues_sameManager (values : list (jsstring * jsstring)) s :
  Spec.sameManager s (snd (setOutputValues values s)).
Proof.
  unfold setOutputValues.
  set (s1 := match property values (js "encryptedOutput") with
             | Some (c :: v) => setElementValue (decryptInput (elements s)) (c :: v) s
             | _ => s
             end).
  assert (H1 : Spec.sameManager s s1).
  { unfold s1. destruct (property values _) as [[|c v]|]; repeat split. }
  clearbody s1.
  set (s2 := match property values (js "decryptedOutput") with
             | Some (c :: v) => setElementValue (encryptInput (elements s1)) (c :: v) s1
             | _ => s1
             end).
  assert (H2 : Spec.sameManager s s2).
  { eapply sameManager_trans; [exact H1 |].
    unfold s2. destruct (property values _) as [[|c v]|]; repeat split. }
  clearbody s2. clear H1.
  generalize (Ok tt : result unit). revert s2 H2.
  induction values as [|[key value] values IH]; intros s2 H2 outcome; [exact H2 |].
  cbn [foldl]. unfold setOtherValue at 2.
  destruct outcome as [[] | e]; [| now apply IH].
  destruct (negb _ && negb _); [| now apply IH].
  destruct (elementsLookup (elements s2) key); apply IH; exact H2.
Qed.

Lemma legacy_fireTimer_sameManager (k : nat) s s' :
  fireTimer k s = Ok s' -> Spec.sameManager s s'.
Proof.
  unfold fireTimer. destruct (timers s !! k) as [[d cb]|];
    [| intros H; inversion H; apply sameManager_refl].
  cbn [callback]. destruct cb as [el | i | el]; cbn [runCallback].
  - intros H; inversion H. repeat split.
  - intros H; inversion H.
    eapply sameManager_trans; [| apply legacy_removeMessage_sameManager]. repeat split.
  - destruct (parentOf _ el) as [p|]; [| intros H; inversion H; repeat split].
    intros H. apply removeChild_sameManager in H.
    eapply sameManager_trans; [| exact H]. repeat split.
Qed.

Lemma legacy_step_counter (ev : Event) s :
  match fst (step ev s) with
  | Some i =>
      messageCounter (snd (step ev s)) = (messageCounter s + 1)%Z
      /\ exists t, i = Spec.messageId (js "report_") 95 (messageCounter s + 1) t
  | None => messageCounter (snd (step ev s)) = messageCounter s
  end.
Proof.
  destruct ev as [message type now | i | values | k]; cbn [step].
  - pose proof (legacy_addMessage_id message type now s) as Hi.
    pose proof (legacy_addMessage_counter message type now s) as Hc.
    destruct (addMessage message type now s) as [i s']. cbn [fst snd] in *.
    split; [exact Hc | exists now; exact Hi].
  - apply legacy_removeMessage_sameManager.
  - apply legacy_setOutputValues_sameManager.
  - destruct (fireTimer k s) as [s'|e] eqn:Hf; cbn [fst snd]; [| reflexivity].
    apply legacy_fireTimer_sameManager in Hf. apply Hf.
Qed.

Lemma legacy_step_config (ev : Event) s :
  messageConfig (snd (step ev s)) = messageConfig s.
Proof.
  destruct ev as [message type now | i | values | k]; cbn [step].
  - pose proof (legacy_addMessage_config message type now s) as Hc.
    destruct (addMessage message type now s) as [i s']. exact Hc.
  - apply legacy_removeMessage_sameManager.
  - apply legacy_setOutputValues_sameManager.
  - destruct (fireTimer k s) as [s'|e] eqn:Hf; cbn [fst snd]; [| reflexivity].
    apply legacy_fireTimer_sameManager in Hf. apply Hf.
Qed.

(** The message configuration is the one of the constructor all along a
    session. *)
Lemma legacy_run_config (evs : list Event) :
  forall s, messageConfig (snd (run evs s)) = messageConfig s.
Proof.
  unfold run. induction evs as [|ev evs IH]; intros s; [reflexivity |].
  rewrite session_cons. cbn [snd]. rewrite IH. apply legacy_step_config.
Qed.

Lemma legacy_constructor_config (h : gmap node Element) (ord : list node)
    (pending : list (Timer Callback)) s :
  constructor h ord pending = Ok s -> messageConfig s = constructorMessageConfig.
Proof.
  unfold constructor. destruct (initializeElements h ord); [| discriminate].
  intros H; inversion H. reflexivity.
Qed.

(** After [addMessage] on a page where the report element is attached
    and no attached element has the new id yet, the new paragraph is the
    only attached element with the returned id, and it is a child of the
    report element. *)
Lemma legacy_addMessage_sole_element (message : jsstring) (type : MessageType)
    (now : Z) s :
  (forall x, In x (order s) -> is_Some (heap s !! x)) ->
  In (report (elements s)) (order s) ->
  List.filter (hasId (heap s) (fst (addMessage message type now s))) (order s) = [] ->
  List.filter (hasId (heap (snd (addMessage message type now s)))
                     (fst (addMessage message type now s)))
              (order (snd (addMessage message type now s)))
  = [fresh (dom (heap s))]
  /\ parentOf (snd (addMessage message type now s)) (fresh (dom (heap s)))
     = Some (report (elements s)).
Proof.
  intros Hdom Hrep Hnone.
  unfold addMessage, generateMessageId, createElement, appendChild, setTimeout,
    update, parentOf in *.
  cbn [fst snd heap order set_heap set_order set_timers set_messageCounter
       elements messageConfig messageCounter timers] in *.
  set (n := fresh (dom (heap s))) in *.
  set (i := js "report_" ++ _) in *.
  split.
  - match goal with
    | |- context [insertLastChild ?h ?p n (order s)] =>
        destruct (insertLastChild_split h p n (order s) Hrep) as (l1 & l2 & Hl & ->)
    end.
    apply filter_one.
    + unfold hasId. rewrite !lookup_alter_eq, lookup_insert_eq. simpl.
      now rewrite bool_decide_eq_true_2 by reflexivity.
    + intros x Hx. rewrite <- Hl in Hx.
      assert (Hne : n <> x) by (apply not_eq_sym; now apply fresh_not_attached).
      unfold hasId. rewrite !lookup_alter_ne, lookup_insert_ne by exact Hne.
      exact (filter_nil_elim _ _ x Hnone Hx).
  - rewrite !lookup_alter_eq, lookup_insert_eq. reflexivity.
Qed.

Lemma legacy_fire_detach_attached (k : nat) s (d : Z) (el p : node) (e : Element) :
  timers s !! k = Some (mkTimer d (DetachMessage el)) ->
  heap s !! el = Some e -> parentNode e = Some p ->
  fireTimer k s
  = Ok (mkState (elements s) (messageConfig s) (messageCounter s)
          (alter (set_parentNode None) el (heap s))
          (filter (fun n => inSubtree (heap s) el n = false) (order s))
          (delete k (timers s))).
Proof.
  intros Ht He Hp. unfold fireTimer. rewrite Ht. cbn [callback runCallback].
  unfold parentOf, removeChild. cbn [heap set_timers].
  rewrite He, Hp, bool_decide_eq_true_2 by reflexivity. reflexivity.
Qed.

Lemma legacy_fire_detach_detached (k : nat) s (d : Z) (el : node) (e : Element) :
  timers s !! k = Some (mkTimer d (DetachMessage el)) ->
  heap s !! el = Some e -> parentNode e = None ->
  fireTimer k s = Ok (set_timers (delete k (timers s)) s).
Proof.
  intros Ht He Hp. unfold fireTimer. rewrite Ht. cbn [callback runCallback].
  unfold parentOf. cbn [heap set_timers]. now rewrite He, Hp.
Qed.

(** A second [removeMessage] during the fade-out of the first, in the
    main script: one more timer, whose closure does nothing; after both
    timers the state is the one a single call leads to. *)
Lemma legacy_removeMessage_during_fade s (messageId : jsstring)
    (messageElement parent : node) :
  List.filter (hasId (heap s) messageId) (order s) = [messageElement] ->
  parentOf s messageElement = Some parent ->
  let s1 := removeMessage messageId s in
  let s1' := removeMessage messageId s1 in
  timers s1' = timers s1 ++ [mkTimer (fadeTimeout (messageConfig s))
                                     (DetachMessage messageElement)]
  /\ exists s2 s3,
       fireTimer (length (timers s)) s1 = Ok s2
       /\ fireTimer (length (timers s)) s1' = Ok s3
       /\ fireTimer (length (timers s)) s3 = Ok s2.
Proof.
  intros Huniq Hp s1 s1'.
  pose proof (filter_singleton_find _ _ _ Huniq) as Hfind.
  set (f := set_opacity (js "0")).
  set (t := mkTimer (fadeTimeout (messageConfig s)) (DetachMessage messageElement)).
  assert (E1 : s1 = mkState (elements s) (messageConfig s) (messageCounter s)
                      (alter f messageElement (heap s)) (order s) (timers s ++ [t])).
  { unfold s1, removeMessage, getElementById, findById. now rewrite Hfind. }
  assert (Hfind1 : getElementById s1 messageId = Some messageElement).
  { rewrite E1. unfold getElementById, findById. cbn [heap order].
    rewrite <- Hfind. apply find_ext_in. intros x _. now apply hasId_alter. }
  assert (E1' : s1' = mkState (elements s) (messageConfig s) (messageCounter s)
                        (alter f messageElement (heap s)) (order s)
                        ((timers s ++ [t]) ++ [t])).
  { unfold s1', removeMessage. rewrite Hfind1, E1.
    unfold setTimeout, update. cbn [heap set_timers set_heap messageConfig timers
                                    elements messageCounter order].
    fold f. now rewrite alter_idem. }
  split; [rewrite E1', E1; reflexivity |].
  unfold parentOf in Hp.
  destruct (heap s !! messageElement) as [e|] eqn:He; [| discriminate].
  assert (He1 : alter f messageElement (heap s) !! messageElement = Some (f e)).
  { now rewrite lookup_alter_eq, He. }
  assert (Hp1 : parentNode (f e) = Some parent) by exact Hp.
  do 2 eexists. split; [| split].
  - rewrite E1.
    rewrite (legacy_fire_detach_attached _ _ (delay t) messageElement parent (f e));
      cbn [timers heap]; [| now apply list_lookup_middle | exact He1 | exact Hp1].
    cbn [elements messageConfig messageCounter heap order timers].
    rewrite delete_middle, app_nil_r. reflexivity.
  - rewrite E1'.
    rewrite (legacy_fire_detach_attached _ _ (delay t) messageElement parent (f e));
      cbn [timers heap];
      [| rewrite <- app_assoc; now apply list_lookup_middle | exact He1 | exact Hp1].
    cbn [elements messageConfig messageCounter heap order timers].
    rewrite <- app_assoc. cbn [app]. rewrite delete_middle. reflexivity.
  - rewrite (legacy_fire_detach_detached _ _ (delay t) messageElement
               (set_parentNode None (f e)));
      cbn [timers heap];
      [| now apply list_lookup_middle
       | now rewrite lookup_alter_eq, He1
       | reflexivity].
    unfold set_timers.
    cbn [elements messageConfig messageCounter heap order timers].
    rewrite delete_middle, app_nil_r. reflexivity.
Qed.

(** The ids returned during a session of the main script differ. *)
Lemma legacy_run_ids_NoDup (evs : list Event) s : NoDup (fst (run evs s)).
Proof.
  apply (session_ids_NoDup step (js "report_") 95); [reflexivity |].
  intros ev s0. apply legacy_step_counter.
Qed.

End LegacyFacts.

(* ================================================================== *)
(** ** Claims on the message queue and on the output fields *)
(* ================================================================== *)

Lemma last_two {A} (l : list A) (a b : A) : last (l ++ [a; b]) = Some b.
Proof. change [a; b] with ([a] ++ [b]). now rewrite app_assoc, last_snoc. Qed.

(** C6.  In the main script (the characters-based policy), on a manager
    built by the constructor and at any point of a session, the removal
    that [addMessage] schedules for a message has the delay
    [baseDuration + number of characters * durationFactor]; this is at
    least [baseDuration], and it is strictly longer for a message of 100
    characters than for a message of 10 characters. *)
Theorem legacy_scheduled_duration (h : gmap node Element) (ord : list node)
    (pending : list (Timer Legacy.Callback)) (s0 : Legacy.State)
    (evs : list Legacy.Event) :
  Legacy.constructor h ord pending = Ok s0 ->
  let s := snd (Legacy.run evs s0) in
  (forall message type now,
      Spec.scheduledDuration (snd (Legacy.addMessage message type now s))
      = Some (baseDuration (messageConfig s)
              + Z.of_nat (length message) * durationFactor (messageConfig s))%Z
      /\ (baseDuration (messageConfig s)
          <= baseDuration (messageConfig s)
             + Z.of_nat (length message) * durationFactor (messageConfig s))%Z)
  /\ (forall m100 m10 type100 type10 now100 now10,
         length m100 = 100 -> length m10 = 10 ->
         exists d100 d10,
           Spec.scheduledDuration (snd (Legacy.addMessage m100 type100 now100 s))
           = Some d100
           /\ Spec.scheduledDuration (snd (Legacy.addMessage m10 type10 now10 s))
              = Some d10
           /\ (d10 < d100)%Z).
Proof.
  intros Hc s.
  assert (Hcfg : messageConfig s = Legacy.constructorMessageConfig).
  { unfold s. rewrite legacy_run_config. eapply legacy_constructor_config; eauto. }
  assert (Hd : forall message type now,
             Spec.scheduledDuration (snd (Legacy.addMessage message type now s))
             = Some (baseDuration (messageConfig s)
                     + Z.of_nat (length message) * durationFactor (messageConfig s))%Z).
  { intros message type now. unfold Spec.scheduledDuration.
    rewrite legacy_addMessage_timers, last_two. reflexivity. }
  split.
  - intros message type now. split; [apply Hd |].
    rewrite Hcfg. cbn [baseDuration durationFactor Legacy.constructorMessageConfig]. lia.
  - intros m100 m10 type100 type10 now100 now10 H100 H10.
    do 2 eexists. split; [apply Hd |]. split; [apply Hd |].
    rewrite Hcfg, H100, H10.
    cbn [baseDuration durationFactor Legacy.constructorMessageConfig]. lia.
Qed.

Lemma legacy_scheduled_duration_witness :
  Legacy.constructor Scenario.pageHeap Scenario.pageOrder [] = Ok Scenario.legacyPage
  /\ Spec.scheduledDuration
       (snd (Legacy.addMessage (js "ok") success Scenario.now Scenario.legacyPage))
     = Some 3100%Z
  /\ exists d100 d10,
       Spec.scheduledDuration
         (snd (Legacy.addMessage (repeat 97%N 100) error Scenario.now
                 Scenario.legacyPage)) = Some d100
       /\ Spec.scheduledDuration
            (snd (Legacy.addMessage (repeat 97%N 10) info Scenario.now
                    Scenario.legacyPage)) = Some d10
       /\ (d10 < d100)%Z.
Proof.
  assert (Hc : Legacy.constructor Scenario.pageHeap Scenario.pageOrder []
               = Ok Scenario.legacyPage) by (vm_compute; reflexivity).
  pose proof (legacy_scheduled_duration _ _ _ _ [] Hc) as [H1 H2].
  split; [exact Hc |]. split.
  - exact (proj1 (H1 (js "ok") success Scenario.now)).
  - apply (H2 (repeat 97%N 100) (repeat 97%N 10)); reflexivity.
Defined.

(** A second [removeMessage] of the modular manager, after the fade-out
    timer of the first has run. *)
Lemma modular_removeMessage_twice (s : UIManager.State) (messageId : jsstring)
    (messageElement parent : node) :
  List.filter (hasId (heap s) messageId) (order s) = [messageElement] ->
  parentOf s messageElement = Some parent ->
  exists s2,
    UIManager.fireTimer (length (timers s)) (UIManager.removeMessage messageId s)
    = Ok s2
    /\ getElementById s2 messageId = None
    /\ timers s2 = timers s
    /\ UIManager.removeMessage messageId s2 = s2.
Proof.
  intros Huniq Hp.
  pose proof (filter_singleton_find _ _ _ Huniq) as Hfind.
  destruct (detach_marked (classList_add (js "fade-out")) s messageId
              messageElement parent)
    as (s2 & Hrun & Hnone & _ & _ & _ & Ht);
    auto using classList_add_id, classList_add_parentNode.
  exists s2. unfold UIManager.removeMessage at 1.
  unfold getElementById, findById. rewrite Hfind.
  unfold UIManager.fireTimer, setTimeout. cbn [timers set_timers update set_heap].
  rewrite list_lookup_middle by reflexivity.
  rewrite delete_middle, app_nil_r. cbn [callback UIManager.runCallback].
  split; [exact Hrun |]. split; [exact Hnone |]. split; [exact Ht |].
  unfold UIManager.removeMessage. now rewrite Hnone.
Qed.

(** The same in the main script. *)
Lemma legacy_removeMessage_twice (s : Legacy.State) (messageId : jsstring)
    (messageElement parent : node) :
  List.filter (hasId (heap s) messageId) (order s) = [messageElement] ->
  parentOf s messageElement = Some parent ->
  exists s2,
    Legacy.fireTimer (length (timers s)) (Legacy.removeMessage messageId s) = Ok s2
    /\ getElementById s2 messageId = None
    /\ timers s2 = timers s
    /\ Legacy.removeMessage messageId s2 = s2.
Proof.
  intros Huniq Hp.
  pose proof (filter_singleton_find _ _ _ Huniq) as Hfind.
  destruct (detach_marked (set_opacity (js "0")) s messageId messageElement parent)
    as (s2 & Hrun & Hnone & _ & _ & _ & Ht); auto.
  exists s2. unfold Legacy.removeMessage at 1.
  unfold getElementById, findById. rewrite Hfind.
  unfold Legacy.fireTimer, setTimeout. cbn [timers set_timers update set_heap].
  rewrite list_lookup_middle by reflexivity.
  rewrite delete_middle, app_nil_r. cbn [callback Legacy.runCallback].
  split; [exact Hrun |]. split; [exact Hnone |]. split; [exact Ht |].
  unfold Legacy.removeMessage. now rewrite Hnone.
Qed.

(** C7.  When a message is the only attached element with its id,
    [removeMessage] fades it out and the fade-out timer detaches it without
    an exception; a second [removeMessage] with the same id, after that,
    returns normally and leaves the whole state (page, timers, manager) as
    it is.  This holds in the modular manager and in the main script. *)
Theorem removeMessage_idempotent :
  (forall (s : UIManager.State) (messageId : jsstring) (messageElement parent : node),
      List.filter (hasId (heap s) messageId) (order s) = [messageElement] ->
      parentOf s messageElement = Some parent ->
      exists s2,
        UIManager.fireTimer (length (timers s)) (UIManager.removeMessage messageId s)
        = Ok s2
        /\ getElementById s2 messageId = None
        /\ UIManager.removeMessage messageId s2 = s2)
  /\ (forall (s : Legacy.State) (messageId : jsstring) (messageElement parent : node),
         List.filter (hasId (heap s) messageId) (order s) = [messageElement] ->
         parentOf s messageElement = Some parent ->
         exists s2,
           Legacy.fireTimer (length (timers s)) (Legacy.removeMessage messageId s)
           = Ok s2
           /\ getElementById s2 messageId = None
           /\ Legacy.removeMessage messageId s2 = s2).
Proof.
  split; intros s messageId messageElement parent Huniq Hp.
  - destruct (modular_removeMessage_twice s messageId messageElement parent Huniq Hp)
      as (s2 & H1 & H2 & _ & H3). now exists s2.
  - destruct (legacy_removeMessage_twice s messageId messageElement parent Huniq Hp)
      as (s2 & H1 & H2 & _ & H3). now exists s2.
Qed.

Lemma removeMessage_idempotent_witness :
  (exists s2,
      UIManager.fireTimer (length (timers Scenario.modularWithMessage))
        (UIManager.removeMessage (js "msg-1-1730000000000") Scenario.modularWithMessage)
      = Ok s2
      /\ getElementById s2 (js "msg-1-1730000000000") = None
      /\ UIManager.removeMessage (js "msg-1-1730000000000") s2 = s2)
  /\ (exists s2,
         Legacy.fireTimer (length (timers Scenario.legacyWithMessage))
           (Legacy.removeMessage (js "report_1_1730000000000") Scenario.legacyWithMessage)
         = Ok s2
         /\ getElementById s2 (js "report_1_1730000000000") = None
         /\ Legacy.removeMessage (js "report_1_1730000000000") s2 = s2).
Proof.
  split.
  - apply (proj1 removeMessage_idempotent Scenario.modularWithMessage
             (js "msg-1-1730000000000") 9 8); vm_compute; reflexivity.
  - apply (proj2 removeMessage_idempotent Scenario.legacyWithMessage
             (js "report_1_1730000000000") 9 8); vm_compute; reflexivity.
Defined.

(** C8.  The ids returned by the [addMessage] calls of a session on one
    manager are pairwise different, whatever the texts and the times of the
    calls and whatever else happens in between; in particular two calls in
    a row with the same text at the same time return different ids.  This
    holds in the modular manager and in the main script. *)
Theorem message_ids_distinct :
  (forall (inputListeners : Element -> Element) (evs : list UIManager.Event)
          (s : UIManager.State),
      NoDup (fst (UIManager.run inputListeners evs s)))
  /\ (forall (evs : list Legacy.Event) (s : Legacy.State),
         NoDup (fst (Legacy.run evs s)))
  /\ (forall (s : UIManager.State) message type now,
         fst (UIManager.addMessage message type now s)
         <> fst (UIManager.addMessage message type now
                   (snd (UIManager.addMessage message type now s))))
  /\ (forall (s : Legacy.State) message type now,
         fst (Legacy.addMessage message type now s)
         <> fst (Legacy.addMessage message type now
                   (snd (Legacy.addMessage message type now s)))).
Proof.
  split; [intros; apply run_ids_NoDup |].
  split; [intros; apply legacy_run_ids_NoDup |].
  split; intros s message type now E.
  - rewrite !addMessage_id, addMessage_counter in E.
    apply messageId_counter_inj in E; [lia | reflexivity].
  - rewrite !legacy_addMessage_id, legacy_addMessage_counter in E.
    apply messageId_counter_inj in E; [lia | reflexivity].
Qed.

(** The guard [if (values.decryptedOutput)] of the main script skips an
    empty result: nothing is written. *)
Lemma legacy_setOutputValues_empty_result (s : Legacy.State) :
  Legacy.setOutputValues [(js "encryptedOutput", js "")] s = (Ok tt, s)
  /\ Legacy.setOutputValues [(js "decryptedOutput", js "")] s = (Ok tt, s).
Proof.
  unfold Legacy.setOutputValues. cbn [Legacy.property foldl Legacy.setOtherValue]. split.
  - rewrite (bool_decide_eq_true_2 (js "encryptedOutput" = js "encryptedOutput"))
      by reflexivity.
    rewrite (bool_decide_eq_false_2 (js "encryptedOutput" = js "decryptedOutput"))
      by (vm_compute; discriminate).
    reflexivity.
  - rewrite (bool_decide_eq_true_2 (js "decryptedOutput" = js "decryptedOutput"))
      by reflexivity.
    rewrite (bool_decide_eq_false_2 (js "decryptedOutput" = js "encryptedOutput"))
      by (vm_compute; discriminate).
    reflexivity.
Qed.




(* ================================================================== *)
(** ** Further properties of the codec, the validator and the adapter *)
(* ================================================================== *)

Section CodecShape.

Lemma toLowerCase_hex_lower (c : N) :
  isHexDigit c = true ->
  forall c', toLowerCase [c] = [c'] -> In c' Shape.lowerHexAlphabet.
Proof.
  intros Hc c' E.
  pose (p := fun c : N =>
               implb (isHexDigit c)
                 (match toLowerCase [c] with
                  | [c'] => existsb (N.eqb c') Shape.lowerHexAlphabet
                  | _ => false
                  end)).
  assert (Hp : p c = true).
  { apply (N_forall_below p 103); [vm_compute; reflexivity |].
    now apply isHexDigit_bound. }
  unfold p in Hp. rewrite Hc, E in Hp. cbn [implb] in Hp.
  apply existsb_exists in Hp as (x & Hx & Hxc).
  apply N.eqb_eq in Hxc. now subst.
Qed.

Lemma toLowerCase_In (s : jsstring) (c : N) :
  In c (toLowerCase s) -> exists c0, In c0 s /\ toLowerCase [c0] = [c].
Proof.
  unfold toLowerCase. intros H. apply in_map_iff in H as (c0 & E & Hin).
  exists c0. split; [exact Hin |]. cbn [map]. now rewrite E.
Qed.

Lemma uint8ArrayToHex_lower (array : list byte) :
  toLowerCase (CryptoUtils.uint8ArrayToHex array) = CryptoUtils.uint8ArrayToHex array.
Proof.
  rewrite <- (uint8ArrayToHex_decodePairs (length array)).
  - now rewrite decodePairs_uint8ArrayToHex.
  - apply uint8ArrayToHex_length.
  - apply uint8ArrayToHex_hex.
Qed.

Lemma uint8ArrayToHex_valid (array : list byte) :
  array <> [] -> CryptoUtils.isValidHex (CryptoUtils.uint8ArrayToHex array) = true.
Proof.
  intros Hne. unfold CryptoUtils.isValidHex.
  rewrite (hex_trim _ (uint8ArrayToHex_hex array)).
  pose proof (uint8ArrayToHex_length array) as Hl.
  pose proof (uint8ArrayToHex_hex array) as Hh.
  destruct (CryptoUtils.uint8ArrayToHex array); [| exact Hh].
  destruct array; [congruence | cbn in Hl; lia].
Qed.

Lemma hexToUint8Array_uint8ArrayToHex (array : list byte) :
  array <> [] ->
  CryptoUtils.hexToUint8Array (CryptoUtils.uint8ArrayToHex array) = Ok array.
Proof.
  intros Hne.
  rewrite (hexToUint8Array_valid _ (uint8ArrayToHex_valid _ Hne)).
  rewrite (hex_trim _ (uint8ArrayToHex_hex array)).
  unfold Spec.zeroPad. rewrite uint8ArrayToHex_length.
  replace (Nat.even (2 * length array)) with true
    by (symmetry; apply Nat.even_spec; now exists (length array)).
  now rewrite decodePairs_uint8ArrayToHex.
Qed.

Lemma uint8ArrayToHex_lowerHex (array : list byte) (c : N) :
  In c (CryptoUtils.uint8ArrayToHex array) -> In c Shape.lowerHexAlphabet.
Proof.
  intros Hc. rewrite <- uint8ArrayToHex_lower in Hc.
  apply toLowerCase_In in Hc as (c0 & Hin & E).
  apply (toLowerCase_hex_lower c0); [| exact E].
  pose proof (uint8ArrayToHex_hex array) as Hh.
  rewrite forallb_forall in Hh. now apply Hh.
Qed.

(** Two byte arrays are printed alike only if they are the same array. *)
Lemma uint8ArrayToHex_inj (a b : list byte) :
  CryptoUtils.uint8ArrayToHex a = CryptoUtils.uint8ArrayToHex b -> a = b.
Proof.
  intros E.
  rewrite <- (decodePairs_uint8ArrayToHex a), <- (decodePairs_uint8ArrayToHex b).
  now rewrite E.
Qed.

(** X1.  [uint8ArrayToHex] writes two characters for each byte, all of them
    among [0123456789abcdef]; its result is a string that [isValidHex]
    accepts exactly when the array is not empty; and two arrays are printed
    alike only if they are the same array. *)
Theorem uint8ArrayToHex_shape (array : list byte) :
  length (CryptoUtils.uint8ArrayToHex array) = 2 * length array
  /\ (forall c, In c (CryptoUtils.uint8ArrayToHex array) -> In c Shape.lowerHexAlphabet)
  /\ (CryptoUtils.isValidHex (CryptoUtils.uint8ArrayToHex array) = true <-> array <> [])
  /\ (forall other,
         CryptoUtils.uint8ArrayToHex array = CryptoUtils.uint8ArrayToHex other <->
         array = other).
Proof.
  split; [apply uint8ArrayToHex_length |].
  split; [apply uint8ArrayToHex_lowerHex |].
  split; [split; [| apply uint8ArrayToHex_valid] |].
  - intros H ->. discriminate H.
  - intros other. split; [apply uint8ArrayToHex_inj | congruence].
Qed.

End CodecShape.

Section CodecEdges.

Lemma forallb_false_elim {A} (f : A -> bool) (l : list A) :
  forallb f l = false -> exists x, In x l /\ f x = false.
Proof.
  induction l as [| a l IH]; cbn [forallb]; [discriminate |].
  destruct (f a) eqn:E; cbn [andb].
  - intros H. destruct (IH H) as (x & Hx & Hf). exists x. split; [now right | exact Hf].
  - intros _. exists a. split; [now left | exact E].
Qed.

Lemma isValidHex_false_iff (s : jsstring) :
  CryptoUtils.isValidHex s = false
  <-> trim s = [] \/ exists c, In c (trim s) /\ ~ In c Spec.hexAlphabet.
Proof.
  unfold CryptoUtils.isValidHex, CryptoUtils.hexRegex_test.
  destruct (trim s) as [| c r] eqn:E.
  - split; [now left | reflexivity].
  - split.
    + intros H. right. apply forallb_false_elim in H as (x & Hx & Hf).
      exists x. split; [exact Hx |]. rewrite <- isHexDigit_alphabet. congruence.
    + intros [H | (x & Hx & Hf)]; [discriminate |].
      destruct (forallb isHexDigit (c :: r)) eqn:Ha; [| reflexivity].
      rewrite forallb_forall in Ha. apply Ha in Hx.
      now apply isHexDigit_alphabet in Hx.
Qed.

(** X2.  [hexToUint8Array] throws exactly when the trimmed input is empty
    or holds a character that is no hex digit, and the error it throws is
    always the one with the message "String hexadecimal inválida". *)
Theorem hexToUint8Array_rejects (s : jsstring) :
  (CryptoUtils.hexToUint8Array s = Throw (Error (js "String hexadecimal inválida"))
   <-> trim s = [] \/ exists c, In c (trim s) /\ ~ In c Spec.hexAlphabet)
  /\ (forall e, CryptoUtils.hexToUint8Array s = Throw e ->
                e = Error (js "String hexadecimal inválida")).
Proof.
  destruct (CryptoUtils.isValidHex s) eqn:Hv.
  - rewrite (hexToUint8Array_valid s Hv). split; [| discriminate].
    rewrite <- isValidHex_false_iff, Hv. split; discriminate.
  - rewrite (hexToUint8Array_invalid s Hv). split; [| congruence].
    rewrite <- isValidHex_false_iff. now split.
Qed.

Lemma decodePairs_length_half (s : jsstring) :
  length (Spec.decodePairs s) = length s / 2.
Proof. now apply (decodePairs_length (length s)). Qed.

(** X3.  When [hexToUint8Array] returns, the number of bytes is half the
    number of characters of the trimmed input, rounded up; an odd number of
    digits is read as if a zero stood in front of them. *)
Theorem hexToUint8Array_byte_count (s : jsstring) (bytes : list byte) :
  CryptoUtils.hexToUint8Array s = Ok bytes ->
  length bytes = (length (trim s) + 1) / 2
  /\ (Nat.odd (length (trim s)) = true ->
      CryptoUtils.hexToUint8Array (48%N :: trim s) = Ok bytes).
Proof.
  intros H.
  destruct (CryptoUtils.isValidHex s) eqn:Hv;
    [| rewrite (hexToUint8Array_invalid s Hv) in H; discriminate].
  rewrite (hexToUint8Array_valid s Hv) in H. injection H as <-.
  pose proof Hv as Hh. unfold CryptoUtils.isValidHex in Hh.
  apply hexRegex_test_forallb in Hh.
  split.
  - rewrite decodePairs_length_half. unfold Spec.zeroPad.
    destruct (Nat.even (length (trim s))) eqn:Ee.
    + apply Nat.even_spec in Ee as [k Hk].
      rewrite Hk, (Nat.mul_comm 2 k), Nat.div_add_l, Nat.div_mul by lia.
      change (1 / 2) with 0. lia.
    + cbn [length]. f_equal. lia.
  - intros Ho. unfold Nat.odd in Ho. apply negb_true_iff in Ho.
    assert (Hh' : forallb isHexDigit (48%N :: trim s) = true)
      by (cbn [forallb]; now rewrite Hh).
    rewrite hexToUint8Array_valid.
    + rewrite (hex_trim _ Hh'). unfold Spec.zeroPad at 2. rewrite Ho.
      unfold Spec.zeroPad. cbn [length]. rewrite Nat.even_succ.
      unfold Nat.odd. now rewrite Ho.
    + unfold CryptoUtils.isValidHex. rewrite (hex_trim _ Hh'). exact Hh'.
Qed.

Lemma hexToUint8Array_byte_count_witness :
  CryptoUtils.hexToUint8Array (js " abc ") = Ok [x0a; xbc]
  /\ length [x0a; xbc] = (length (trim (js " abc ")) + 1) / 2
  /\ CryptoUtils.hexToUint8Array (js "0abc") = Ok [x0a; xbc].
Proof.
  assert (H : CryptoUtils.hexToUint8Array (js " abc ") = Ok [x0a; xbc])
    by (vm_compute; reflexivity).
  destruct (hexToUint8Array_byte_count _ _ H) as [H1 H2].
  split; [exact H |]. split; [exact H1 |].
  apply H2. vm_compute. reflexivity.
Defined.

End CodecEdges.

Section CaseFacts.

Lemma toLowerCase_map (s : jsstring) : toLowerCase s = map Shape.lowerChar s.
Proof. reflexivity. Qed.

(** A property of [lowerChar c] that holds for the capital letters by
    enumeration and for the other characters because they are unchanged. *)
Lemma lowerChar_preserves {A} (f : N -> A) (eqb : A -> A -> bool) :
  (forall x y, eqb x y = true -> x = y) ->
  forallb (fun c => eqb (f (Shape.lowerChar c)) (f c)) (map N.of_nat (seq 0 91)) = true ->
  forall c, f (Shape.lowerChar c) = f c.
Proof.
  intros Heq Hall c.
  destruct ((65 <=? c) && (c <=? 90))%N eqn:E.
  - apply Heq.
    apply (N_forall_below (fun c => eqb (f (Shape.lowerChar c)) (f c)) 91 Hall c).
    apply andb_true_iff in E as [_ E]. apply N.leb_le in E. lia.
  - unfold Shape.lowerChar. now rewrite E.
Qed.

Lemma lowerChar_isWhiteSpace (c : N) :
  isWhiteSpace (Shape.lowerChar c) = isWhiteSpace c.
Proof.
  apply (lowerChar_preserves isWhiteSpace Bool.eqb);
    [apply Bool.eqb_prop | vm_compute; reflexivity].
Qed.

Lemma lowerChar_isHexDigit (c : N) :
  isHexDigit (Shape.lowerChar c) = isHexDigit c.
Proof.
  apply (lowerChar_preserves isHexDigit Bool.eqb);
    [apply Bool.eqb_prop | vm_compute; reflexivity].
Qed.

Lemma lowerChar_hexDigitValue (c : N) :
  hexDigitValue (Shape.lowerChar c) = hexDigitValue c.
Proof.
  apply (lowerChar_preserves hexDigitValue
           (fun x y => bool_decide (x = y)));
    [intros x y; apply bool_decide_eq_true_1 | vm_compute; reflexivity].
Qed.

Lemma trimStart_toLowerCase (s : jsstring) :
  trimStart (toLowerCase s) = toLowerCase (trimStart s).
Proof.
  rewrite !toLowerCase_map.
  induction s as [| c r IH]; [reflexivity |].
  cbn [map trimStart]. rewrite lowerChar_isWhiteSpace.
  destruct (isWhiteSpace c); [exact IH | reflexivity].
Qed.

Lemma trim_toLowerCase (s : jsstring) : trim (toLowerCase s) = toLowerCase (trim s).
Proof.
  unfold trim, trimEnd. rewrite trimStart_toLowerCase.
  assert (Hr : forall x, rev (toLowerCase x) = toLowerCase (rev x))
    by (intros x; unfold toLowerCase; now rewrite map_rev).
  now rewrite Hr, trimStart_toLowerCase, Hr.
Qed.

Lemma forallb_isHexDigit_toLowerCase (s : jsstring) :
  forallb isHexDigit (toLowerCase s) = forallb isHexDigit s.
Proof.
  rewrite toLowerCase_map.
  induction s as [| c r IH]; [reflexivity |].
  cbn [map forallb]. now rewrite lowerChar_isHexDigit, IH.
Qed.

Lemma decodePairs_toLowerCase (n : nat) :
  forall s, length s <= n ->
            Spec.decodePairs (toLowerCase s) = Spec.decodePairs s.
Proof.
  induction n as [| n IH]; intros s Hs.
  - destruct s; [reflexivity | cbn in Hs; lia].
  - destruct s as [| a [| b r]]; [reflexivity | reflexivity |].
    rewrite toLowerCase_map. cbn [map Spec.decodePairs].
    rewrite <- toLowerCase_map, IH by (cbn [length] in Hs; lia).
    f_equal. unfold Spec.byteOfDigits. now rewrite !lowerChar_hexDigitValue.
Qed.

(** X4.  [hexToUint8Array] does not tell upper-case digits from lower-case
    ones: the input and its lower-case form are decoded, or rejected,
    alike. *)
Theorem hexToUint8Array_case_insensitive (s : jsstring) :
  CryptoUtils.hexToUint8Array (toLowerCase s) = CryptoUtils.hexToUint8Array s.
Proof.
  assert (Hv : CryptoUtils.isValidHex (toLowerCase s) = CryptoUtils.isValidHex s).
  { unfold CryptoUtils.isValidHex, CryptoUtils.hexRegex_test.
    rewrite trim_toLowerCase.
    destruct (trim s) as [| c r] eqn:E; [reflexivity |].
    rewrite forallb_isHexDigit_toLowerCase. reflexivity. }
  destruct (CryptoUtils.isValidHex s) eqn:Hs.
  - rewrite (hexToUint8Array_valid _ Hv), (hexToUint8Array_valid _ Hs).
    rewrite trim_toLowerCase. f_equal.
    assert (Hz : Spec.zeroPad (toLowerCase (trim s)) = toLowerCase (Spec.zeroPad (trim s))).
    { unfold Spec.zeroPad. rewrite toLowerCase_map at 1. rewrite length_map.
      destruct (Nat.even (length (trim s))); reflexivity. }
    rewrite Hz. now apply (decodePairs_toLowerCase (length (Spec.zeroPad (trim s)))).
  - now rewrite (hexToUint8Array_invalid _ Hv), (hexToUint8Array_invalid _ Hs).
Qed.

End CaseFacts.

Section ValidatorEdges.

Import AESCrypto.

Lemma isValidHex_nonempty (s : jsstring) : CryptoUtils.isValidHex s = true -> s <> [].
Proof. intros H ->. discriminate H. Qed.

Lemma hexToUint8Array_hex (s : jsstring) :
  s <> [] -> forallb isHexDigit s = true ->
  CryptoUtils.isValidHex s = true
  /\ CryptoUtils.hexToUint8Array s = Ok (Spec.decodePairs (Spec.zeroPad s)).
Proof.
  intros Hne Hh.
  assert (Hv : CryptoUtils.isValidHex s = true).
  { unfold CryptoUtils.isValidHex. rewrite (hex_trim _ Hh).
    destruct s; [congruence | exact Hh]. }
  split; [exact Hv |]. rewrite (hexToUint8Array_valid _ Hv). now rewrite (hex_trim _ Hh).
Qed.

Lemma decodePairs_zeroPad_length (s : jsstring) :
  length s = 2 * length (Spec.decodePairs (Spec.zeroPad s))
  <-> Nat.even (length s) = true.
Proof.
  rewrite decodePairs_length_half. unfold Spec.zeroPad.
  destruct (Nat.even (length s)) eqn:E.
  - split; [reflexivity | intros _].
    apply Nat.even_spec in E as [k Hk]. rewrite Hk, (Nat.mul_comm 2 k), Nat.div_mul; lia.
  - split; [| discriminate]. intros H. exfalso.
    assert (Ho : Nat.odd (length s) = true) by (unfold Nat.odd; now rewrite E).
    apply Nat.odd_spec in Ho as [k Hk]. lia.
Qed.

(** X5.  For a key and an IV made of hex digits only, [validateParameters]
    accepts them exactly when both have an even number of digits, the key
    decodes to 16, 24 or 32 bytes and the IV decodes to [ivLength]
    bytes. *)
Theorem validateParameters_decoded_sizes (config : AESConfig) (keyHex ivHex : jsstring)
    (operation : CryptoOperation) :
  forallb isHexDigit keyHex = true -> forallb isHexDigit ivHex = true ->
  (validateParameters config keyHex ivHex operation = Ok tt
   <-> exists keyData ivData,
         CryptoUtils.hexToUint8Array keyHex = Ok keyData
         /\ CryptoUtils.hexToUint8Array ivHex = Ok ivData
         /\ length keyHex = 2 * length keyData
         /\ length ivHex = 2 * length ivData
         /\ (length keyData = 16 \/ length keyData = 24 \/ length keyData = 32)
         /\ Z.of_nat (length ivData) = ivLength config).
Proof.
  intros Hk Hi. rewrite validateParameters_Ok, isValidKeySize_length, isValidIVSize_length.
  split.
  - intros (Hkn & Hin & _ & _ & Hks & His).
    destruct (hexToUint8Array_hex keyHex Hkn Hk) as [_ Ek].
    destruct (hexToUint8Array_hex ivHex Hin Hi) as [_ Ei].
    exists (Spec.decodePairs (Spec.zeroPad keyHex)), (Spec.decodePairs (Spec.zeroPad ivHex)).
    assert (Eke : Nat.even (length keyHex) = true)
      by (destruct Hks as [-> | [-> | ->]]; reflexivity).
    assert (Eie : Nat.even (length ivHex) = true).
    { rewrite <- Nat.negb_odd. apply negb_true_iff.
      destruct (Nat.odd (length ivHex)) eqn:Eo; [| reflexivity].
      apply Nat.odd_spec in Eo as [k Ek']. lia. }
    apply decodePairs_zeroPad_length in Eke, Eie.
    split; [exact Ek |]. split; [exact Ei |]. split; [exact Eke |]. split; [exact Eie |].
    split; lia.
  - intros (keyData & ivData & Ek & Ei & Lk & Li & Sk & Si).
    assert (Vk : CryptoUtils.isValidHex keyHex = true).
    { destruct (CryptoUtils.isValidHex keyHex) eqn:E; [reflexivity |].
      rewrite (hexToUint8Array_invalid _ E) in Ek. discriminate. }
    assert (Vi : CryptoUtils.isValidHex ivHex = true).
    { destruct (CryptoUtils.isValidHex ivHex) eqn:E; [reflexivity |].
      rewrite (hexToUint8Array_invalid _ E) in Ei. discriminate. }
    split; [now apply isValidHex_nonempty |]. split; [now apply isValidHex_nonempty |].
    split; [exact Vk |]. split; [exact Vi |]. split; lia.
Qed.

Lemma validateParameters_decoded_sizes_witness :
  validateParameters defaultConfig Scenario.zeros32 Scenario.zeros32 OpDecrypt = Ok tt
  <-> exists keyData ivData,
        CryptoUtils.hexToUint8Array Scenario.zeros32 = Ok keyData
        /\ CryptoUtils.hexToUint8Array Scenario.zeros32 = Ok ivData
        /\ length Scenario.zeros32 = 2 * length keyData
        /\ length Scenario.zeros32 = 2 * length ivData
        /\ (length keyData = 16 \/ length keyData = 24 \/ length keyData = 32)
        /\ Z.of_nat (length ivData) = ivLength defaultConfig.
Proof.
  apply (validateParameters_decoded_sizes defaultConfig Scenario.zeros32 Scenario.zeros32
           OpDecrypt); vm_compute; reflexivity.
Defined.

Lemma InvalidIVSize_message (config : AESConfig) :
  exists m, InvalidIVSize config = Error (js "IV deve t" ++ m).
Proof.
  unfold InvalidIVSize. eexists.
  change (js "IV deve ter ") with (js "IV deve t" ++ js "er ").
  rewrite <- !app_assoc. reflexivity.
Qed.

(** X6.  [validateParameters] reports the size of the IV (the error whose
    message names [ivLength] and twice [ivLength]) exactly when the key and
    the IV are present, both are hex strings, the key has 32, 48 or 64
    characters and the IV has not twice [ivLength] characters. *)
Theorem validateParameters_iv_size (config : AESConfig) (keyHex ivHex : jsstring)
    (operation : CryptoOperation) :
  validateParameters config keyHex ivHex operation = Throw (InvalidIVSize config)
  <-> keyHex <> [] /\ ivHex <> []
      /\ CryptoUtils.isValidHex keyHex = true /\ CryptoUtils.isValidHex ivHex = true
      /\ (length keyHex = 32 \/ length keyHex = 48 \/ length keyHex = 64)
      /\ Z.of_nat (length ivHex) <> (2 * ivLength config)%Z.
Proof.
  rewrite <- isValidKeySize_length.
  destruct (InvalidIVSize_message config) as [m Hm].
  unfold validateParameters.
  destruct keyHex as [| k0 kr]; cbn [isEmpty orb].
  { split; [destruct operation; rewrite Hm; intros H; vm_compute in H; discriminate H
           | intros (H & _); congruence]. }
  destruct ivHex as [| i0 ir]; cbn [isEmpty orb].
  { split; [destruct operation; rewrite Hm; intros H; vm_compute in H; discriminate H
           | intros (_ & H & _); congruence]. }
  destruct (CryptoUtils.isValidHex (k0 :: kr)); cbn [negb].
  2: { split; [rewrite Hm; intros H; vm_compute in H; discriminate H
              | intros (_ & _ & H & _); discriminate]. }
  destruct (CryptoUtils.isValidHex (i0 :: ir)); cbn [negb].
  2: { split; [rewrite Hm; intros H; vm_compute in H; discriminate H
              | intros (_ & _ & _ & H & _); discriminate]. }
  destruct (CryptoUtils.isValidKeySize (k0 :: kr)); cbn [negb].
  2: { split; [rewrite Hm; intros H; vm_compute in H; discriminate H
              | intros (_ & _ & _ & _ & H & _); discriminate]. }
  destruct (CryptoUtils.isValidIVSize (i0 :: ir) (ivLength config)) eqn:E; cbn [negb].
  - apply isValidIVSize_length in E. split; [discriminate | intros (_ & _ & _ & _ & _ & H)].
    contradiction.
  - split; [intros _ | reflexivity].
    repeat (split; [first [discriminate | reflexivity] |]).
    intros H. apply isValidIVSize_length in H. congruence.
Qed.

End ValidatorEdges.

Section CipherEdges.

Import AESCrypto.

Variable P : Platform.

(** The parameters [encrypt] and [decrypt] hand to the platform. *)
Lemma validated_decodes (config : AESConfig) (keyHex ivHex : jsstring)
    (operation : CryptoOperation) :
  validateParameters config keyHex ivHex operation = Ok tt ->
  exists keyData ivData,
    CryptoUtils.hexToUint8Array keyHex = Ok keyData
    /\ CryptoUtils.hexToUint8Array ivHex = Ok ivData.
Proof.
  intros H. apply validateParameters_decodes in H as [H1 H2]. eauto.
Qed.

(** X7.  Without a key or without an IV, [encrypt] and [decrypt] fail with
    the message that asks for them, prefixed by the operation, whatever the
    payload is, and make no platform call. *)
Theorem missing_key_or_iv (config : AESConfig) (text keyHex ivHex : jsstring)
    (log : list PlatformCall) :
  keyHex = [] \/ ivHex = [] ->
  encrypt P config text keyHex ivHex log
  = (Throw (Error (js "Erro na encriptação: Para encriptar, forneça uma chave e IV válidos.")),
     log)
  /\ decrypt P config text keyHex ivHex log
     = (Throw (Error (js "Erro na decriptação: Para decriptar, forneça uma chave e IV válidos.")),
        log).
Proof.
  intros H.
  assert (Hv : forall op, validateParameters config keyHex ivHex op
                          = Throw (MissingParameter op)).
  { intros op. unfold validateParameters.
    destruct H as [-> | ->]; [reflexivity |]. now destruct keyHex. }
  unfold encrypt, decrypt, tryCatch, bind, lift. rewrite !Hv.
  split; vm_compute; reflexivity.
Qed.

(** X8.  With acceptable key and IV, [decrypt] rejects an empty payload and
    a payload that is no hex string, each with its own message, before any
    platform call. *)
Theorem decrypt_rejects_payload (config : AESConfig) (encryptedHex keyHex ivHex : jsstring)
    (log : list PlatformCall) :
  validateParameters config keyHex ivHex OpDecrypt = Ok tt ->
  (encryptedHex = [] ->
   decrypt P config encryptedHex keyHex ivHex log
   = (Throw (Error (js "Erro na decriptação: Dados para decriptação não podem estar vazios.")),
      log))
  /\ (encryptedHex <> [] -> CryptoUtils.isValidHex encryptedHex = false ->
      decrypt P config encryptedHex keyHex ivHex log
      = (Throw (Error (js "Erro na decriptação: Dados encriptados devem ser uma string hexadecimal válida.")),
         log)).
Proof.
  intros H. split.
  - intros ->. unfold decrypt, tryCatch, bind, lift. rewrite H.
    vm_compute. reflexivity.
  - intros Hne Hv. unfold decrypt, tryCatch, bind, lift. rewrite H.
    destruct encryptedHex; [congruence |]. cbn [isEmpty]. rewrite Hv.
    vm_compute. reflexivity.
Qed.

(** X9.  What [encrypt] and [decrypt] throw is always an [Error] whose
    message is the fixed text for an unknown failure or starts with the
    prefix of the operation. *)
Theorem adapter_throws_errors (config : AESConfig) (text keyHex ivHex : jsstring)
    (log : list PlatformCall) (e : exn) :
  (fst (encrypt P config text keyHex ivHex log) = Throw e ->
   e = Error (js "Erro desconhecido na encriptação")
   \/ exists message, e = Error (js "Erro na encriptação: " ++ message))
  /\ (fst (decrypt P config text keyHex ivHex log) = Throw e ->
      e = Error (js "Erro desconhecido na decriptação")
      \/ exists message, e = Error (js "Erro na decriptação: " ++ message)).
Proof.
  split.
  - unfold encrypt, tryCatch.
    match goal with |- context [match ?b with _ => _ end] => destruct b as [[a | e0] log'] end;
      cbn [fst throw]; [discriminate |].
    intros [= <-]. destruct e0; [right; eauto | now left].
  - unfold decrypt, tryCatch.
    match goal with |- context [match ?b with _ => _ end] => destruct b as [[a | e0] log'] end;
      cbn [fst throw]; [discriminate |].
    intros [= <-]. destruct e0; [right; eauto | now left].
Qed.

(** X10.  The platform calls of [encrypt]: none, unless the parameters are
    valid and the text is not empty; then the import of the decoded key,
    followed, if it succeeds, by one encryption of the encoded text under
    the decoded IV.  Nothing else is called. *)
Theorem encrypt_platform_calls (config : AESConfig) (plainText keyHex ivHex : jsstring)
    (log : list PlatformCall) :
  exists calls,
    snd (encrypt P config plainText keyHex ivHex log) = log ++ calls
    /\ (calls = []
        \/ validateParameters config keyHex ivHex OpEncrypt = Ok tt
           /\ plainText <> []
           /\ exists keyData ivData,
                CryptoUtils.hexToUint8Array keyHex = Ok keyData
                /\ CryptoUtils.hexToUint8Array ivHex = Ok ivData
                /\ (calls = [CallImportKey (algorithm config) keyData]
                    \/ calls = [CallImportKey (algorithm config) keyData;
                                CallEncrypt (algorithm config) ivData
                                            (textEncode P plainText)])).
Proof.
  unfold encrypt, tryCatch, bind, lift, createCryptoKey, platform, throw, ret.
  destruct (validateParameters config keyHex ivHex OpEncrypt) as [[] | e] eqn:Hv;
    [| exists []; rewrite app_nil_r; auto].
  destruct plainText as [| c r]; cbn [isEmpty];
    [exists []; rewrite app_nil_r; auto |].
  destruct (validated_decodes _ _ _ _ Hv) as (keyData & ivData & Ek & Ei).
  rewrite Ek, Ei.
  destruct (subtle_importKey P (algorithm config) keyData) as [cryptoKey | e].
  - exists [CallImportKey (algorithm config) keyData;
            CallEncrypt (algorithm config) ivData (textEncode P (c :: r))].
    split.
    + destruct (subtle_encrypt P (algorithm config) ivData cryptoKey
                  (textEncode P (c :: r))); cbn [snd]; now rewrite <- app_assoc.
    + right. split; [reflexivity |]. split; [discriminate |].
      exists keyData, ivData. auto.
  - exists [CallImportKey (algorithm config) keyData]. split; [reflexivity |].
    right. split; [reflexivity |]. split; [discriminate |].
    exists keyData, ivData. auto.
Qed.

(** X11.  The platform calls of [decrypt]: none, unless the parameters
    are valid and the payload decodes; then the import of the decoded key,
    followed, if it succeeds, by one decryption of the decoded payload under
    the decoded IV.  Nothing else is called. *)
Theorem decrypt_platform_calls (config : AESConfig) (encryptedHex keyHex ivHex : jsstring)
    (log : list PlatformCall) :
  exists calls,
    snd (decrypt P config encryptedHex keyHex ivHex log) = log ++ calls
    /\ (calls = []
        \/ validateParameters config keyHex ivHex OpDecrypt = Ok tt
           /\ exists keyData ivData encryptedData,
                CryptoUtils.hexToUint8Array keyHex = Ok keyData
                /\ CryptoUtils.hexToUint8Array ivHex = Ok ivData
                /\ CryptoUtils.hexToUint8Array encryptedHex = Ok encryptedData
                /\ (calls = [CallImportKey (algorithm config) keyData]
                    \/ calls = [CallImportKey (algorithm config) keyData;
                                CallDecrypt (algorithm config) ivData encryptedData])).
Proof.
  unfold decrypt, tryCatch, bind, lift, createCryptoKey, platform, throw, ret.
  destruct (validateParameters config keyHex ivHex OpDecrypt) as [[] | e] eqn:Hv;
    [| exists []; rewrite app_nil_r; auto].
  destruct encryptedHex as [| c r]; cbn [isEmpty];
    [exists []; rewrite app_nil_r; auto |].
  destruct (CryptoUtils.isValidHex (c :: r)) eqn:Hh; cbn [negb];
    [| exists []; rewrite app_nil_r; auto].
  destruct (validated_decodes _ _ _ _ Hv) as (keyData & ivData & Ek & Ei).
  rewrite Ek, Ei, (hexToUint8Array_valid _ Hh).
  destruct (subtle_importKey P (algorithm config) keyData) as [cryptoKey | e].
  - eexists [CallImportKey (algorithm config) keyData;
             CallDecrypt (algorithm config) ivData _].
    split.
    + match goal with |- context [subtle_decrypt ?a ?b ?c ?d ?e] =>
        destruct (subtle_decrypt a b c d e) end; cbn [snd]; now rewrite <- app_assoc.
    + right. split; [reflexivity |]. do 3 eexists. eauto.
  - exists [CallImportKey (algorithm config) keyData]. split; [reflexivity |].
    right. split; [reflexivity |]. do 3 eexists. eauto.
Qed.


Lemma encrypt_Ok_inv (config : AESConfig) (plainText keyHex ivHex hex : jsstring)
    (log log' : list PlatformCall) :
  encrypt P config plainText keyHex ivHex log = (Ok hex, log') ->
  validateParameters config keyHex ivHex OpEncrypt = Ok tt
  /\ plainText <> []
  /\ exists keyData ivData cryptoKey encryptedBuffer,
       CryptoUtils.hexToUint8Array keyHex = Ok keyData
       /\ CryptoUtils.hexToUint8Array ivHex = Ok ivData
       /\ subtle_importKey P (algorithm config) keyData = Ok cryptoKey
       /\ subtle_encrypt P (algorithm config) ivData cryptoKey (textEncode P plainText)
          = Ok encryptedBuffer
       /\ hex = CryptoUtils.uint8ArrayToHex encryptedBuffer
       /\ log' = log ++ [CallImportKey (algorithm config) keyData;
                         CallEncrypt (algorithm config) ivData (textEncode P plainText)].
Proof.
  unfold encrypt, tryCatch, bind, lift, createCryptoKey, platform, throw, ret.
  destruct (validateParameters config keyHex ivHex OpEncrypt) as [[] | e] eqn:Hv;
    [| discriminate].
  destruct plainText as [| c r]; cbn [isEmpty]; [discriminate |].
  destruct (CryptoUtils.hexToUint8Array keyHex) as [keyData | e]; [| discriminate].
  destruct (CryptoUtils.hexToUint8Array ivHex) as [ivData | e]; [| discriminate].
  destruct (subtle_importKey P (algorithm config) keyData) as [cryptoKey | e] eqn:Ek;
    [| discriminate].
  destruct (subtle_encrypt P (algorithm config) ivData cryptoKey (textEncode P (c :: r)))
    as [encryptedBuffer | e] eqn:Ee; [| discriminate].
  intros [= <- <-]. split; [reflexivity |]. split; [discriminate |].
  exists keyData, ivData, cryptoKey, encryptedBuffer.
  rewrite <- app_assoc. auto 10.
Qed.

(** X12.  A string returned by [encrypt] is the hex form of the bytes that
    the platform's encryption returned for the encoded text under the
    imported key and the decoded IV: lower-case hex digits, two for each
    byte. *)
Theorem encrypt_result_hex (config : AESConfig) (plainText keyHex ivHex hex : jsstring)
    (log log' : list PlatformCall) :
  encrypt P config plainText keyHex ivHex log = (Ok hex, log') ->
  Nat.even (length hex) = true
  /\ (forall c, In c hex -> In c Shape.lowerHexAlphabet)
  /\ exists keyData ivData cryptoKey encryptedBuffer,
       CryptoUtils.hexToUint8Array keyHex = Ok keyData
       /\ CryptoUtils.hexToUint8Array ivHex = Ok ivData
       /\ subtle_importKey P (algorithm config) keyData = Ok cryptoKey
       /\ subtle_encrypt P (algorithm config) ivData cryptoKey (textEncode P plainText)
          = Ok encryptedBuffer
       /\ hex = CryptoUtils.uint8ArrayToHex encryptedBuffer
       /\ length hex = 2 * length encryptedBuffer.
Proof.
  intros H. apply encrypt_Ok_inv in H
    as (_ & _ & keyData & ivData & cryptoKey & encryptedBuffer & Ek & Ei & Eimp & Eenc
        & -> & _).
  split; [| split].
  - rewrite uint8ArrayToHex_length. apply Nat.even_spec. now exists (length encryptedBuffer).
  - apply uint8ArrayToHex_lowerHex.
  - exists keyData, ivData, cryptoKey, encryptedBuffer.
    split; [exact Ek |]. split; [exact Ei |]. split; [exact Eimp |].
    split; [exact Eenc |]. split; [reflexivity | apply uint8ArrayToHex_length].
Qed.

(** [decrypt] of what [encrypt] returned, on a platform whose decryption
    inverts its encryption of this text: the string is not empty, holds hex
    digits only, and decrypts to the text. *)
Lemma decrypt_after_encrypt (config : AESConfig)
    (plainText keyHex ivHex hex : jsstring) (log log' : list PlatformCall) :
  (forall ivData cryptoKey encryptedBuffer,
      subtle_encrypt P (algorithm config) ivData cryptoKey (textEncode P plainText)
      = Ok encryptedBuffer ->
      encryptedBuffer <> []
      /\ subtle_decrypt P (algorithm config) ivData cryptoKey encryptedBuffer
         = Ok (textEncode P plainText)) ->
  textDecode P (textEncode P plainText) = plainText ->
  encrypt P config plainText keyHex ivHex log = (Ok hex, log') ->
  hex <> [] /\ forallb isHexDigit hex = true
  /\ forall log2, exists log3,
       decrypt P config hex keyHex ivHex log2 = (Ok plainText, log3).
Proof.
  intros Hlaw Htext H.
  apply encrypt_Ok_inv in H
    as (Hv & _ & keyData & ivData & cryptoKey & encryptedBuffer
        & Ek & Ei & Eimp & Eenc & -> & _).
  destruct (Hlaw _ _ _ Eenc) as [Hne Edec].
  pose proof (uint8ArrayToHex_valid _ Hne) as Hvalid.
  split; [now apply isValidHex_nonempty |]. split; [apply uint8ArrayToHex_hex |].
  intros log2.
  apply (validateParameters_Ok_operation _ _ _ _ OpDecrypt) in Hv.
  unfold decrypt, tryCatch, bind, lift, createCryptoKey, platform, throw, ret.
  rewrite Hv.
  destruct (CryptoUtils.uint8ArrayToHex encryptedBuffer) as [| c r] eqn:Eh;
    [discriminate Hvalid |].
  cbn [isEmpty]. rewrite Hvalid. cbn [negb].
  rewrite Ek, Ei, <- Eh, (hexToUint8Array_uint8ArrayToHex _ Hne), Eimp, Edec.
  rewrite Htext. eauto.
Qed.

(** X13.  Round trip.  If the platform's decryption inverts its encryption
    of the encoded text (whose result is not empty) and the text decoder
    inverts the encoder on this text, then [decrypt], given what [encrypt]
    returned with the same key and IV, returns the text. *)
Theorem decrypt_encrypt (config : AESConfig) (plainText keyHex ivHex hex : jsstring)
    (log log' : list PlatformCall) :
  (forall ivData cryptoKey encryptedBuffer,
      subtle_encrypt P (algorithm config) ivData cryptoKey (textEncode P plainText)
      = Ok encryptedBuffer ->
      encryptedBuffer <> []
      /\ subtle_decrypt P (algorithm config) ivData cryptoKey encryptedBuffer
         = Ok (textEncode P plainText)) ->
  textDecode P (textEncode P plainText) = plainText ->
  encrypt P config plainText keyHex ivHex log = (Ok hex, log') ->
  forall log2, fst (decrypt P config hex keyHex ivHex log2) = Ok plainText.
Proof.
  intros Hlaw Htext H log2.
  destruct (decrypt_after_encrypt _ _ _ _ _ _ _ Hlaw Htext H) as (_ & _ & Hdec).
  destruct (Hdec log2) as [log3 ->]. reflexivity.
Qed.

End CipherEdges.

Lemma missing_key_or_iv_witness :
  AESCrypto.encrypt Scenario.echoPlatform AESCrypto.defaultConfig (js "hello") (js "") Scenario.zeros32 []
  = (Throw (Error (js "Erro na encriptação: Para encriptar, forneça uma chave e IV válidos.")),
     [])
  /\ AESCrypto.decrypt Scenario.echoPlatform AESCrypto.defaultConfig (js "hello") (js "") Scenario.zeros32 []
     = (Throw (Error (js "Erro na decriptação: Para decriptar, forneça uma chave e IV válidos.")),
        []).
Proof.
  apply (missing_key_or_iv Scenario.echoPlatform AESCrypto.defaultConfig (js "hello") (js "")
           Scenario.zeros32 []).
  left. reflexivity.
Defined.


Lemma decrypt_rejects_payload_witness :
  AESCrypto.decrypt Scenario.echoPlatform AESCrypto.defaultConfig (js "")
    Scenario.zeros32 Scenario.zeros32 []
  = (Throw (Error (js "Erro na decriptação: Dados para decriptação não podem estar vazios.")),
     [])
  /\ AESCrypto.decrypt Scenario.echoPlatform AESCrypto.defaultConfig (js "xyz")
       Scenario.zeros32 Scenario.zeros32 []
     = (Throw (Error (js "Erro na decriptação: Dados encriptados devem ser uma string hexadecimal válida.")),
        []).
Proof.
  split.
  - refine (proj1 (decrypt_rejects_payload Scenario.echoPlatform AESCrypto.defaultConfig
                      (js "") Scenario.zeros32 Scenario.zeros32 [] _) _);
      vm_compute; reflexivity.
  - refine (proj2 (decrypt_rejects_payload Scenario.echoPlatform AESCrypto.defaultConfig
                      (js "xyz") Scenario.zeros32 Scenario.zeros32 [] _) _ _);
      vm_compute; [reflexivity | discriminate | reflexivity].
Defined.

Lemma encrypt_result_hex_witness :
  AESCrypto.encrypt Scenario.echoPlatform AESCrypto.defaultConfig (js "hello")
    Scenario.zeros32 Scenario.zeros32 []
  = (Ok (js "68656c6c6f"),
     [ AESCrypto.CallImportKey AESCrypto.AES_CBC (replicate 16 x00);
       AESCrypto.CallEncrypt AESCrypto.AES_CBC (replicate 16 x00)
         [x68; x65; x6c; x6c; x6f] ])
  /\ Nat.even (length (js "68656c6c6f")) = true
  /\ (forall c, In c (js "68656c6c6f") -> In c Shape.lowerHexAlphabet).
Proof.
  assert (H : AESCrypto.encrypt Scenario.echoPlatform AESCrypto.defaultConfig (js "hello")
                Scenario.zeros32 Scenario.zeros32 []
              = (Ok (js "68656c6c6f"),
                 [ AESCrypto.CallImportKey AESCrypto.AES_CBC (replicate 16 x00);
                   AESCrypto.CallEncrypt AESCrypto.AES_CBC (replicate 16 x00)
                     [x68; x65; x6c; x6c; x6f] ]))
    by (vm_compute; reflexivity).
  split; [exact H |].
  destruct (encrypt_result_hex _ _ _ _ _ _ _ _ H) as (H1 & H2 & _).
  split; [exact H1 | exact H2].
Defined.

Lemma decrypt_encrypt_witness :
  fst (AESCrypto.decrypt Scenario.echoPlatform AESCrypto.defaultConfig (js "68656c6c6f")
         Scenario.zeros32 Scenario.zeros32 [])
  = Ok (js "hello").
Proof.
  apply (decrypt_encrypt Scenario.echoPlatform AESCrypto.defaultConfig (js "hello")
           Scenario.zeros32 Scenario.zeros32 (js "68656c6c6f") []
           [ AESCrypto.CallImportKey AESCrypto.AES_CBC (replicate 16 x00);
             AESCrypto.CallEncrypt AESCrypto.AES_CBC (replicate 16 x00)
               [x68; x65; x6c; x6c; x6f] ]).
  - intros ivData cryptoKey encryptedBuffer H. vm_compute in H.
    injection H as <-. split; [discriminate | vm_compute; reflexivity].
  - vm_compute. reflexivity.
  - vm_compute. reflexivity.
Defined.

(* ================================================================== *)
(** ** Further properties of the message queue and of the field writes *)
(* ================================================================== *)

Section PageFacts.

Context {Cb : Type}.
Implicit Types (s : Dom.State Cb) (h : gmap node Element).

(** A node that is not in the heap [h] is an ancestor of no node of [h],
    also after it has been added. *)
Lemma isAncestor_fresh h h' (n : node) :
  (forall x e p, h !! x = Some e -> parentNode e = Some p -> is_Some (h !! p)) ->
  h !! n = None ->
  (forall x, x <> n -> h' !! x = h !! x) ->
  forall fuel x, is_Some (h !! x) -> isAncestor fuel h' n x = false.
Proof.
  intros Hcl Hn Hoff. induction fuel as [| fuel IH]; intros x Hx; [reflexivity |].
  cbn [isAncestor].
  assert (Hxn : x <> n) by (intros ->; rewrite Hn in Hx; now destruct Hx).
  rewrite (Hoff x Hxn). destruct Hx as [e He]. rewrite He.
  destruct (parentNode e) as [p |] eqn:Hp; [| reflexivity].
  pose proof (Hcl x e p He Hp) as Hpin.
  rewrite bool_decide_eq_false_2, IH; [reflexivity | exact Hpin |].
  intros ->. rewrite Hn in Hpin. now destruct Hpin.
Qed.

Lemma filter_all {A} (P : A -> Prop) `{!forall x, Decision (P x)} (l : list A) :
  (forall x, In x l -> P x) -> filter P l = l.
Proof.
  induction l as [| a l IH]; intros Hall; [reflexivity |].
  rewrite filter_cons_True by (apply Hall; now left).
  f_equal. apply IH. intros x Hx. apply Hall. now right.
Qed.

(** Detaching a node that was appended when it was fresh gives back the
    document order. *)
Lemma detach_appended h h0 h' (n p : node) (l : list node) :
  (forall x e q, h !! x = Some e -> parentNode e = Some q -> is_Some (h !! q)) ->
  h !! n = None ->
  (forall x, x <> n -> h' !! x = h !! x) ->
  (forall x, In x l -> is_Some (h !! x)) ->
  In p l ->
  filter (fun x => inSubtree h' n x = false) (insertLastChild h0 p n l) = l.
Proof.
  intros Hcl Hn Hoff Hl Hp.
  destruct (insertLastChild_split h0 p n l Hp) as (l1 & l2 & El & ->).
  assert (Hkeep : forall x, In x l -> inSubtree h' n x = false).
  { intros x Hx. unfold inSubtree.
    rewrite (isAncestor_fresh h h' n Hcl Hn Hoff) by now apply Hl.
    rewrite bool_decide_eq_false_2; [reflexivity |].
    intros ->. apply Hl in Hx. rewrite Hn in Hx. now destruct Hx. }
  rewrite filter_app, filter_cons_False
    by (rewrite inSubtree_root; discriminate).
  rewrite !filter_all; [now symmetry | |];
    intros x Hx; apply Hkeep; rewrite El; apply in_or_app; auto.
Qed.

Lemma closedb_closed s : Page.closedb s = true -> Page.closed s.
Proof.
  unfold Page.closedb, Page.closed. intros H.
  apply andb_true_iff in H as [H1 H2]. rewrite forallb_forall in H1, H2. split.
  - intros x Hx. apply H1 in Hx. now apply bool_decide_eq_true in Hx.
  - intros x e p He Hp.
    assert (Hin : In (x, e) (map_to_list (heap s)))
      by now apply list_elem_of_In, elem_of_map_to_list.
    apply H2 in Hin. cbn [snd] in Hin. rewrite Hp in Hin.
    now apply bool_decide_eq_true in Hin.
Qed.

End PageFacts.

Section ModularLifecycle.

Import UIManager.

Lemma find_none_filter {A} (f : A -> bool) (l : list A) :
  find f l = None -> List.filter f l = [].
Proof.
  intros H. apply filter_nil_intro. intros x Hx. exact (find_none f l H x Hx).
Qed.

Lemma fresh_lookup (h : gmap node Element) : h !! fresh (dom h) = None.
Proof. apply not_elem_of_dom, is_fresh. Qed.

(** X14.  The life of a message in the modular manager.  On a page where
    the report element is attached and no attached element has the new id,
    [addMessage] makes the new element the one that [getElementById] finds
    under the returned id; when its two timers and then the fade-out timer
    have fired (show, automatic removal, detach) no closure has thrown, the
    id is free again, and the document order, the pending timers and every
    node that existed before are as they were before the call. *)
Theorem modular_message_lifecycle (message : jsstring) (type : MessageType) (now : Z)
    (s : UIManager.State) :
  Page.closed s ->
  In (report (elements s)) (order s) ->
  getElementById s (fst (addMessage message type now s)) = None ->
  let messageId := fst (addMessage message type now s) in
  let s1 := snd (addMessage message type now s) in
  let k := length (timers s) in
  getElementById s1 messageId = Some (fresh (dom (heap s)))
  /\ exists s2 s3 s4,
       fireTimer k s1 = Ok s2 /\ fireTimer k s2 = Ok s3 /\ fireTimer k s3 = Ok s4
       /\ getElementById s4 messageId = None
       /\ order s4 = order s /\ timers s4 = timers s
       /\ (forall x, is_Some (heap s !! x) -> heap s4 !! x = heap s !! x).
Proof.
  intros [Hdom Hcl] Hrep Hnone messageId s1 k.
  set (n := fresh (dom (heap s))).
  pose proof (find_none_filter _ _ Hnone) as Hnil.
  destruct (modular_addMessage_sole_element message type now s Hdom Hrep Hnil)
    as [Hsole Hpar].
  fold messageId s1 n in Hsole, Hpar.
  pose proof (filter_singleton_find _ _ _ Hsole) as Hfind1.
  split; [exact Hfind1 |].
  set (T1 := mkTimer 10 (ShowMessage n)).
  set (T2 := mkTimer (calculateMessageDuration (messageConfig s) message)
                     (AutoRemove messageId)).
  assert (E1 : s1 = mkState (elements s) (messageConfig s) (messageCounter s + 1)
                      (heap s1) (order s1) (timers s ++ [T1; T2])).
  { unfold T1, T2, n, messageId.
    rewrite <- (addMessage_timers message type now s). reflexivity. }
  assert (Eo : exists h0, order s1 = insertLastChild h0 (report (elements s)) n (order s))
    by (eexists; reflexivity).
  destruct Eo as [h0 Eo].
  assert (Hoff1 : forall x, x <> n -> heap s1 !! x = heap s !! x).
  { intros x Hx. unfold s1, addMessage. cbn.
    rewrite !lookup_alter_ne, lookup_insert_ne by (fold n; congruence). reflexivity. }
  unfold parentOf in Hpar.
  destruct (heap s1 !! n) as [e1 |] eqn:He1; [| discriminate].
  set (fshow := classList_add (js "show")).
  set (ffade := classList_add (js "fade-out")).
  set (T3 := mkTimer (fadeTimeout (messageConfig s)) (DetachMessage n)).
  set (s2 := mkState (elements s) (messageConfig s) (messageCounter s + 1)
               (alter fshow n (heap s1)) (order s1) (timers s ++ [T2])).
  set (h3 := alter ffade n (alter fshow n (heap s1))).
  set (s3 := mkState (elements s) (messageConfig s) (messageCounter s + 1)
               h3 (order s1) (timers s ++ [T3])).
  set (s4 := mkState (elements s) (messageConfig s) (messageCounter s + 1)
               (alter (set_parentNode None) n h3)
               (filter (fun x => inSubtree h3 n x = false) (order s1))
               (timers s)).
  exists s2, s3, s4.
  assert (F1 : fireTimer k s1 = Ok s2).
  { rewrite E1. unfold fireTimer. cbn [timers].
    rewrite list_lookup_middle by reflexivity. cbn [callback T1 runCallback].
    unfold update, set_timers, set_heap. cbn [elements messageConfig messageCounter heap order timers].
    unfold k. rewrite delete_middle. reflexivity. }
  assert (F2 : fireTimer k s2 = Ok s3).
  { unfold fireTimer, s2. cbn [timers].
    rewrite list_lookup_middle by reflexivity. cbn [callback T2 runCallback].
    unfold k. rewrite delete_middle, app_nil_r.
    unfold removeMessage, getElementById, findById, set_timers.
    cbn [elements messageConfig messageCounter heap order timers].
    rewrite (find_ext_in _ (hasId (heap s1) messageId))
      by (intros x _; apply hasId_alter, classList_add_id).
    unfold getElementById, findById in Hfind1. rewrite Hfind1. reflexivity. }
  assert (F3 : fireTimer k s3 = Ok s4).
  { rewrite (modular_fire_detach_attached k s3 (delay T3) n (report (elements s))
               (ffade (fshow e1))).
    - unfold s3, s4. cbn [elements messageConfig messageCounter heap order timers].
      unfold k. now rewrite delete_middle, app_nil_r.
    - unfold s3. cbn [timers]. now apply list_lookup_middle.
    - unfold s3, h3. cbn [heap]. now rewrite !lookup_alter_eq, He1.
    - unfold ffade, fshow. now rewrite !classList_add_parentNode. }
  assert (Hoff3 : forall x, x <> n -> h3 !! x = heap s !! x).
  { intros x Hx. unfold h3. rewrite !lookup_alter_ne by congruence. now apply Hoff1. }
  assert (Hfresh : forall x, is_Some (heap s !! x) -> x <> n).
  { intros x Hx ->. unfold n in Hx. rewrite fresh_lookup in Hx. now destruct Hx. }
  assert (Eord : order s4 = order s).
  { unfold s4. cbn [order]. rewrite Eo.
    apply (detach_appended (heap s));
      [exact Hcl | apply fresh_lookup | exact Hoff3 | exact Hdom | exact Hrep]. }
  split; [exact F1 |]. split; [exact F2 |]. split; [exact F3 |].
  split; [| split; [exact Eord | split; [reflexivity |]]].
  - unfold getElementById, findById. rewrite Eord. cbn [heap s4].
    rewrite <- Hnone. unfold getElementById, findById.
    apply find_ext_in. intros x Hx. apply Hdom, Hfresh in Hx.
    unfold hasId. rewrite lookup_alter_ne, Hoff3 by congruence. reflexivity.
  - intros x Hx. apply Hfresh in Hx. cbn [heap s4].
    rewrite lookup_alter_ne, Hoff3 by congruence. reflexivity.
Qed.

End ModularLifecycle.

Lemma modular_message_lifecycle_witness :
  let messageId := fst (UIManager.addMessage (js "ok") success Scenario.now
                          Scenario.modularPage) in
  let s1 := snd (UIManager.addMessage (js "ok") success Scenario.now
                   Scenario.modularPage) in
  let k := length (timers Scenario.modularPage) in
  getElementById s1 messageId = Some (fresh (dom (heap Scenario.modularPage)))
  /\ exists s2 s3 s4,
       UIManager.fireTimer k s1 = Ok s2 /\ UIManager.fireTimer k s2 = Ok s3
       /\ UIManager.fireTimer k s3 = Ok s4
       /\ getElementById s4 messageId = None
       /\ order s4 = order Scenario.modularPage
       /\ timers s4 = timers Scenario.modularPage
       /\ (forall x, is_Some (heap Scenario.modularPage !! x) ->
                     heap s4 !! x = heap Scenario.modularPage !! x).
Proof.
  apply (modular_message_lifecycle (js "ok") success Scenario.now Scenario.modularPage).
  - apply closedb_closed. vm_compute. reflexivity.
  - vm_compute. tauto.
  - vm_compute. reflexivity.
Defined.

Section LegacyLifecycle.

Import Legacy.

(** X15.  The same life of a message in the main script: after the fade-in
    timer, the automatic removal and the detach timer have fired, no
    closure has thrown, the id is free again, and the document order, the
    pending timers and every node that existed before are as before. *)
Theorem legacy_message_lifecycle (message : jsstring) (type : MessageType) (now : Z)
    (s : Legacy.State) :
  Page.closed s ->
  In (report (elements s)) (order s) ->
  getElementById s (fst (addMessage message type now s)) = None ->
  let messageId := fst (addMessage message type now s) in
  let s1 := snd (addMessage message type now s) in
  let k := length (timers s) in
  getElementById s1 messageId = Some (fresh (dom (heap s)))
  /\ exists s2 s3 s4,
       fireTimer k s1 = Ok s2 /\ fireTimer k s2 = Ok s3 /\ fireTimer k s3 = Ok s4
       /\ getElementById s4 messageId = None
       /\ order s4 = order s /\ timers s4 = timers s
       /\ (forall x, is_Some (heap s !! x) -> heap s4 !! x = heap s !! x).
Proof.
  intros [Hdom Hcl] Hrep Hnone messageId s1 k.
  set (n := fresh (dom (heap s))).
  pose proof (find_none_filter _ _ Hnone) as Hnil.
  destruct (legacy_addMessage_sole_element message type now s Hdom Hrep Hnil)
    as [Hsole Hpar].
  fold messageId s1 n in Hsole, Hpar.
  pose proof (filter_singleton_find _ _ _ Hsole) as Hfind1.
  split; [exact Hfind1 |].
  set (T1 := mkTimer 10 (FadeIn n)).
  set (T2 := mkTimer (baseDuration (messageConfig s)
                      + Z.of_nat (length message) * durationFactor (messageConfig s))
                     (AutoRemove messageId)).
  assert (E1 : s1 = mkState (elements s) (messageConfig s) (messageCounter s + 1)
                      (heap s1) (order s1) (timers s ++ [T1; T2])).
  { unfold T1, T2, n, messageId.
    rewrite <- (legacy_addMessage_timers message type now s). reflexivity. }
  assert (Eo : exists h0, order s1 = insertLastChild h0 (report (elements s)) n (order s))
    by (eexists; reflexivity).
  destruct Eo as [h0 Eo].
  assert (Hoff1 : forall x, x <> n -> heap s1 !! x = heap s !! x).
  { intros x Hx. unfold s1, addMessage. cbn.
    rewrite !lookup_alter_ne, lookup_insert_ne by (fold n; congruence). reflexivity. }
  unfold parentOf in Hpar.
  destruct (heap s1 !! n) as [e1 |] eqn:He1; [| discriminate].
  set (fshow := set_opacity (js "1")).
  set (ffade := set_opacity (js "0")).
  set (T3 := mkTimer (fadeTimeout (messageConfig s)) (DetachMessage n)).
  set (s2 := mkState (elements s) (messageConfig s) (messageCounter s + 1)
               (alter fshow n (heap s1)) (order s1) (timers s ++ [T2])).
  set (h3 := alter ffade n (alter fshow n (heap s1))).
  set (s3 := mkState (elements s) (messageConfig s) (messageCounter s + 1)
               h3 (order s1) (timers s ++ [T3])).
  set (s4 := mkState (elements s) (messageConfig s) (messageCounter s + 1)
               (alter (set_parentNode None) n h3)
               (filter (fun x => inSubtree h3 n x = false) (order s1))
               (timers s)).
  exists s2, s3, s4.
  assert (F1 : fireTimer k s1 = Ok s2).
  { rewrite E1. unfold fireTimer. cbn [timers].
    rewrite list_lookup_middle by reflexivity. cbn [callback T1 runCallback].
    unfold update, set_timers, set_heap.
    cbn [elements messageConfig messageCounter heap order timers].
    unfold k. rewrite delete_middle. reflexivity. }
  assert (F2 : fireTimer k s2 = Ok s3).
  { unfold fireTimer, s2. cbn [timers].
    rewrite list_lookup_middle by reflexivity. cbn [callback T2 runCallback].
    unfold k. rewrite delete_middle, app_nil_r.
    unfold removeMessage, getElementById, findById, set_timers.
    cbn [elements messageConfig messageCounter heap order timers].
    rewrite (find_ext_in _ (hasId (heap s1) messageId))
      by (intros x _; now apply hasId_alter).
    unfold getElementById, findById in Hfind1. rewrite Hfind1. reflexivity. }
  assert (F3 : fireTimer k s3 = Ok s4).
  { rewrite (legacy_fire_detach_attached k s3 (delay T3) n (report (elements s))
               (ffade (fshow e1))).
    - unfold s3, s4. cbn [elements messageConfig messageCounter heap order timers].
      unfold k. now rewrite delete_middle, app_nil_r.
    - unfold s3. cbn [timers]. now apply list_lookup_middle.
    - unfold s3, h3. cbn [heap]. now rewrite !lookup_alter_eq, He1.
    - exact Hpar. }
  assert (Hoff3 : forall x, x <> n -> h3 !! x = heap s !! x).
  { intros x Hx. unfold h3. rewrite !lookup_alter_ne by congruence. now apply Hoff1. }
  assert (Hfresh : forall x, is_Some (heap s !! x) -> x <> n).
  { intros x Hx ->. unfold n in Hx. rewrite fresh_lookup in Hx. now destruct Hx. }
  assert (Eord : order s4 = order s).
  { unfold s4. cbn [order]. rewrite Eo.
    apply (detach_appended (heap s));
      [exact Hcl | apply fresh_lookup | exact Hoff3 | exact Hdom | exact Hrep]. }
  split; [exact F1 |]. split; [exact F2 |]. split; [exact F3 |].
  split; [| split; [exact Eord | split; [reflexivity |]]].
  - unfold getElementById, findById. rewrite Eord. cbn [heap s4].
    rewrite <- Hnone. unfold getElementById, findById.
    apply find_ext_in. intros x Hx. apply Hdom, Hfresh in Hx.
    unfold hasId. rewrite lookup_alter_ne, Hoff3 by congruence. reflexivity.
  - intros x Hx. apply Hfresh in Hx. cbn [heap s4].
    rewrite lookup_alter_ne, Hoff3 by congruence. reflexivity.
Qed.

End LegacyLifecycle.

Lemma legacy_message_lifecycle_witness :
  let messageId := fst (Legacy.addMessage (js "ok") success Scenario.now
                          Scenario.legacyPage) in
  let s1 := snd (Legacy.addMessage (js "ok") success Scenario.now
                   Scenario.legacyPage) in
  let k := length (timers Scenario.legacyPage) in
  getElementById s1 messageId = Some (fresh (dom (heap Scenario.legacyPage)))
  /\ exists s2 s3 s4,
       Legacy.fireTimer k s1 = Ok s2 /\ Legacy.fireTimer k s2 = Ok s3
       /\ Legacy.fireTimer k s3 = Ok s4
       /\ getElementById s4 messageId = None
       /\ order s4 = order Scenario.legacyPage
       /\ timers s4 = timers Scenario.legacyPage
       /\ (forall x, is_Some (heap Scenario.legacyPage !! x) ->
                     heap s4 !! x = heap Scenario.legacyPage !! x).
Proof.
  apply (legacy_message_lifecycle (js "ok") success Scenario.now Scenario.legacyPage).
  - apply closedb_closed. vm_compute. reflexivity.
  - vm_compute. tauto.
  - vm_compute. reflexivity.
Defined.

(** X16.  No closure that the managers give to [setTimeout] throws, in any
    state and whichever timer fires: the closure that detaches a message
    calls [removeChild] only on the parent that the element has at that
    moment, so that a message removed twice, or removed by hand before its
    timer, raises nothing. *)
Theorem timers_never_throw :
  (forall (k : nat) (s : UIManager.State), exists s', UIManager.fireTimer k s = Ok s')
  /\ (forall (k : nat) (s : Legacy.State), exists s', Legacy.fireTimer k s = Ok s').
Proof.
  assert (Hdetach : forall Cb (s : Dom.State Cb) (el : node),
             exists s',
               match parentOf s el with
               | Some parent => removeChild parent el s
               | None => Ok s
               end = Ok s').
  { intros Cb s el. unfold parentOf, removeChild.
    destruct (_ !! el) as [e |] eqn:He; [| eauto].
    destruct (parentNode e) as [p |] eqn:Hp; [| eauto].
    rewrite bool_decide_eq_true_2 by reflexivity. eauto. }
  split; intros k s.
  - unfold UIManager.fireTimer. destruct (timers s !! k) as [[d cb] |]; [| eauto].
    cbn [callback]. destruct cb; cbn [UIManager.runCallback]; eauto.
  - unfold Legacy.fireTimer. destruct (timers s !! k) as [[d cb] |]; [| eauto].
    cbn [callback]. destruct cb; cbn [Legacy.runCallback]; eauto.
Qed.

Section DurationFacts.

Lemma split_length (sep : N) (s : jsstring) :
  length (split sep s) = S (count_occ N.eq_dec s sep).
Proof.
  induction s as [| c r IH]; [reflexivity |].
  cbn [split count_occ].
  destruct (N.eqb_spec c sep) as [-> | Hne].
  - destruct (N.eq_dec sep sep); [| congruence]. cbn [length]. now rewrite IH.
  - destruct (N.eq_dec c sep); [congruence |].
    destruct (split sep r) as [| p ps]; [discriminate IH | exact IH].
Qed.

(** X17.  The words-based duration of the modular manager is never below
    [baseDuration]; with a non-negative factor it is [baseDuration] plus the
    factor times one more than the number of spaces of the message (the
    empty message counts as one word), and with a negative factor it is
    [baseDuration]. *)
Theorem modular_duration (config : MessageConfig) (message : jsstring) :
  (baseDuration config <= UIManager.calculateMessageDuration config message)%Z
  /\ ((0 <= durationFactor config)%Z ->
      UIManager.calculateMessageDuration config message
      = (baseDuration config
         + (1 + Z.of_nat (count_occ N.eq_dec message 32%N)) * durationFactor config)%Z)
  /\ ((durationFactor config < 0)%Z ->
      UIManager.calculateMessageDuration config message = baseDuration config).
Proof.
  unfold UIManager.calculateMessageDuration. rewrite split_length.
  split; [lia |]. split; intros H; nia.
Qed.

Lemma modular_duration_witness :
  (baseDuration UIManager.defaultMessageConfig
   <= UIManager.calculateMessageDuration UIManager.defaultMessageConfig
        (js "Dados encriptados com sucesso!"))%Z
  /\ UIManager.calculateMessageDuration UIManager.defaultMessageConfig
       (js "Dados encriptados com sucesso!") = 3200%Z
  /\ UIManager.calculateMessageDuration (mkMessageConfig 3000 (-50) 300)
       (js "Dados encriptados com sucesso!") = 3000%Z.
Proof.
  split; [apply (modular_duration UIManager.defaultMessageConfig) |]. split.
  - apply (proj1 (proj2 (modular_duration UIManager.defaultMessageConfig
                           (js "Dados encriptados com sucesso!")))).
    vm_compute. discriminate.
  - apply (proj2 (proj2 (modular_duration (mkMessageConfig 3000 (-50) 300)
                           (js "Dados encriptados com sucesso!")))).
    vm_compute. reflexivity.
Defined.

End DurationFacts.

(** X19.  [initializeElements] of the main script returns a table whose
    eight entries are the elements that [getElementById] finds under the
    eight ids; it throws when an id is missing, and the error then names the
    first missing id in the order of the table. *)
Theorem initializeElements_result (h : gmap node Element) (ord : list node) :
  match Legacy.initializeElements h ord with
  | Ok els =>
      map (findById h ord) Legacy.elementIds
      = map Some [ generateKey els; encryptButton els; decryptButton els; aesKey els;
                   iv els; encryptInput els; decryptInput els; report els ]
  | Throw e =>
      exists found i rest,
        Legacy.elementIds = found ++ i :: rest
        /\ Forall (fun j => is_Some (findById h ord j)) found
        /\ findById h ord i = None
        /\ e = Error (js "Elemento com ID '" ++ i ++ js "' não encontrado")
  end.
Proof.
  unfold Legacy.initializeElements.
  destruct (findById h ord (js "generateKey")) as [e1 |] eqn:E1;
    [| exists [], (js "generateKey"); eexists; repeat split; auto].
  destruct (findById h ord (js "encryptButton")) as [e2 |] eqn:E2;
    [| exists [js "generateKey"], (js "encryptButton"); eexists;
       repeat split; auto 10 using Forall_cons, Forall_nil].
  destruct (findById h ord (js "decryptButton")) as [e3 |] eqn:E3;
    [| exists [js "generateKey"; js "encryptButton"], (js "decryptButton"); eexists;
       repeat split; auto 10 using Forall_cons, Forall_nil].
  destruct (findById h ord (js "aesKey")) as [e4 |] eqn:E4;
    [| exists [js "generateKey"; js "encryptButton"; js "decryptButton"], (js "aesKey");
       eexists; repeat split; auto 10 using Forall_cons, Forall_nil].
  destruct (findById h ord (js "iv")) as [e5 |] eqn:E5;
    [| exists [js "generateKey"; js "encryptButton"; js "decryptButton"; js "aesKey"],
         (js "iv");
       eexists; repeat split; auto 10 using Forall_cons, Forall_nil].
  destruct (findById h ord (js "encryptInput")) as [e6 |] eqn:E6;
    [| exists [js "generateKey"; js "encryptButton"; js "decryptButton"; js "aesKey";
               js "iv"], (js "encryptInput");
       eexists; repeat split; auto 10 using Forall_cons, Forall_nil].
  destruct (findById h ord (js "decryptInput")) as [e7 |] eqn:E7;
    [| exists [js "generateKey"; js "encryptButton"; js "decryptButton"; js "aesKey";
               js "iv"; js "encryptInput"], (js "decryptInput");
       eexists; repeat split; auto 12 using Forall_cons, Forall_nil].
  destruct (findById h ord (js "report")) as [e8 |] eqn:E8;
    [| exists [js "generateKey"; js "encryptButton"; js "decryptButton"; js "aesKey";
               js "iv"; js "encryptInput"; js "decryptInput"], (js "report");
       eexists; repeat split; auto 12 using Forall_cons, Forall_nil].
  unfold Legacy.elementIds. cbn [map aesKey iv generateKey encryptButton decryptButton
                                 encryptInput decryptInput report].
  now rewrite E1, E2, E3, E4, E5, E6, E7, E8.
Qed.

(* ================================================================== *)
(** ** Random key material and the decoder of the main script *)
(* ================================================================== *)

Section KeyMaterialFacts.

Import AESCrypto.

Variable entropy : nat -> byte.
Variable faultMessage : KeyMaterial.PlatformFault -> jsstring.

(** The hex string of the [n] bytes drawn after [used] bytes. *)
Lemma generateRandomIV_integer (n : Z) (used : nat) :
  (0 <= n <= 65536)%Z ->
  KeyMaterial.generateRandomIV entropy faultMessage (Some (inject_Z n)) used
  = (Ok (CryptoUtils.uint8ArrayToHex (map entropy (seq used (Z.to_nat n)))),
     used + Z.to_nat n).
Proof.
  intros Hn. unfold KeyMaterial.generateRandomIV, KeyMaterial.newUint8Array.
  unfold default. cbn [from_option id inject_Z Qnum Qden]. rewrite Z.quot_1_r.
  replace ((n <? 0) || (2 ^ 53 - 1 <? n))%Z with false
    by (symmetry; apply orb_false_iff; split; apply Z.ltb_ge; lia).
  cbv beta iota. unfold KeyMaterial.getRandomValues. rewrite length_replicate.
  replace (65536 <? Z.of_nat (Z.to_nat n))%Z with false
    by (symmetry; apply Z.ltb_ge; lia).
  reflexivity.
Qed.

Lemma generateRandomKey_bits (bits : Z) (used : nat) :
  bits = 128%Z \/ bits = 192%Z \/ bits = 256%Z ->
  KeyMaterial.generateRandomKey entropy faultMessage (Some (Qmake bits 8)) used
  = (Ok (CryptoUtils.uint8ArrayToHex (map entropy (seq used (Z.to_nat (bits / 8))))),
     used + Z.to_nat (bits / 8)).
Proof.
  intros [-> | [-> | ->]]; reflexivity.
Qed.

(** Hex strings of key material of the right sizes pass the validator. *)
Lemma bytes_hex_valid (config : AESConfig) (keyBytes ivBytes : list byte)
    (operation : CryptoOperation) :
  length keyBytes = 16 \/ length keyBytes = 24 \/ length keyBytes = 32 ->
  Z.of_nat (length ivBytes) = ivLength config -> ivBytes <> [] ->
  validateParameters config (CryptoUtils.uint8ArrayToHex keyBytes)
    (CryptoUtils.uint8ArrayToHex ivBytes) operation = Ok tt.
Proof.
  intros Lk Li Ni.
  assert (Nk : keyBytes <> []) by (intros E; rewrite E in Lk; cbn in Lk; lia).
  apply validateParameters_Ok.
  pose proof (uint8ArrayToHex_length keyBytes) as Hlk.
  pose proof (uint8ArrayToHex_length ivBytes) as Hli.
  split; [intros E; rewrite E in Hlk; cbn in Hlk; lia |].
  split; [intros E; rewrite E in Hli; cbn in Hli; destruct ivBytes; [congruence | cbn in Hli; lia] |].
  split; [now apply uint8ArrayToHex_valid |].
  split; [now apply uint8ArrayToHex_valid |].
  split; [apply isValidKeySize_length; lia | apply isValidIVSize_length; lia].
Qed.

Lemma generateKeyAndIV_drawn (config : AESConfig) (used : nat) :
  keyLength config = 128%Z \/ keyLength config = 192%Z \/ keyLength config = 256%Z ->
  (0 <= ivLength config <= 65536)%Z ->
  KeyMaterial.generateKeyAndIV entropy faultMessage config used
  = (Ok (CryptoUtils.uint8ArrayToHex
           (map entropy (seq used (Z.to_nat (keyLength config / 8)))),
         CryptoUtils.uint8ArrayToHex
           (map entropy (seq (used + Z.to_nat (keyLength config / 8))
                             (Z.to_nat (ivLength config))))),
     used + Z.to_nat (keyLength config / 8) + Z.to_nat (ivLength config)).
Proof.
  intros Hk Hi. unfold KeyMaterial.generateKeyAndIV.
  rewrite (generateRandomKey_bits _ _ Hk).
  now rewrite generateRandomIV_integer by lia.
Qed.

Lemma drawn_length (used n : nat) : length (map entropy (seq used n)) = n.
Proof. now rewrite length_map, length_seq. Qed.

(** X20.  For a key length of 128, 192 or 256 bits and an IV length between
    1 and 65536 bytes, [generateKeyAndIV] returns the hex strings of the
    next random bytes, first those of the key and then those of the IV;
    [validateParameters] accepts the pair under the same configuration, and
    [hexToUint8Array] gives the random bytes back. *)
Theorem generateKeyAndIV_valid (config : AESConfig) (used : nat)
    (operation : CryptoOperation) :
  keyLength config = 128%Z \/ keyLength config = 192%Z \/ keyLength config = 256%Z ->
  (0 < ivLength config <= 65536)%Z ->
  let keyBytes := map entropy (seq used (Z.to_nat (keyLength config / 8))) in
  let ivBytes := map entropy (seq (used + length keyBytes) (Z.to_nat (ivLength config))) in
  KeyMaterial.generateKeyAndIV entropy faultMessage config used
  = (Ok (CryptoUtils.uint8ArrayToHex keyBytes, CryptoUtils.uint8ArrayToHex ivBytes),
     used + length keyBytes + length ivBytes)
  /\ validateParameters config (CryptoUtils.uint8ArrayToHex keyBytes)
       (CryptoUtils.uint8ArrayToHex ivBytes) operation = Ok tt
  /\ CryptoUtils.hexToUint8Array (CryptoUtils.uint8ArrayToHex keyBytes) = Ok keyBytes
  /\ CryptoUtils.hexToUint8Array (CryptoUtils.uint8ArrayToHex ivBytes) = Ok ivBytes.
Proof.
  intros Hk Hi keyBytes ivBytes.
  assert (Lk : length keyBytes = Z.to_nat (keyLength config / 8)) by apply drawn_length.
  assert (Li : length ivBytes = Z.to_nat (ivLength config)) by apply drawn_length.
  assert (Lk' : length keyBytes = 16 \/ length keyBytes = 24 \/ length keyBytes = 32)
    by (rewrite Lk; destruct Hk as [-> | [-> | ->]]; cbn; auto).
  assert (Nk : keyBytes <> []) by (intros E; rewrite E in Lk'; cbn in Lk'; lia).
  assert (Ni : ivBytes <> []) by (intros E; rewrite E in Li; cbn in Li; lia).
  split; [| split; [| split]].
  - rewrite generateKeyAndIV_drawn by (auto; lia).
    rewrite Li, Lk. unfold ivBytes. rewrite Lk. reflexivity.
  - apply bytes_hex_valid; [exact Lk' | lia | exact Ni].
  - now apply hexToUint8Array_uint8ArrayToHex.
  - now apply hexToUint8Array_uint8ArrayToHex.
Qed.

Variable P : Platform.

(** [encryptWithResult] once the IV is chosen. *)
Lemma encryptWithResult_after_iv (config : AESConfig) (plainText keyHex actualIV : jsstring)
    (log : list PlatformCall) :
  match encrypt P config plainText keyHex actualIV log with
  | (Ok hex, log') =>
      hex <> [] ->
      exists encryptedData ivData,
        hex = CryptoUtils.uint8ArrayToHex encryptedData
        /\ CryptoUtils.hexToUint8Array hex = Ok encryptedData
        /\ CryptoUtils.hexToUint8Array actualIV = Ok ivData
        /\ exists keyData,
             log' = log ++ [CallImportKey (algorithm config) keyData;
                            CallEncrypt (algorithm config) ivData
                                        (textEncode P plainText)]
  | (Throw e, log') => True
  end.
Proof.
  destruct (encrypt P config plainText keyHex actualIV log) as [[hex | e] log'] eqn:E;
    [| exact I].
  intros Hne.
  apply encrypt_Ok_inv in E
    as (_ & _ & keyData & ivData & cryptoKey & encryptedBuffer & _ & Ei & _ & _ & -> & ->).
  exists encryptedBuffer, ivData. split; [reflexivity |].
  split; [| split; [exact Ei | now exists keyData]].
  apply hexToUint8Array_uint8ArrayToHex. intros ->. now apply Hne.
Qed.

(** X21.  [encryptWithResult] encrypts under the IV it is given, or, when the
    IV is omitted or empty, under the hex string of [ivLength] fresh random
    bytes.  It fails exactly as [encrypt] fails, with the same error; when
    [encrypt] returns a non-empty string it returns the bytes of that string
    and, as [iv], the bytes of the IV that the platform's encryption was
    called with. *)
Theorem encryptWithResult_iv (config : AESConfig) (plainText keyHex : jsstring)
    (ivHex : option jsstring) (used : nat) (log : list PlatformCall) :
  let result :=
    KeyMaterial.encryptWithResult entropy faultMessage P config plainText keyHex
      ivHex used log in
  let outcome (actualIV : jsstring) (used' : nat) :=
    match encrypt P config plainText keyHex actualIV log with
    | (Ok hex, log') =>
        hex <> [] ->
        exists encryptedData ivData,
          result = (Ok (encryptedData, ivData), used', log')
          /\ hex = CryptoUtils.uint8ArrayToHex encryptedData
          /\ CryptoUtils.hexToUint8Array actualIV = Ok ivData
          /\ exists keyData,
               log' = log ++ [CallImportKey (algorithm config) keyData;
                              CallEncrypt (algorithm config) ivData
                                          (textEncode P plainText)]
    | (Throw e, log') => result = (Throw e, used', log')
    end in
  (forall c r, ivHex = Some (c :: r) -> outcome (c :: r) used)
  /\ (ivHex = None \/ ivHex = Some [] ->
      (0 <= ivLength config <= 65536)%Z ->
      outcome
        (CryptoUtils.uint8ArrayToHex (map entropy (seq used (Z.to_nat (ivLength config)))))
        (used + Z.to_nat (ivLength config))).
Proof.
  intros result outcome.
  assert (Hgen : forall actualIV used',
             (match ivHex with
              | Some (c :: r) => (Ok (c :: r), used)
              | _ => KeyMaterial.generateRandomIV entropy faultMessage
                       (Some (inject_Z (ivLength config))) used
              end) = (Ok actualIV, used') ->
             outcome actualIV used').
  { intros actualIV used' Hiv. unfold outcome, result, KeyMaterial.encryptWithResult.
    rewrite Hiv.
    pose proof (encryptWithResult_after_iv config plainText keyHex actualIV log) as H.
    destruct (encrypt P config plainText keyHex actualIV log) as [[hex | e] log'];
      [| reflexivity].
    intros Hne. destruct (H Hne) as (encryptedData & ivData & E1 & E2 & E3 & E4).
    exists encryptedData, ivData. rewrite E2, E3. auto. }
  split.
  - intros c r ->. now apply Hgen.
  - intros Hiv Hr. apply Hgen.
    destruct Hiv as [-> | ->]; now apply generateRandomIV_integer.
Qed.

End KeyMaterialFacts.

Lemma generateKeyAndIV_valid_witness :
  KeyMaterial.generateKeyAndIV Fixture.countingEntropy Fixture.engineMessage
    AESCrypto.defaultConfig 0
  = (Ok (js "000102030405060708090a0b0c0d0e0f", js "101112131415161718191a1b1c1d1e1f"), 32)
  /\ AESCrypto.validateParameters AESCrypto.defaultConfig
       (js "000102030405060708090a0b0c0d0e0f") (js "101112131415161718191a1b1c1d1e1f")
       AESCrypto.OpEncrypt = Ok tt.
Proof.
  destruct (generateKeyAndIV_valid Fixture.countingEntropy Fixture.engineMessage
              AESCrypto.defaultConfig 0 AESCrypto.OpEncrypt)
    as (H1 & H2 & _); [now left | vm_compute; split; congruence |].
  split; [exact H1 | exact H2].
Defined.

Lemma encryptWithResult_iv_witness :
  exists encryptedData ivData,
    KeyMaterial.encryptWithResult Fixture.countingEntropy Fixture.engineMessage
      Scenario.echoPlatform AESCrypto.defaultConfig (js "hello") Scenario.zeros32 None 0 []
    = (Ok (encryptedData, ivData), 16,
       [ AESCrypto.CallImportKey AESCrypto.AES_CBC (replicate 16 x00);
         AESCrypto.CallEncrypt AESCrypto.AES_CBC
           [x00; x01; x02; x03; x04; x05; x06; x07; x08; x09; x0a; x0b; x0c; x0d; x0e; x0f]
           [x68; x65; x6c; x6c; x6f] ])
    /\ js "68656c6c6f" = CryptoUtils.uint8ArrayToHex encryptedData
    /\ CryptoUtils.hexToUint8Array (js "000102030405060708090a0b0c0d0e0f") = Ok ivData.
Proof.
  pose proof (proj2 (encryptWithResult_iv Fixture.countingEntropy Fixture.engineMessage
                       Scenario.echoPlatform AESCrypto.defaultConfig (js "hello")
                       Scenario.zeros32 None 0 [])) as H.
  cbv zeta in H.
  specialize (H (or_introl eq_refl)).
  assert (Hr : (0 <= AESCrypto.ivLength AESCrypto.defaultConfig <= 65536)%Z)
    by (vm_compute; split; congruence).
  specialize (H Hr). cbv beta in H.
  match type of H with
  | context [AESCrypto.encrypt ?a ?b ?c ?d ?e ?f] =>
      assert (He : AESCrypto.encrypt a b c d e f
                   = (Ok (js "68656c6c6f"),
                        [ AESCrypto.CallImportKey AESCrypto.AES_CBC (replicate 16 x00);
                          AESCrypto.CallEncrypt AESCrypto.AES_CBC
                            [x00; x01; x02; x03; x04; x05; x06; x07; x08; x09; x0a; x0b;
                             x0c; x0d; x0e; x0f]
                            [x68; x65; x6c; x6c; x6f] ]))
        by (vm_compute; reflexivity);
      rewrite He in H
  end.
  destruct H as (encryptedData & ivData & H1 & H2 & H3 & _); [discriminate |].
  exists encryptedData, ivData. split; [exact H1 |]. split; [exact H2 | exact H3].
Defined.

Section LegacyCodecFacts.

Lemma hexDigit_not_lineTerminator (c : N) :
  isHexDigit c = true -> LegacyCryptoUtils.isLineTerminator c = false.
Proof.
  intros H. pose (p := fun c => implb (isHexDigit c)
                                  (negb (LegacyCryptoUtils.isLineTerminator c))).
  assert (Hp : p c = true)
    by (apply (N_forall_below p 103); [vm_compute; reflexivity | now apply isHexDigit_bound]).
  unfold p in Hp. rewrite H in Hp. cbn [implb] in Hp. now apply negb_true_iff in Hp.
Qed.

(** On an even number of hex digits the matches are the pairs. *)
Lemma matchPairs_decode (n : nat) :
  forall s, length s <= n -> forallb isHexDigit s = true ->
            Nat.even (length s) = true ->
            map (fun byte => toUint8 (parseInt16 byte)) (LegacyCryptoUtils.matchPairs s)
            = Spec.decodePairs s.
Proof.
  induction n as [| n IH]; intros s Hn Hh He.
  - destruct s; [reflexivity | cbn in Hn; lia].
  - destruct s as [| a [| b r]]; [reflexivity | discriminate He |].
    cbn [forallb] in Hh. apply andb_true_iff in Hh as [Ha Hh].
    apply andb_true_iff in Hh as [Hb Hh].
    cbn [LegacyCryptoUtils.matchPairs].
    rewrite (hexDigit_not_lineTerminator a Ha), (hexDigit_not_lineTerminator b Hb).
    cbn [map Spec.decodePairs]. rewrite (parse_pair a b Ha Hb). f_equal.
    apply IH; [cbn [length] in Hn; lia | exact Hh |].
    cbn [length] in He. now rewrite Nat.even_succ_succ in He.
Qed.

Lemma legacy_isValidHex_split (h : jsstring) :
  Legacy.isValidHex h = forallb isHexDigit h && Nat.even (length h).
Proof. unfold Legacy.isValidHex. now rewrite mod2_even. Qed.

(** The three outcomes of the decoder of the main script. *)
Lemma legacy_hexToUint8Array_cases (hexString : jsstring) :
  LegacyCryptoUtils.hexToUint8Array hexString
  = if AESCrypto.isEmpty hexString then
      Throw (Error (js "String hexadecimal não pode estar vazia"))
    else if forallb isHexDigit hexString && Nat.even (length hexString) then
      Ok (Spec.decodePairs hexString)
    else Throw (Error (js "String hexadecimal inválida")).
Proof.
  unfold LegacyCryptoUtils.hexToUint8Array. rewrite legacy_isValidHex_split.
  destruct hexString as [| a r]; [reflexivity |]. cbn [AESCrypto.isEmpty].
  destruct (forallb isHexDigit (a :: r) && Nat.even (length (a :: r))) eqn:E;
    [| reflexivity].
  cbn [negb]. apply andb_true_iff in E as [Hh He].
  rewrite <- (matchPairs_decode (length (a :: r)) (a :: r)) by auto.
  destruct r as [| b r]; [discriminate He |].
  cbn [forallb] in Hh. apply andb_true_iff in Hh as [Ha Hh].
  apply andb_true_iff in Hh as [Hb Hh].
  cbn [LegacyCryptoUtils.matchPairs].
  now rewrite (hexDigit_not_lineTerminator a Ha), (hexDigit_not_lineTerminator b Hb).
Qed.

(** In the main script, decoding the hex form of a byte array gives the
    array back, except for the empty array, whose hex form, the empty
    string, is rejected. *)
Lemma legacy_hex_roundtrip (array : list byte) :
  LegacyCryptoUtils.hexToUint8Array (LegacyCryptoUtils.uint8ArrayToHex array)
  = match array with
    | [] => Throw (Error (js "String hexadecimal não pode estar vazia"))
    | _ :: _ => Ok array
    end.
Proof.
  rewrite legacy_hexToUint8Array_cases.
  change (LegacyCryptoUtils.uint8ArrayToHex array) with (CryptoUtils.uint8ArrayToHex array).
  pose proof (uint8ArrayToHex_length array) as Hl.
  destruct array as [| x array]; [reflexivity |].
  assert (Hne : AESCrypto.isEmpty (CryptoUtils.uint8ArrayToHex (x :: array)) = false)
    by (destruct (CryptoUtils.uint8ArrayToHex (x :: array)); [cbn in Hl; lia | reflexivity]).
  rewrite Hne, uint8ArrayToHex_hex, Hl.
  replace (Nat.even (2 * length (x :: array))) with true
    by (symmetry; apply Nat.even_spec; now exists (length (x :: array))).
  cbn [andb]. now rewrite decodePairs_uint8ArrayToHex.
Qed.

(** X22.  The decoder of the main script: the empty string is rejected with
    its own message; a string of an even number of hex digits is decoded
    pair by pair; every other string is rejected as invalid.  The third
    error of the function ("Formato hexadecimal inválido") is never
    thrown.  Decoding the hex form of a byte array gives the array back,
    except for the empty array, whose hex form is the empty string. *)
Theorem legacy_hexToUint8Array_result (hexString : jsstring) :
  (forall bytes,
      LegacyCryptoUtils.hexToUint8Array hexString = Ok bytes
      <-> hexString <> []
          /\ (forall c, In c hexString -> In c Spec.hexAlphabet)
          /\ Nat.even (length hexString) = true
          /\ bytes = Spec.decodePairs hexString)
  /\ (LegacyCryptoUtils.hexToUint8Array hexString
      = Throw (Error (js "String hexadecimal não pode estar vazia"))
      <-> hexString = [])
  /\ (forall e,
         LegacyCryptoUtils.hexToUint8Array hexString = Throw e ->
         hexString <> [] ->
         e = Error (js "String hexadecimal inválida"))
  /\ (forall array,
         LegacyCryptoUtils.hexToUint8Array (LegacyCryptoUtils.uint8ArrayToHex array)
         = match array with
           | [] => Throw (Error (js "String hexadecimal não pode estar vazia"))
           | _ :: _ => Ok array
           end).
Proof.
  cut ((forall bytes,
           LegacyCryptoUtils.hexToUint8Array hexString = Ok bytes
           <-> hexString <> []
               /\ (forall c, In c hexString -> In c Spec.hexAlphabet)
               /\ Nat.even (length hexString) = true
               /\ bytes = Spec.decodePairs hexString)
       /\ (LegacyCryptoUtils.hexToUint8Array hexString
           = Throw (Error (js "String hexadecimal não pode estar vazia"))
           <-> hexString = [])
       /\ (forall e,
              LegacyCryptoUtils.hexToUint8Array hexString = Throw e ->
              hexString <> [] ->
              e = Error (js "String hexadecimal inválida"))).
  { intros (H1 & H2 & H3). repeat (split; [assumption |]). apply legacy_hex_roundtrip. }
  rewrite legacy_hexToUint8Array_cases.
  assert (Hal : forallb isHexDigit hexString = true
                <-> forall c, In c hexString -> In c Spec.hexAlphabet).
  { rewrite forallb_forall. split; intros H c Hc; apply isHexDigit_alphabet; auto. }
  destruct hexString as [| a r]; cbn [AESCrypto.isEmpty].
  - split; [| split].
    + intros bytes. split; [discriminate | intros (H & _); congruence].
    + split; reflexivity.
    + intros e _ H. congruence.
  - destruct (forallb isHexDigit (a :: r)) eqn:Hh; cbn [andb].
    + destruct (Nat.even (length (a :: r))) eqn:He.
      * split; [| split].
        -- intros bytes. split.
           ++ intros [= <-]. split; [discriminate |]. split; [now apply Hal |]. now split.
           ++ intros (_ & _ & _ & ->). reflexivity.
        -- split; discriminate.
        -- intros e H. discriminate H.
      * split; [| split].
        -- intros bytes. split; [discriminate | intros (_ & _ & H & _); discriminate H].
        -- split; [intros H; vm_compute in H; discriminate H | discriminate].
        -- intros e [= <-] _. reflexivity.
    + split; [| split].
      * intros bytes. split; [discriminate |].
        intros (_ & H & _). apply Hal in H. discriminate H.
      * split; [intros H; vm_compute in H; discriminate H | discriminate].
      * intros e [= <-] _. reflexivity.
Qed.

(** X23.  The two decoders.  What the decoder of the main script accepts,
    [hexToUint8Array] of CryptoUtils.js decodes to the same bytes; an odd
    number of hex digits is rejected by the former and zero-padded by the
    latter; and what the latter accepts, the former accepts after trimming
    unless the number of digits is odd. *)
Theorem decoders_compared (hexString : jsstring) :
  (forall bytes,
      LegacyCryptoUtils.hexToUint8Array hexString = Ok bytes ->
      CryptoUtils.hexToUint8Array hexString = Ok bytes)
  /\ (forallb isHexDigit hexString = true -> Nat.odd (length hexString) = true ->
      LegacyCryptoUtils.hexToUint8Array hexString
      = Throw (Error (js "String hexadecimal inválida"))
      /\ CryptoUtils.hexToUint8Array hexString
         = Ok (Spec.decodePairs (48%N :: hexString)))
  /\ (forall bytes,
      CryptoUtils.hexToUint8Array hexString = Ok bytes ->
      LegacyCryptoUtils.hexToUint8Array (trim hexString) = Ok bytes
      \/ Nat.odd (length (trim hexString)) = true).
Proof.
  rewrite !legacy_hexToUint8Array_cases. split; [| split].
  - intros bytes H. destruct hexString as [| a r]; [discriminate H |].
    cbn [AESCrypto.isEmpty] in H.
    destruct (forallb isHexDigit (a :: r) && Nat.even (length (a :: r))) eqn:E;
      [| discriminate H].
    apply andb_true_iff in E as [Hh He]. injection H as <-.
    destruct (hexToUint8Array_hex (a :: r)) as [_ ->]; [discriminate | exact Hh |].
    unfold Spec.zeroPad. now rewrite He.
  - intros Hh Ho.
    assert (He : Nat.even (length hexString) = false)
      by (unfold Nat.odd in Ho; now apply negb_true_iff in Ho).
    destruct hexString as [| a r]; [discriminate Ho |]. cbn [AESCrypto.isEmpty].
    rewrite Hh, He. cbn [andb]. split; [reflexivity |].
    destruct (hexToUint8Array_hex (a :: r)) as [_ ->]; [discriminate | exact Hh |].
    unfold Spec.zeroPad. now rewrite He.
  - intros bytes H.
    destruct (CryptoUtils.isValidHex hexString) eqn:Hv;
      [| rewrite (hexToUint8Array_invalid _ Hv) in H; discriminate H].
    rewrite (hexToUint8Array_valid _ Hv) in H. injection H as <-.
    unfold CryptoUtils.isValidHex in Hv. pose proof (hexRegex_test_forallb _ Hv) as Hh.
    destruct (Nat.even (length (trim hexString))) eqn:He.
    + left. destruct (trim hexString) as [| a r]; [discriminate Hv |].
      cbn [AESCrypto.isEmpty]. rewrite Hh. cbn [andb].
      unfold Spec.zeroPad. now rewrite He.
    + right. unfold Nat.odd. now rewrite He.
Qed.

Lemma decoders_compared_witness :
  LegacyCryptoUtils.hexToUint8Array (js "abc")
  = Throw (Error (js "String hexadecimal inválida"))
  /\ CryptoUtils.hexToUint8Array (js "abc") = Ok [x0a; xbc]
  /\ LegacyCryptoUtils.hexToUint8Array (js "0abc") = Ok [x0a; xbc]
  /\ CryptoUtils.hexToUint8Array (js "0abc") = Ok [x0a; xbc].
Proof.
  destruct (proj1 (proj2 (decoders_compared (js "abc")))) as [H1 H2];
    [vm_compute; reflexivity | vm_compute; reflexivity |].
  split; [exact H1 |]. split; [exact H2 |].
  assert (H3 : LegacyCryptoUtils.hexToUint8Array (js "0abc") = Ok [x0a; xbc])
    by (vm_compute; reflexivity).
  split; [exact H3 |].
  exact (proj1 (decoders_compared (js "0abc")) _ H3).
Defined.

End LegacyCodecFacts.


(* ================================================================== *)
(** ** Reading the fields back, and the orchestrator *)
(* ================================================================== *)

Section FieldFacts.

Import UIManagerFields.

Lemma replaceBrFrom_skip (k : nat) (pre rest : jsstring) :
  length pre = k -> replaceBrFrom k (pre ++ rest) = replaceBrFrom 0 rest.
Proof.
  revert pre. induction k as [| k IH]; intros pre Hk.
  - destruct pre; [reflexivity | discriminate].
  - destruct pre as [| c pre]; [discriminate |]. cbn [app].
    destruct rest as [| c0 rest0].
    + rewrite app_nil_r. clear IH. revert k Hk.
      induction (c :: pre) as [| x l IHl]; intros k Hk; [reflexivity |].
      cbn [replaceBrFrom]. destruct l; [reflexivity |].
      cbn [length] in Hk. destruct k; [discriminate |]. apply IHl. cbn [length]. lia.
    + cbn [replaceBrFrom]. apply IH. cbn [length] in Hk. lia.
Qed.

Lemma replaceBrFrom_match (c : N) (r : jsstring) (n : nat) :
  brMatch (c :: r) = Some n ->
  replaceBrFrom 0 (c :: r) = 10%N :: replaceBrFrom (n - 1) r.
Proof. intros H. cbn [replaceBrFrom]. now rewrite H. Qed.

Lemma replaceBrFrom_no_match (c : N) (r : jsstring) :
  brMatch (c :: r) = None ->
  replaceBrFrom 0 (c :: r) = c :: replaceBrFrom 0 r.
Proof. intros H. cbn [replaceBrFrom]. now rewrite H. Qed.

Lemma brMatch_br (rest : jsstring) :
  brMatch (60 :: 98 :: 114 :: 62 :: rest)%N = Some 4.
Proof. reflexivity. Qed.

Lemma brMatch_other (c : N) (r : jsstring) : c <> 60%N -> brMatch (c :: r) = None.
Proof.
  intros Hc. unfold brMatch. destruct r as [| b [| r0 rest]]; try reflexivity.
  replace (c =? 60)%N with false; [reflexivity |].
  symmetry. now apply N.eqb_neq.
Qed.

Lemma replaceBr_replaceNewlines (value : jsstring) :
  (forall c, In c value -> c <> 60%N) ->
  replaceBr (replaceNewlines value) = value.
Proof.
  unfold replaceBr. induction value as [| c r IH]; intros Hlt; [reflexivity |].
  assert (IH' : replaceBrFrom 0 (replaceNewlines r) = r)
    by (apply IH; intros x Hx; apply Hlt; now right).
  unfold replaceNewlines. cbn [flat_map]. fold (replaceNewlines r).
  destruct (N.eqb_spec c 10) as [-> | Hne].
  - change (js "<br>") with [60; 98; 114; 62]%N. cbn [app].
    rewrite (replaceBrFrom_match _ _ 4 (brMatch_br _)).
    change (4 - 1) with 3.
    change (98 :: 114 :: 62 :: replaceNewlines r)%N
      with ([98; 114; 62]%N ++ replaceNewlines r).
    rewrite (replaceBrFrom_skip 3 [98; 114; 62]%N (replaceNewlines r) eq_refl).
    now rewrite IH'.
  - cbn [app]. rewrite replaceBrFrom_no_match by (apply brMatch_other, Hlt; now left).
    now rewrite IH'.
Qed.

End FieldFacts.

Section NormalizeFacts.

Import UIManagerFields Shape.

Lemma brMatch_bounds (s : jsstring) (n : nat) :
  brMatch s = Some n -> 4 <= n <= length s.
Proof.
  unfold brMatch. destruct s as [| lt [| b [| r rest]]]; try discriminate.
  destruct (_ && _ && _)%bool; [| discriminate].
  pose proof (length_drop rest (leadingWhiteSpace rest)) as Hd.
  destruct (drop (leadingWhiteSpace rest) rest) as [| c1 rest1]; [discriminate |].
  cbn [length] in *.
  destruct (c1 =? 62)%N; [intros [= <-]; lia |].
  destruct (c1 =? 47)%N; [| discriminate].
  destruct rest1 as [| c2 rest2]; [discriminate |]. cbn [length] in Hd.
  destruct (c2 =? 62)%N; [intros [= <-]; lia | discriminate].
Qed.

(** The fuel of [brRunMatch] is never used up. *)
Lemma brRun_fuel (fuel1 : nat) :
  forall fuel2 s, length s <= fuel1 -> length s <= fuel2 ->
                  brRun fuel1 s = brRun fuel2 s.
Proof.
  induction fuel1 as [| fuel1 IH]; intros fuel2 s H1 H2.
  - destruct s; [| cbn in H1; lia]. destruct fuel2; reflexivity.
  - destruct fuel2 as [| fuel2].
    + destruct s; [reflexivity | cbn in H2; lia].
    + cbn [brRun]. destruct (brMatch s) as [n |] eqn:Hm; [| reflexivity].
      apply brMatch_bounds in Hm.
      rewrite (IH fuel2); [reflexivity | |]; rewrite !length_drop; lia.
Qed.

Lemma replaceNewlines_cons (c : N) (r : jsstring) :
  replaceNewlines (c :: r)
  = (if (c =? 10)%N then js "<br>" else [c]) ++ replaceNewlines r.
Proof. reflexivity. Qed.

(** A replacement whose expression matches neither at a character other
    than [<] nor at the line breaks of the markup of [value] leaves this
    markup as it is. *)
Lemma replaceAll_markup (matchAt : jsstring -> option nat) (replacement value : jsstring) :
  (forall c r, c <> 60%N -> matchAt (c :: r) = None) ->
  (forall pre r, value = pre ++ 10%N :: r ->
                 matchAt (js "<br>" ++ replaceNewlines r) = None) ->
  (forall c, In c value -> c <> 60%N) ->
  replaceAll matchAt replacement (replaceNewlines value) = replaceNewlines value.
Proof.
  intros Hother. unfold replaceAll.
  induction value as [| c r IH]; intros Hbr Hlt; [reflexivity |].
  assert (IH' : replaceAllFrom matchAt replacement 0 (replaceNewlines r)
                = replaceNewlines r).
  { apply IH.
    - intros pre r' E. apply (Hbr (c :: pre) r'). now rewrite E.
    - intros x Hx. apply Hlt. now right. }
  rewrite replaceNewlines_cons. destruct (N.eqb_spec c 10) as [-> | Hc].
  - pose proof (Hbr [] r eq_refl) as H0.
    change (js "<br>") with [60; 98; 114; 62]%N in *. cbn [app] in *.
    cbn [replaceAllFrom]. rewrite H0.
    rewrite !Hother by discriminate. now rewrite IH'.
  - cbn [app replaceAllFrom].
    rewrite Hother by (apply Hlt; now left). now rewrite IH'.
Qed.

Lemma eqb_60_false (c : N) : c <> 60%N -> (c =? 60)%N = false.
Proof. intros H. now apply N.eqb_neq. Qed.

Lemma divOpenMatch_other (c : N) (r : jsstring) : c <> 60%N -> divOpenMatch (c :: r) = None.
Proof.
  intros Hc. unfold divOpenMatch, startsDivOpen.
  destruct r as [| d [| i [| v rest]]]; try reflexivity.
  now rewrite (eqb_60_false _ Hc).
Qed.

Lemma divBrMatch_other (c : N) (r : jsstring) : c <> 60%N -> divBrMatch (c :: r) = None.
Proof. intros Hc. unfold divBrMatch. now rewrite divOpenMatch_other. Qed.

Lemma divCloseMatch_other (c : N) (r : jsstring) : c <> 60%N -> divCloseMatch (c :: r) = None.
Proof.
  intros Hc. unfold divCloseMatch.
  destruct r as [| sl [| d [| i [| v [| gt rest]]]]]; try reflexivity.
  now rewrite (eqb_60_false _ Hc).
Qed.

Lemma otherTagMatch_other (c : N) (r : jsstring) : c <> 60%N -> otherTagMatch (c :: r) = None.
Proof. intros Hc. unfold otherTagMatch. now rewrite (eqb_60_false _ Hc). Qed.

Lemma brRunMatch_other (c : N) (r : jsstring) : c <> 60%N -> brRunMatch (c :: r) = None.
Proof.
  intros Hc. unfold brRunMatch. cbn [length brRun]. now rewrite (brMatch_other _ _ Hc).
Qed.

Lemma divOpenMatch_br (r : jsstring) : divOpenMatch (js "<br>" ++ r) = None.
Proof. reflexivity. Qed.

Lemma divBrMatch_br (r : jsstring) : divBrMatch (js "<br>" ++ r) = None.
Proof. reflexivity. Qed.

Lemma divCloseMatch_br (r : jsstring) : divCloseMatch (js "<br>" ++ r) = None.
Proof. destruct r as [| x [| y r]]; reflexivity. Qed.

Lemma otherTagMatch_br (r : jsstring) : otherTagMatch (js "<br>" ++ r) = None.
Proof. reflexivity. Qed.

(** The white space at the start of the markup of [r] is the white space
    other than line feeds at the start of [r]. *)
Lemma leadingWhiteSpace_markup (r : jsstring) :
  let w := leadingWhiteSpace (replaceNewlines r) in
  drop w (replaceNewlines r) = replaceNewlines (drop w r)
  /\ breakRun (drop w r) = breakRun r
  /\ (forall c, In c (drop w r) -> In c r).
Proof.
  induction r as [| c r IH]; [cbn; auto |].
  rewrite replaceNewlines_cons. destruct (N.eqb_spec c 10) as [-> | Hc].
  - cbn. auto.
  - cbn [app leadingWhiteSpace]. destruct (isWhiteSpace c) eqn:Hw.
    + cbn [drop breakRun]. destruct IH as (IH1 & IH2 & IH3).
      rewrite (proj2 (N.eqb_neq c 10) Hc), Hw.
      split; [exact IH1 |]. split; [exact IH2 |]. intros x Hx. right. now apply IH3.
    + cbn [drop]. rewrite replaceNewlines_cons, (proj2 (N.eqb_neq c 10) Hc). auto.
Qed.

(** The repetitions of the line break at the start of the markup of [v] are
    not more than the line feeds in the white space at the start of [v]. *)
Lemma brRun_markup (fuel : nat) :
  forall v, (forall c, In c v -> c <> 60%N) ->
            fst (brRun fuel (replaceNewlines v)) <= breakRun v.
Proof.
  induction fuel as [| fuel IH]; intros v Hlt; [cbn; lia |].
  destruct v as [| c r]; [cbn; lia |].
  rewrite replaceNewlines_cons. destruct (N.eqb_spec c 10) as [-> | Hc].
  - change (js "<br>") with [60; 98; 114; 62]%N. cbn [app brRun].
    rewrite brMatch_br. cbn [drop]. rewrite !drop_0.
    destruct (leadingWhiteSpace_markup r) as (H1 & H2 & H3). cbv zeta in H1, H2, H3.
    rewrite H1.
    specialize (IH (drop (leadingWhiteSpace (replaceNewlines r)) r)).
    destruct (brRun fuel _) as [count len]. cbn [fst] in *.
    cbn [breakRun]. change (10 =? 10)%N with true. cbn match. rewrite <- H2.
    apply le_n_S, IH. intros x Hx. apply Hlt. right. now apply H3.
  - cbn [app brRun]. rewrite brMatch_other by (apply Hlt; now left). cbn. lia.
Qed.

Lemma noTripleBreak_suffix (value pre r : jsstring) :
  noTripleBreak value = true -> value = pre ++ r -> r <> [] -> breakRun r < 3.
Proof.
  revert value. induction pre as [| c pre IH]; intros value H E Hr.
  - cbn [app] in E. subst r. destruct value as [| c r]; [congruence |].
    cbn [noTripleBreak] in H. apply andb_true_iff in H as [H _].
    now apply Nat.ltb_lt in H.
  - subst value. cbn [app noTripleBreak] in H. apply andb_true_iff in H as [_ H].
    now apply (IH _ H eq_refl).
Qed.

(** The markup that [setContentEditableValue] writes for a value without
    [<] whose runs of white space hold two line feeds at most is left as it
    is by the five replacements. *)
Lemma normalizeMarkup_markup (value : jsstring) :
  (forall c, In c value -> c <> 60%N) ->
  noTripleBreak value = true ->
  normalizeMarkup (replaceNewlines value) = replaceNewlines value.
Proof.
  intros Hlt Hno. unfold normalizeMarkup.
  rewrite (replaceAll_markup divBrMatch)
    by (auto using divBrMatch_other, divBrMatch_br).
  rewrite (replaceAll_markup divOpenMatch)
    by (auto using divOpenMatch_other, divOpenMatch_br).
  rewrite (replaceAll_markup divCloseMatch)
    by (auto using divCloseMatch_other, divCloseMatch_br).
  rewrite (replaceAll_markup otherTagMatch)
    by (auto using otherTagMatch_other, otherTagMatch_br).
  apply replaceAll_markup; [apply brRunMatch_other | | exact Hlt].
  intros pre r E. unfold brRunMatch.
  pose proof (brRun_markup (length (js "<br>" ++ replaceNewlines r)) (10%N :: r)) as Hle.
  rewrite replaceNewlines_cons in Hle. change (10 =? 10)%N with true in Hle.
  cbv iota in Hle.
  assert (Hr : forall c, In c (10%N :: r) -> c <> 60%N).
  { intros c Hc. apply Hlt. rewrite E. apply in_or_app. now right. }
  specialize (Hle Hr).
  pose proof (noTripleBreak_suffix value pre (10%N :: r) Hno E ltac:(discriminate)) as H3.
  destruct (brRun _ _) as [count len]. cbn [fst] in Hle.
  destruct (Nat.leb_spec 3 count); [lia | reflexivity].
Qed.

End NormalizeFacts.

Section ReadAfterWrite.

Import UIManagerFields Shape.

Lemma updateOutputValues_encryptedOutput (inputListeners : Element -> Element)
    (value : jsstring) (s : UIManager.State) :
  UIManager.updateOutputValues inputListeners [(js "encryptedOutput", Some value)] s
  = UIManager.setContentEditableValue inputListeners (decryptInput (elements s)) value s.
Proof.
  unfold UIManager.updateOutputValues. cbn [foldl]. unfold UIManager.updateOutputValue.
  repeat (case_bool_decide as Hk; [vm_compute in Hk; discriminate Hk | clear Hk]).
  case_bool_decide; [reflexivity | congruence].
Qed.

Lemma updateOutputValues_decryptedOutput (inputListeners : Element -> Element)
    (value : jsstring) (s : UIManager.State) :
  UIManager.updateOutputValues inputListeners [(js "decryptedOutput", Some value)] s
  = UIManager.setContentEditableValue inputListeners (encryptInput (elements s)) value s.
Proof.
  unfold UIManager.updateOutputValues. cbn [foldl]. unfold UIManager.updateOutputValue.
  repeat (case_bool_decide as Hk; [vm_compute in Hk; discriminate Hk | clear Hk]).
  case_bool_decide; [reflexivity | congruence].
Qed.

Lemma getContentEditableValue_written (serialize : Content -> jsstring)
    (textOfMarkup : jsstring -> jsstring) (inputListeners : Element -> Element)
    (s : UIManager.State) (n : node) (e : Element) (value : jsstring) :
  heap s !! n = Some e ->
  (forall c, In c value -> c <> 60%N) ->
  serialize (content (inputListeners (set_content (Html (replaceNewlines value)) e)))
  = replaceNewlines value ->
  textOfMarkup value = value ->
  getContentEditableValue serialize textOfMarkup
    (UIManager.setContentEditableValue inputListeners n value s) n
  = trim value.
Proof.
  intros He Hlt Hs Ht.
  unfold getContentEditableValue, UIManager.setContentEditableValue.
  cbn [update set_heap heap]. rewrite !lookup_alter_eq, He.
  cbn [fmap option_fmap option_map]. rewrite Hs.
  now rewrite replaceBr_replaceNewlines, Ht.
Qed.

Lemma checkPlaceholder_content (textOfMarkup : jsstring -> jsstring) (e : Element) :
  content (checkPlaceholder textOfMarkup e) = content e.
Proof.
  unfold checkPlaceholder, classList_toggle, classList_add, classList_remove.
  destruct (AESCrypto.isEmpty _); [case_bool_decide |]; reflexivity.
Qed.

(** The listeners leave a markup that the replacements leave as it is. *)
Lemma registeredInputListeners_content (serialize : Content -> jsstring)
    (textOfMarkup : jsstring -> jsstring) (e : Element) (html : jsstring) :
  content e = Html html ->
  serialize (Html html) = html ->
  normalizeMarkup html = html ->
  content (registeredInputListeners serialize textOfMarkup e) = Html html.
Proof.
  intros Hc Hs Hn. unfold registeredInputListeners, normalizeContentEditableHTML.
  rewrite checkPlaceholder_content, Hc, Hs, Hn.
  rewrite bool_decide_eq_true_2 by reflexivity.
  now rewrite checkPlaceholder_content.
Qed.

(** X24.  Line breaks round-trip.  Take a value without [<] in which no
    run of white space holds three line feeds or more, and a browser that
    returns the markup written for it as [innerHTML] and reads the value as
    its own text.  Then the listeners that the constructor registers leave
    the written markup as it is, the conversion of [<br>] tags that
    [getContentEditableValue] applies undoes the conversion of new lines
    that [setContentEditableValue] applies, and [getInputValues] after the
    write of a result returns the trimmed value in the crossed field.
    (Three line feeds or more in a row are read back as two: the listener
    [normalizeContentEditableHTML] collapses them, see
    [three_breaks_read_as_two].) *)
Theorem modular_read_after_write (serialize : Content -> jsstring)
    (textOfMarkup : jsstring -> jsstring) (s : UIManager.State) (value : jsstring) :
  (forall c, In c value -> c <> 60%N) ->
  noTripleBreak value = true ->
  serialize (Html (replaceNewlines value)) = replaceNewlines value ->
  textOfMarkup value = value ->
  let listeners := registeredInputListeners serialize textOfMarkup in
  normalizeMarkup (replaceNewlines value) = replaceNewlines value
  /\ replaceBr (replaceNewlines value) = value
  /\ (is_Some (heap s !! decryptInput (elements s)) ->
      decryptData
        (getInputValues serialize textOfMarkup
           (UIManager.updateOutputValues listeners
              [(js "encryptedOutput", Some value)] s))
      = trim value)
  /\ (is_Some (heap s !! encryptInput (elements s)) ->
      encryptData
        (getInputValues serialize textOfMarkup
           (UIManager.updateOutputValues listeners
              [(js "decryptedOutput", Some value)] s))
      = trim value).
Proof.
  intros Hlt Hno Hs Ht listeners.
  pose proof (normalizeMarkup_markup value Hlt Hno) as Hn.
  assert (Hw : forall e,
             serialize (content (listeners (set_content (Html (replaceNewlines value)) e)))
             = replaceNewlines value).
  { intros e. unfold listeners.
    now rewrite (registeredInputListeners_content _ _ _ (replaceNewlines value)). }
  split; [exact Hn |]. split; [now apply replaceBr_replaceNewlines |]. split.
  - intros [e He]. rewrite updateOutputValues_encryptedOutput.
    unfold getInputValues. cbn [decryptData].
    change (elements (UIManager.setContentEditableValue listeners
                        (decryptInput (elements s)) value s)) with (elements s).
    now apply (getContentEditableValue_written _ _ _ _ _ e).
  - intros [e He]. rewrite updateOutputValues_decryptedOutput.
    unfold getInputValues. cbn [encryptData].
    change (elements (UIManager.setContentEditableValue listeners
                        (encryptInput (elements s)) value s)) with (elements s).
    now apply (getContentEditableValue_written _ _ _ _ _ e).
Qed.

Lemma legacy_setOutputValues_encryptedOutput (c : N) (v : jsstring) (s : Legacy.State) :
  Legacy.setOutputValues [(js "encryptedOutput", c :: v)] s
  = (Ok tt, Legacy.setElementValue (decryptInput (elements s)) (c :: v) s).
Proof.
  unfold Legacy.setOutputValues. cbn [Legacy.property foldl Legacy.setOtherValue].
  rewrite (bool_decide_eq_true_2 (js "encryptedOutput" = js "encryptedOutput"))
    by reflexivity.
  rewrite (bool_decide_eq_false_2 (js "encryptedOutput" = js "decryptedOutput"))
    by (vm_compute; discriminate).
  reflexivity.
Qed.

Lemma legacy_setOutputValues_decryptedOutput (c : N) (v : jsstring) (s : Legacy.State) :
  Legacy.setOutputValues [(js "decryptedOutput", c :: v)] s
  = (Ok tt, Legacy.setElementValue (encryptInput (elements s)) (c :: v) s).
Proof.
  unfold Legacy.setOutputValues. cbn [Legacy.property foldl Legacy.setOtherValue].
  rewrite (bool_decide_eq_true_2 (js "decryptedOutput" = js "decryptedOutput"))
    by reflexivity.
  rewrite (bool_decide_eq_false_2 (js "decryptedOutput" = js "encryptedOutput"))
    by (vm_compute; discriminate).
  reflexivity.
Qed.

(** The text written into a contenteditable [div] is the text read from
    it. *)
Lemma legacy_getElementValue_written (tc it : jsstring -> jsstring) (s : Legacy.State)
    (n : node) (e : Element) (value : jsstring) :
  heap s !! n = Some e ->
  toLowerCase (tagName e) = js "div" -> contentEditable e = true ->
  LegacyFields.getElementValue tc it (Legacy.setElementValue n value s) n = value.
Proof.
  intros He Htag Hedit. unfold LegacyFields.getElementValue, Legacy.setElementValue.
  cbn [update set_heap heap]. rewrite lookup_alter_eq, He.
  cbn [fmap option_fmap option_map].
  rewrite Htag, Hedit, (bool_decide_eq_true_2 (js "div" = js "div")) by reflexivity.
  cbn [andb tagName contentEditable set_content].
  now rewrite Htag, Hedit, (bool_decide_eq_true_2 (js "div" = js "div")) by reflexivity.
Qed.

(** X25.  In the main script, when the field of a result is a
    contenteditable [div] (as both fields are in the page of the
    application), [getInputValues] after [setOutputValues] has written a
    non-empty encryption (decryption) result returns the trimmed result as
    [decryptData] ([encryptData]). *)
Theorem legacy_read_after_write (textContentOfMarkup innerTextOfMarkup : jsstring -> jsstring)
    (s : Legacy.State) (c : N) (v : jsstring) :
  (forall e,
      heap s !! decryptInput (elements s) = Some e ->
      toLowerCase (tagName e) = js "div" -> contentEditable e = true ->
      decryptData
        (LegacyFields.getInputValues textContentOfMarkup innerTextOfMarkup
           (snd (Legacy.setOutputValues [(js "encryptedOutput", c :: v)] s)))
      = trim (c :: v))
  /\ (forall e,
         heap s !! encryptInput (elements s) = Some e ->
         toLowerCase (tagName e) = js "div" -> contentEditable e = true ->
         encryptData
           (LegacyFields.getInputValues textContentOfMarkup innerTextOfMarkup
              (snd (Legacy.setOutputValues [(js "decryptedOutput", c :: v)] s)))
         = trim (c :: v)).
Proof.
  split; intros e He Htag Hedit.
  - rewrite legacy_setOutputValues_encryptedOutput.
    unfold LegacyFields.getInputValues. cbn [decryptData snd].
    change (elements (Legacy.setElementValue (decryptInput (elements s)) (c :: v) s))
      with (elements s).
    now rewrite (legacy_getElementValue_written _ _ _ _ e).
  - rewrite legacy_setOutputValues_decryptedOutput.
    unfold LegacyFields.getInputValues. cbn [encryptData snd].
    change (elements (Legacy.setElementValue (encryptInput (elements s)) (c :: v) s))
      with (elements s).
    now rewrite (legacy_getElementValue_written _ _ _ _ e).
Qed.

End ReadAfterWrite.

(** Three line feeds in a row are read back as two. *)
Example three_breaks_read_as_two :
  UIManagerFields.decryptData
    (UIManagerFields.getInputValues Fixture.plainSerialize Fixture.plainTextOfMarkup
       (UIManager.updateOutputValues
          (UIManagerFields.registeredInputListeners Fixture.plainSerialize Fixture.plainTextOfMarkup)
          [(js "encryptedOutput", Some Fixture.threeBreaks)] Scenario.modularPage))
  = js "a" ++ [10; 10]%N ++ js "b".
Proof. vm_compute. reflexivity. Qed.

Lemma modular_read_after_write_witness :
  UIManagerFields.decryptData
    (UIManagerFields.getInputValues Fixture.plainSerialize Fixture.plainTextOfMarkup
       (UIManager.updateOutputValues
          (UIManagerFields.registeredInputListeners Fixture.plainSerialize Fixture.plainTextOfMarkup)
          [(js "encryptedOutput", Some Fixture.twoLines)] Scenario.modularPage))
  = trim Fixture.twoLines
  /\ UIManagerFields.encryptData
       (UIManagerFields.getInputValues Fixture.plainSerialize Fixture.plainTextOfMarkup
          (UIManager.updateOutputValues
             (UIManagerFields.registeredInputListeners Fixture.plainSerialize Fixture.plainTextOfMarkup)
             [(js "decryptedOutput", Some Fixture.twoLines)] Scenario.modularPage))
     = trim Fixture.twoLines.
Proof.
  destruct (modular_read_after_write Fixture.plainSerialize Fixture.plainTextOfMarkup
              Scenario.modularPage Fixture.twoLines)
    as (_ & _ & H2 & H3).
  - intros c Hc. vm_compute in Hc.
    repeat (destruct Hc as [<- | Hc]; [discriminate |]). contradiction.
  - vm_compute. reflexivity.
  - reflexivity.
  - reflexivity.
  - split; [apply H2 | apply H3]; vm_compute; eauto.
Defined.

Lemma legacy_read_after_write_witness :
  UIManagerFields.decryptData
    (LegacyFields.getInputValues Fixture.plainTextOfMarkup Fixture.plainTextOfMarkup
       (snd (Legacy.setOutputValues [(js "encryptedOutput", js "3f9a")]
               Scenario.legacyPage)))
  = js "3f9a"
  /\ UIManagerFields.encryptData
       (LegacyFields.getInputValues Fixture.plainTextOfMarkup Fixture.plainTextOfMarkup
          (snd (Legacy.setOutputValues [(js "decryptedOutput", js " hello ")]
                  Scenario.legacyPage)))
     = js "hello".
Proof.
  split.
  - refine (proj1 (legacy_read_after_write Fixture.plainTextOfMarkup
                     Fixture.plainTextOfMarkup Scenario.legacyPage 51%N (js "f9a"))
              (Scenario.element (js "DIV") (js "decryptInput") true (Some 0)) _ _ _);
      vm_compute; reflexivity.
  - refine (proj2 (legacy_read_after_write Fixture.plainTextOfMarkup
                     Fixture.plainTextOfMarkup Scenario.legacyPage 32%N (js "hello "))
              (Scenario.element (js "DIV") (js "encryptInput") true (Some 0)) _ _ _);
      vm_compute; reflexivity.
Defined.

Section ManagerFacts.

Import AESCrypto UIManagerFields AESCryptoManager.

Variable P : Platform.
Variable config : AESConfig.
Variable entropy : nat -> byte.
Variable faultMessage : KeyMaterial.PlatformFault -> jsstring.
Variable inputListeners : Element -> Element.
Variable serialize : Content -> jsstring.
Variable textOfMarkup : jsstring -> jsstring.

Implicit Types (s : UIManager.State).

(** Validated parameters without white space around them decode to the
    sizes of the configuration. *)
Lemma validated_trimmed_sizes (keyHex ivHex : jsstring) (operation : CryptoOperation) :
  validateParameters config keyHex ivHex operation = Ok tt ->
  Spec.trimmed keyHex -> Spec.trimmed ivHex ->
  exists keyData ivData,
    CryptoUtils.hexToUint8Array keyHex = Ok keyData
    /\ CryptoUtils.hexToUint8Array ivHex = Ok ivData
    /\ (length keyData = 16 \/ length keyData = 24 \/ length keyData = 32)
    /\ Z.of_nat (length ivData) = ivLength config.
Proof.
  intros Hv Tk Ti. pose proof Hv as Hv'.
  apply validateParameters_Ok in Hv' as (_ & _ & Vk & Vi & Sk & Si).
  apply isValidKeySize_length in Sk. apply isValidIVSize_length in Si.
  rewrite (hexToUint8Array_valid _ Vk), (hexToUint8Array_valid _ Vi).
  rewrite (trimmed_trim _ Tk), (trimmed_trim _ Ti).
  do 2 eexists. split; [reflexivity |]. split; [reflexivity |].
  rewrite !decodePairs_length_half. unfold Spec.zeroPad.
  assert (Ek : Nat.even (length keyHex) = true)
    by (destruct Sk as [-> | [-> | ->]]; reflexivity).
  assert (Ei : Nat.even (length ivHex) = true).
  { rewrite <- Nat.negb_odd. apply negb_true_iff.
    destruct (Nat.odd (length ivHex)) eqn:Eo; [| reflexivity].
    apply Nat.odd_spec in Eo as [k Ek']. lia. }
  rewrite Ek, Ei. split.
  - destruct Sk as [-> | [-> | ->]]; cbn; auto.
  - apply Nat.even_spec in Ei as [k Hk]. rewrite Hk, (Nat.mul_comm 2 k), Nat.div_mul; lia.
Qed.

(** The calls of [encrypt] and of [decrypt] on trimmed parameters. *)
Lemma encrypt_calls_trimmed (plainText keyHex ivHex : jsstring)
    (log : list PlatformCall) :
  Spec.trimmed keyHex -> Spec.trimmed ivHex ->
  exists calls,
    snd (encrypt P config plainText keyHex ivHex log) = log ++ calls
    /\ (calls = []
        \/ exists keyData ivData,
             CryptoUtils.hexToUint8Array keyHex = Ok keyData
             /\ CryptoUtils.hexToUint8Array ivHex = Ok ivData
             /\ (length keyData = 16 \/ length keyData = 24 \/ length keyData = 32)
             /\ Z.of_nat (length ivData) = ivLength config
             /\ (calls = [CallImportKey (algorithm config) keyData]
                 \/ calls = [CallImportKey (algorithm config) keyData;
                             CallEncrypt (algorithm config) ivData
                                         (textEncode P plainText)])).
Proof.
  intros Tk Ti.
  unfold encrypt, tryCatch, bind, lift, createCryptoKey, platform, throw, ret.
  destruct (validateParameters config keyHex ivHex OpEncrypt) as [[] | e] eqn:Hv;
    [| exists []; rewrite app_nil_r; auto].
  destruct plainText as [| c r]; cbn [isEmpty];
    [exists []; rewrite app_nil_r; auto |].
  destruct (validated_trimmed_sizes _ _ _ Hv Tk Ti) as (keyData & ivData & Ek & Ei & Sk & Si).
  rewrite Ek, Ei.
  destruct (subtle_importKey P (algorithm config) keyData) as [cryptoKey | e].
  - exists [CallImportKey (algorithm config) keyData;
            CallEncrypt (algorithm config) ivData (textEncode P (c :: r))].
    split.
    + destruct (subtle_encrypt P (algorithm config) ivData cryptoKey
                  (textEncode P (c :: r))); cbn [snd]; now rewrite <- app_assoc.
    + right. exists keyData, ivData. auto 10.
  - exists [CallImportKey (algorithm config) keyData]. split; [reflexivity |].
    right. exists keyData, ivData. auto 10.
Qed.

Lemma decrypt_calls_trimmed (encryptedHex keyHex ivHex : jsstring)
    (log : list PlatformCall) :
  Spec.trimmed keyHex -> Spec.trimmed ivHex ->
  exists calls,
    snd (decrypt P config encryptedHex keyHex ivHex log) = log ++ calls
    /\ (calls = []
        \/ exists keyData ivData encryptedData,
             CryptoUtils.hexToUint8Array keyHex = Ok keyData
             /\ CryptoUtils.hexToUint8Array ivHex = Ok ivData
             /\ CryptoUtils.hexToUint8Array encryptedHex = Ok encryptedData
             /\ (length keyData = 16 \/ length keyData = 24 \/ length keyData = 32)
             /\ Z.of_nat (length ivData) = ivLength config
             /\ (calls = [CallImportKey (algorithm config) keyData]
                 \/ calls = [CallImportKey (algorithm config) keyData;
                             CallDecrypt (algorithm config) ivData encryptedData])).
Proof.
  intros Tk Ti.
  unfold decrypt, tryCatch, bind, lift, createCryptoKey, platform, throw, ret.
  destruct (validateParameters config keyHex ivHex OpDecrypt) as [[] | e] eqn:Hv;
    [| exists []; rewrite app_nil_r; auto].
  destruct encryptedHex as [| c r]; cbn [isEmpty];
    [exists []; rewrite app_nil_r; auto |].
  destruct (CryptoUtils.isValidHex (c :: r)) eqn:Hh; cbn [negb];
    [| exists []; rewrite app_nil_r; auto].
  destruct (validated_trimmed_sizes _ _ _ Hv Tk Ti) as (keyData & ivData & Ek & Ei & Sk & Si).
  rewrite Ek, Ei, (hexToUint8Array_valid _ Hh).
  destruct (subtle_importKey P (algorithm config) keyData) as [cryptoKey | e].
  - eexists [CallImportKey (algorithm config) keyData;
             CallDecrypt (algorithm config) ivData _].
    split.
    + match goal with |- context [subtle_decrypt ?a ?b ?c ?d ?e] =>
        destruct (subtle_decrypt a b c d e) end; cbn [snd]; now rewrite <- app_assoc.
    + right. do 3 eexists. eauto 10.
  - exists [CallImportKey (algorithm config) keyData]. split; [reflexivity |].
    right. do 3 eexists. eauto 10.
Qed.

(** X26.  The platform calls of a click on Encrypt or Decrypt.  The handler
    calls the platform not at all, or imports a key of 16, 24 or 32 bytes,
    the decoded content of the trimmed key field, and then, if the import
    succeeds, makes one cipher call under an IV of [ivLength] bytes, the
    decoded content of the trimmed IV field, on the content of the payload
    field. *)
Theorem handlers_platform_calls (now1 now2 : Z) s (log : list PlatformCall) :
  let inputs := getInputValues serialize textOfMarkup s in
  (exists calls,
      snd (handleEncrypt P config inputListeners serialize textOfMarkup now1 now2 s log)
      = log ++ calls
      /\ (calls = []
          \/ exists keyData ivData,
               CryptoUtils.hexToUint8Array (keyHex inputs) = Ok keyData
               /\ CryptoUtils.hexToUint8Array (ivHex inputs) = Ok ivData
               /\ (length keyData = 16 \/ length keyData = 24 \/ length keyData = 32)
               /\ Z.of_nat (length ivData) = ivLength config
               /\ (calls = [CallImportKey (algorithm config) keyData]
                   \/ calls = [CallImportKey (algorithm config) keyData;
                               CallEncrypt (algorithm config) ivData
                                           (textEncode P (encryptData inputs))])))
  /\ (exists calls,
         snd (handleDecrypt P config inputListeners serialize textOfMarkup now1 now2 s log)
         = log ++ calls
         /\ (calls = []
             \/ exists keyData ivData encryptedData,
                  CryptoUtils.hexToUint8Array (keyHex inputs) = Ok keyData
                  /\ CryptoUtils.hexToUint8Array (ivHex inputs) = Ok ivData
                  /\ CryptoUtils.hexToUint8Array (decryptData inputs) = Ok encryptedData
                  /\ (length keyData = 16 \/ length keyData = 24 \/ length keyData = 32)
                  /\ Z.of_nat (length ivData) = ivLength config
                  /\ (calls = [CallImportKey (algorithm config) keyData]
                      \/ calls = [CallImportKey (algorithm config) keyData;
                                  CallDecrypt (algorithm config) ivData encryptedData]))).
Proof.
  intros inputs.
  assert (Tk : Spec.trimmed (keyHex inputs)) by apply trim_trimmed.
  assert (Ti : Spec.trimmed (ivHex inputs)) by apply trim_trimmed.
  split.
  - unfold handleEncrypt, handleEncrypt_begin, getValidatedInputs. fold inputs.
    destruct (isEmpty (keyHex inputs) || isEmpty (ivHex inputs));
      [exists []; rewrite app_nil_r; auto |].
    destruct (isEmpty (encryptData inputs));
      [exists []; rewrite app_nil_r; auto |].
    destruct (encrypt_calls_trimmed (encryptData inputs) _ _ log Tk Ti)
      as (calls & Hlog & Hcalls).
    exists calls. split; [| exact Hcalls].
    destruct (encrypt P config (encryptData inputs) (keyHex inputs) (ivHex inputs) log).
    exact Hlog.
  - unfold handleDecrypt, handleDecrypt_begin, getValidatedInputs. fold inputs.
    destruct (isEmpty (keyHex inputs) || isEmpty (ivHex inputs));
      [exists []; rewrite app_nil_r; auto |].
    destruct (isEmpty (decryptData inputs));
      [exists []; rewrite app_nil_r; auto |].
    destruct (decrypt_calls_trimmed (decryptData inputs) _ _ log Tk Ti)
      as (calls & Hlog & Hcalls).
    exists calls. split; [| exact Hcalls].
    destruct (decrypt P config (decryptData inputs) (keyHex inputs) (ivHex inputs) log).
    exact Hlog.
Qed.

(** [addMessage] leaves the nodes that exist as they are. *)
Lemma addMessage_old_nodes (message : jsstring) (type : MessageType) (now : Z) s
    (x : node) :
  is_Some (heap s !! x) ->
  heap (snd (UIManager.addMessage message type now s)) !! x = heap s !! x.
Proof.
  intros Hx.
  assert (Hne : fresh (dom (heap s)) <> x).
  { intros <-. rewrite fresh_lookup in Hx. now destruct Hx. }
  unfold UIManager.addMessage. cbn.
  now rewrite !lookup_alter_ne, lookup_insert_ne by exact Hne.
Qed.

Lemma addMessage_elements (message : jsstring) (type : MessageType) (now : Z) s :
  elements (snd (UIManager.addMessage message type now s)) = elements s.
Proof. reflexivity. Qed.

Lemma setContentEditableValue_other (n x : node) (value : jsstring) s :
  x <> n ->
  heap (UIManager.setContentEditableValue inputListeners n value s) !! x = heap s !! x.
Proof.
  intros Hx. unfold UIManager.setContentEditableValue. cbn [update set_heap heap].
  now rewrite !lookup_alter_ne by congruence.
Qed.


(** X28.  [importKey] of the orchestrator accepts a key and an IV exactly
    when [validateParameters] accepts them under an IV length of 16: it
    then writes both fields and shows the success message; otherwise it
    writes nothing and shows one error message that starts with "Erro ao
    importar chave: ". *)
Theorem importKey_accepts (keyHex ivHex : jsstring) (now : Z) s
    (operation : CryptoOperation) :
  ivLength config = 16%Z ->
  match validateParameters config keyHex ivHex operation with
  | Ok _ =>
      importKey inputListeners keyHex ivHex now s
      = UIManager.showSuccess (js "Chave e IV importados com sucesso!") now
          (UIManager.updateOutputValues inputListeners
             [(js "aesKey", Some keyHex); (js "iv", Some ivHex)] s)
  | Throw _ =>
      exists message,
        importKey inputListeners keyHex ivHex now s
        = UIManager.showError (js "Erro ao importar chave: " ++ message) now s
  end.
Proof.
  intros H16. unfold validateParameters, importKey. rewrite H16.
  destruct (CryptoUtils.isValidHex keyHex) eqn:Vk.
  2: { assert (Hr : exists message,
                  UIManager.showError
                    (js "Erro ao importar chave: "
                     ++ messageOr (js "Erro desconhecido ao importar chave")
                          (Error (js "Chave e IV devem ser strings hexadecimais válidas.")))
                    now s
                  = UIManager.showError (js "Erro ao importar chave: " ++ message) now s)
         by (eexists; reflexivity).
       cbn [negb orb]. destruct (isEmpty keyHex || isEmpty ivHex); exact Hr. }
  destruct (CryptoUtils.isValidHex ivHex) eqn:Vi.
  2: { assert (Hr : exists message,
                  UIManager.showError
                    (js "Erro ao importar chave: "
                     ++ messageOr (js "Erro desconhecido ao importar chave")
                          (Error (js "Chave e IV devem ser strings hexadecimais válidas.")))
                    now s
                  = UIManager.showError (js "Erro ao importar chave: " ++ message) now s)
         by (eexists; reflexivity).
       cbn [negb orb]. destruct (isEmpty keyHex || isEmpty ivHex); exact Hr. }
  pose proof (isValidHex_nonempty _ Vk) as Nk. pose proof (isValidHex_nonempty _ Vi) as Ni.
  destruct keyHex as [| k0 kr]; [congruence |].
  destruct ivHex as [| i0 ir]; [congruence |].
  cbn [isEmpty negb orb].
  destruct (CryptoUtils.isValidKeySize (k0 :: kr)); cbn [negb]; [| eexists; reflexivity].
  destruct (CryptoUtils.isValidIVSize (i0 :: ir) 16); cbn [negb]; [| eexists; reflexivity].
  reflexivity.
Qed.

Lemma updateOutputValues_key_iv (key ivValue : jsstring) s :
  UIManager.updateOutputValues inputListeners
    [(js "aesKey", Some key); (js "iv", Some ivValue)] s
  = update (iv (elements s)) (set_value ivValue)
      (update (aesKey (elements s)) (set_value key) s).
Proof.
  unfold UIManager.updateOutputValues. cbn [foldl]. unfold UIManager.updateOutputValue.
  rewrite (bool_decide_eq_true_2 (js "aesKey" = js "aesKey")) by reflexivity.
  rewrite (bool_decide_eq_false_2 (js "iv" = js "aesKey")) by (vm_compute; discriminate).
  rewrite (bool_decide_eq_true_2 (js "iv" = js "iv")) by reflexivity.
  reflexivity.
Qed.

(** X29.  After [handleGenerateKey], under a key length of 128, 192 or 256
    bits and an IV length between 1 and 65536 bytes, [getInputValues]
    returns as key and IV the hex strings of the random bytes drawn, and
    [validateParameters] accepts them. *)
Theorem handleGenerateKey_fields (now : Z) s (used : nat) (operation : CryptoOperation) :
  keyLength config = 128%Z \/ keyLength config = 192%Z \/ keyLength config = 256%Z ->
  (0 < ivLength config <= 65536)%Z ->
  is_Some (heap s !! aesKey (elements s)) ->
  is_Some (heap s !! iv (elements s)) ->
  aesKey (elements s) <> iv (elements s) ->
  let s' := fst (handleGenerateKey config entropy faultMessage inputListeners now s used) in
  let inputs := getInputValues serialize textOfMarkup s' in
  let keyBytes := map entropy (seq used (Z.to_nat (keyLength config / 8))) in
  let ivBytes := map entropy (seq (used + length keyBytes) (Z.to_nat (ivLength config))) in
  keyHex inputs = CryptoUtils.uint8ArrayToHex keyBytes
  /\ ivHex inputs = CryptoUtils.uint8ArrayToHex ivBytes
  /\ validateParameters config (keyHex inputs) (ivHex inputs) operation = Ok tt
  /\ snd (handleGenerateKey config entropy faultMessage inputListeners now s used)
     = used + length keyBytes + length ivBytes.
Proof.
  intros Hk Hi [ek Hek] [ei Hei] Hne s' inputs keyBytes ivBytes.
  assert (Lk : length keyBytes = Z.to_nat (keyLength config / 8))
    by (unfold keyBytes; now rewrite length_map, length_seq).
  assert (Li : length ivBytes = Z.to_nat (ivLength config))
    by (unfold ivBytes; now rewrite length_map, length_seq).
  assert (Hrun : handleGenerateKey config entropy faultMessage inputListeners now s used
                 = (UIManager.showSuccess (js "Nova chave AES e IV gerados com sucesso!")
                      now
                      (update (iv (elements s))
                         (set_value (CryptoUtils.uint8ArrayToHex ivBytes))
                         (update (aesKey (elements s))
                            (set_value (CryptoUtils.uint8ArrayToHex keyBytes)) s)),
                    used + length keyBytes + length ivBytes)).
  { unfold handleGenerateKey.
    rewrite (generateKeyAndIV_drawn entropy faultMessage config used Hk) by lia.
    rewrite updateOutputValues_key_iv, Li, Lk. unfold ivBytes. now rewrite Lk. }
  assert (Ek : keyHex inputs = CryptoUtils.uint8ArrayToHex keyBytes).
  { unfold inputs, s'. rewrite Hrun. cbn [fst]. unfold getInputValues. cbn [keyHex].
    unfold UIManager.showSuccess. rewrite addMessage_elements. cbn [elements update set_heap].
    unfold valueOf. rewrite addMessage_old_nodes.
    - cbn [update set_heap heap]. rewrite lookup_alter_ne, lookup_alter_eq, Hek by congruence.
      cbn [fmap option_fmap option_map value set_value].
      apply hex_trim, uint8ArrayToHex_hex.
    - cbn [update set_heap heap]. rewrite lookup_alter_ne, lookup_alter_eq, Hek by congruence.
      cbn [fmap option_fmap option_map]. eauto. }
  assert (Ei : ivHex inputs = CryptoUtils.uint8ArrayToHex ivBytes).
  { unfold inputs, s'. rewrite Hrun. cbn [fst]. unfold getInputValues. cbn [ivHex].
    unfold UIManager.showSuccess. rewrite addMessage_elements. cbn [elements update set_heap].
    unfold valueOf. rewrite addMessage_old_nodes.
    - cbn [update set_heap heap]. rewrite lookup_alter_eq, lookup_alter_ne, Hei by congruence.
      cbn [fmap option_fmap option_map value set_value].
      apply hex_trim, uint8ArrayToHex_hex.
    - cbn [update set_heap heap]. rewrite lookup_alter_eq, lookup_alter_ne, Hei by congruence.
      cbn [fmap option_fmap option_map]. eauto. }
  split; [exact Ek |]. split; [exact Ei |]. split; [| now rewrite Hrun].
  rewrite Ek, Ei. apply (bytes_hex_valid config).
  - rewrite Lk. destruct Hk as [-> | [-> | ->]]; cbn; auto.
  - lia.
  - intros E. rewrite E in Li. cbn in Li. lia.
Qed.

End ManagerFacts.

(** The calls of a click on Encrypt on a page whose key field holds 32
    zeros after two spaces. *)
Example handleEncrypt_filledPage_log :
  snd (AESCryptoManager.handleEncrypt Scenario.echoPlatform AESCrypto.defaultConfig
         Scenario.quietListeners Fixture.plainSerialize Fixture.plainTextOfMarkup
         Scenario.now Scenario.now Fixture.filledPage [])
  = [ AESCrypto.CallImportKey AESCrypto.AES_CBC (replicate 16 x00);
      AESCrypto.CallEncrypt AESCrypto.AES_CBC
        [x00; x01; x02; x03; x04; x05; x06; x07; x08; x09; x0a; x0b; x0c; x0d; x0e; x0f]
        [x68; x65; x6c; x6c; x6f] ].
Proof. vm_compute. reflexivity. Qed.


Lemma importKey_accepts_witness :
  AESCryptoManager.importKey Scenario.quietListeners Scenario.zeros32 Scenario.zeros32
    Scenario.now Scenario.modularPage
  = UIManager.showSuccess (js "Chave e IV importados com sucesso!") Scenario.now
      (UIManager.updateOutputValues Scenario.quietListeners
         [(js "aesKey", Some Scenario.zeros32); (js "iv", Some Scenario.zeros32)]
         Scenario.modularPage).
Proof.
  pose proof (importKey_accepts AESCrypto.defaultConfig Scenario.quietListeners
                Scenario.zeros32 Scenario.zeros32 Scenario.now Scenario.modularPage
                AESCrypto.OpEncrypt eq_refl) as H.
  assert (Hv : AESCrypto.validateParameters AESCrypto.defaultConfig Scenario.zeros32
                 Scenario.zeros32 AESCrypto.OpEncrypt = Ok tt) by (vm_compute; reflexivity).
  rewrite Hv in H. exact H.
Defined.

Lemma handleGenerateKey_fields_witness :
  let s' := fst (AESCryptoManager.handleGenerateKey AESCrypto.defaultConfig
                   Fixture.countingEntropy Fixture.engineMessage Scenario.quietListeners
                   Scenario.now Scenario.modularPage 0) in
  let inputs := UIManagerFields.getInputValues Fixture.plainSerialize
                  Fixture.plainTextOfMarkup s' in
  UIManagerFields.keyHex inputs = js "000102030405060708090a0b0c0d0e0f"
  /\ UIManagerFields.ivHex inputs = js "101112131415161718191a1b1c1d1e1f"
  /\ AESCrypto.validateParameters AESCrypto.defaultConfig (UIManagerFields.keyHex inputs)
       (UIManagerFields.ivHex inputs) AESCrypto.OpEncrypt = Ok tt.
Proof.
  destruct (handleGenerateKey_fields AESCrypto.defaultConfig Fixture.countingEntropy
              Fixture.engineMessage Scenario.quietListeners Fixture.plainSerialize
              Fixture.plainTextOfMarkup Scenario.now Scenario.modularPage 0
              AESCrypto.OpEncrypt) as (H1 & H2 & H3 & _).
  - now left.
  - vm_compute. split; congruence.
  - vm_compute. eauto.
  - vm_compute. eauto.
  - vm_compute. lia.
  - cbv zeta. split; [exact H1 |]. split; [exact H2 | exact H3].
Defined.

(* ================================================================== *)
(** ** Encrypt, then Decrypt, through the page *)
(* ================================================================== *)

Section RoundTripFacts.

Import AESCrypto UIManagerFields AESCryptoManager.

Variable P : Platform.
Variable config : AESConfig.
Variable inputListeners : Element -> Element.
Variable serialize : Content -> jsstring.
Variable textOfMarkup : jsstring -> jsstring.

Implicit Types (s : UIManager.State).

Lemma replaceNewlines_hex (h : jsstring) :
  forallb isHexDigit h = true -> replaceNewlines h = h.
Proof.
  induction h as [| c r IH]; [reflexivity |]. cbn [forallb].
  intros H. apply andb_true_iff in H as [Hc Hr].
  unfold replaceNewlines. cbn [flat_map]. fold (replaceNewlines r). rewrite (IH Hr).
  destruct (N.eqb_spec c 10) as [-> | _]; [discriminate Hc | reflexivity].
Qed.

Lemma hex_no_lt (h : jsstring) :
  forallb isHexDigit h = true -> forall c, In c h -> c <> 60%N.
Proof.
  intros H c Hc ->. rewrite forallb_forall in H. apply H in Hc. discriminate Hc.
Qed.

Lemma valueOf_frame s s' (n : node) :
  heap s' !! n = heap s !! n -> valueOf s' n = valueOf s n.
Proof. unfold valueOf. now intros ->. Qed.

Lemma valueOf_nonempty s (n : node) : trim (valueOf s n) <> [] -> is_Some (heap s !! n).
Proof.
  unfold valueOf. destruct (heap s !! n); [eauto | intros H; now contradiction H].
Qed.


Lemma getContentEditableValue_frame s s' (n : node) :
  heap s' !! n = heap s !! n ->
  getContentEditableValue serialize textOfMarkup s' n
  = getContentEditableValue serialize textOfMarkup s n.
Proof. unfold getContentEditableValue. now intros ->. Qed.

Lemma showMessage_old_node (message : jsstring) (type : MessageType) (now : Z) s
    (x : node) (e : Element) :
  heap s !! x = Some e ->
  heap (snd (UIManager.addMessage message type now s)) !! x = Some e.
Proof. intros H. rewrite addMessage_old_nodes; [exact H | rewrite H; eauto]. Qed.

(** X30.  Encrypt, then Decrypt.  On a page whose payload fields are two
    elements and whose result field is neither the key nor the IV field,
    let a click on Encrypt succeed, on a platform whose decryption inverts
    its encryption of the text read, in a browser that returns the written
    hex string as markup and as text.  Then the field of the data to
    decrypt reads as the returned hex string, and a click on Decrypt that
    follows succeeds and writes the text that the first click had read back
    into the element it was read from. *)
Theorem encrypt_then_decrypt (now1 now2 now3 now4 : Z) s (log log1 : list PlatformCall)
    (editor field : Element) (hex : jsstring) :
  let inputs := getInputValues serialize textOfMarkup s in
  let plainText := encryptData inputs in
  heap s !! encryptInput (elements s) = Some editor ->
  heap s !! decryptInput (elements s) = Some field ->
  decryptInput (elements s) <> encryptInput (elements s) ->
  decryptInput (elements s) <> aesKey (elements s) ->
  decryptInput (elements s) <> iv (elements s) ->
  encrypt P config plainText (keyHex inputs) (ivHex inputs) log = (Ok hex, log1) ->
  (forall ivData cryptoKey encryptedBuffer,
      subtle_encrypt P (algorithm config) ivData cryptoKey (textEncode P plainText)
      = Ok encryptedBuffer ->
      encryptedBuffer <> []
      /\ subtle_decrypt P (algorithm config) ivData cryptoKey encryptedBuffer
         = Ok (textEncode P plainText)) ->
  textDecode P (textEncode P plainText) = plainText ->
  serialize (content (inputListeners (set_content (Html hex) field))) = hex ->
  textOfMarkup hex = hex ->
  let s1 := fst (handleEncrypt P config inputListeners serialize textOfMarkup
                   now1 now2 s log) in
  let s2 := fst (handleDecrypt P config inputListeners serialize textOfMarkup
                   now3 now4 s1 log1) in
  snd (handleEncrypt P config inputListeners serialize textOfMarkup now1 now2 s log)
  = log1
  /\ decryptData (getInputValues serialize textOfMarkup s1) = hex
  /\ s2 = UIManager.showSuccess (js "Dados decriptados com sucesso!") now4
            (UIManager.updateOutputValues inputListeners
               [(js "decryptedOutput", Some plainText)]
               (UIManager.showInfo (js "Decriptando dados...") now3 s1))
  /\ heap s2 !! encryptInput (elements s)
     = Some (inputListeners (set_content (Html (replaceNewlines plainText)) editor)).
Proof.
  intros inputs plainText He Hd Hde Hdk Hdi Henc Hlaw Htext Hser Hmark s1 s2.
  destruct (decrypt_after_encrypt _ _ _ _ _ _ _ _ Hlaw Htext Henc) as (Hne & Hhex & Hdec).
  pose proof Henc as Hinv.
  apply encrypt_Ok_inv in Hinv as (Hv & Hp & _).
  apply validateParameters_Ok in Hv as (Hk & Hi & _).
  assert (Ek : isEmpty (keyHex inputs) = false) by (destruct (keyHex inputs); [congruence | reflexivity]).
  assert (Ei : isEmpty (ivHex inputs) = false) by (destruct (ivHex inputs); [congruence | reflexivity]).
  assert (Ep : isEmpty plainText = false) by (destruct plainText; [congruence | reflexivity]).
  assert (Eh : isEmpty hex = false) by (destruct hex; [congruence | reflexivity]).
  destruct (valueOf_nonempty s (aesKey (elements s)) Hk) as [ek Hek].
  destruct (valueOf_nonempty s (iv (elements s)) Hi) as [ei Hei].
  (* the first click *)
  set (sA := UIManager.showInfo (js "Encriptando dados...") now1 s).
  set (sB := UIManager.setContentEditableValue inputListeners
               (decryptInput (elements s)) hex sA).
  assert (Hrun1 : handleEncrypt P config inputListeners serialize textOfMarkup
                    now1 now2 s log
                  = (UIManager.showSuccess (js "Dados encriptados com sucesso!") now2 sB,
                     log1)).
  { unfold handleEncrypt, handleEncrypt_begin, getValidatedInputs. fold inputs.
    rewrite Ek, Ei. cbn [orb]. fold plainText. rewrite Ep.
    change (encryptData inputs) with plainText. rewrite Henc.
    cbn [handleEncrypt_end]. now rewrite updateOutputValues_encryptedOutput. }
  assert (Hs1 : s1 = UIManager.showSuccess (js "Dados encriptados com sucesso!") now2 sB)
    by (unfold s1; now rewrite Hrun1).
  assert (Hel : elements s1 = elements s) by (rewrite Hs1; reflexivity).
  assert (HA : forall x e, heap s !! x = Some e -> heap sA !! x = Some e)
    by (intros x e Hx; now apply showMessage_old_node).
  assert (HB : forall x e, x <> decryptInput (elements s) ->
                 heap s !! x = Some e -> heap s1 !! x = Some e).
  { intros x e Hx Hxe. rewrite Hs1. apply showMessage_old_node. unfold sB.
    rewrite setContentEditableValue_other by exact Hx. now apply HA. }
  assert (Hfield : heap sB !! decryptInput (elements s)
                   = Some (inputListeners (set_content (Html hex) field))).
  { unfold sB, UIManager.setContentEditableValue. cbn [update set_heap heap].
    rewrite !lookup_alter_eq, (HA _ _ Hd), (replaceNewlines_hex _ Hhex). reflexivity. }
  assert (Hread : getInputValues serialize textOfMarkup s1
                  = {| keyHex := keyHex inputs; ivHex := ivHex inputs;
                       encryptData := plainText; decryptData := hex |}).
  { unfold getInputValues. rewrite Hel. f_equal.
    - unfold inputs, getInputValues. cbn [keyHex]. f_equal. apply valueOf_frame.
      rewrite Hek. apply HB; [congruence | exact Hek].
    - unfold inputs, getInputValues. cbn [ivHex]. f_equal. apply valueOf_frame.
      rewrite Hei. apply HB; [congruence | exact Hei].
    - unfold plainText, inputs, getInputValues. cbn [encryptData].
      apply getContentEditableValue_frame.
      rewrite He. apply HB; [congruence | exact He].
    - rewrite Hs1.
      rewrite (getContentEditableValue_frame sB)
        by (rewrite Hfield; now apply showMessage_old_node).
      unfold sB.
      change (decryptInput (elements s)) with (decryptInput (elements sA)).
      rewrite (getContentEditableValue_written _ _ _ _ _ field).
      + now apply hex_trim.
      + now apply HA.
      + now apply hex_no_lt.
      + now rewrite (replaceNewlines_hex _ Hhex).
      + exact Hmark. }
  (* the second click *)
  destruct (Hdec log1) as [log2 Hrun].
  assert (Hrun2 : handleDecrypt P config inputListeners serialize textOfMarkup
                    now3 now4 s1 log1
                  = (UIManager.showSuccess (js "Dados decriptados com sucesso!") now4
                       (UIManager.updateOutputValues inputListeners
                          [(js "decryptedOutput", Some plainText)]
                          (UIManager.showInfo (js "Decriptando dados...") now3 s1)),
                     log2)).
  { unfold handleDecrypt, handleDecrypt_begin, getValidatedInputs. rewrite Hread.
    cbn [keyHex ivHex]. rewrite Ek, Ei. cbn [orb decryptData].
    rewrite Eh. cbn [keyHex ivHex decryptData]. rewrite Hrun. reflexivity. }
  assert (Hs2 : s2 = UIManager.showSuccess (js "Dados decriptados com sucesso!") now4
                       (UIManager.updateOutputValues inputListeners
                          [(js "decryptedOutput", Some plainText)]
                          (UIManager.showInfo (js "Decriptando dados...") now3 s1)))
    by (unfold s2; now rewrite Hrun2).
  split; [now rewrite Hrun1 |]. split; [now rewrite Hread |]. split; [exact Hs2 |].
  rewrite Hs2. apply showMessage_old_node.
  rewrite updateOutputValues_decryptedOutput.
  unfold UIManager.setContentEditableValue. cbn [update set_heap heap].
  change (elements (UIManager.showInfo (js "Decriptando dados...") now3 s1))
    with (elements s1).
  rewrite Hel, !lookup_alter_eq.
  unfold UIManager.showInfo.
  rewrite (showMessage_old_node _ _ _ _ _ editor); [reflexivity |].
  apply HB; [congruence | exact He].
Qed.

End RoundTripFacts.

Lemma encrypt_then_decrypt_witness :
  UIManagerFields.decryptData
    (UIManagerFields.getInputValues Fixture.plainSerialize Fixture.plainTextOfMarkup
       (fst (AESCryptoManager.handleEncrypt Scenario.echoPlatform AESCrypto.defaultConfig
               Scenario.quietListeners Fixture.plainSerialize Fixture.plainTextOfMarkup
               Scenario.now Scenario.now Fixture.filledPage [])))
  = js "68656c6c6f"
  /\ content
       <$> heap (fst (AESCryptoManager.handleDecrypt Scenario.echoPlatform
                        AESCrypto.defaultConfig Scenario.quietListeners
                        Fixture.plainSerialize Fixture.plainTextOfMarkup
                        Scenario.now Scenario.now
                        (fst (AESCryptoManager.handleEncrypt Scenario.echoPlatform
                                AESCrypto.defaultConfig Scenario.quietListeners
                                Fixture.plainSerialize Fixture.plainTextOfMarkup
                                Scenario.now Scenario.now Fixture.filledPage []))
                        [ AESCrypto.CallImportKey AESCrypto.AES_CBC (replicate 16 x00);
                          AESCrypto.CallEncrypt AESCrypto.AES_CBC
                            [x00; x01; x02; x03; x04; x05; x06; x07;
                             x08; x09; x0a; x0b; x0c; x0d; x0e; x0f]
                            [x68; x65; x6c; x6c; x6f] ]))
           !! encryptInput Scenario.pageElements
     = Some (Html (js "hello")).
Proof.
  destruct (encrypt_then_decrypt Scenario.echoPlatform AESCrypto.defaultConfig
               Scenario.quietListeners Fixture.plainSerialize Fixture.plainTextOfMarkup
               Scenario.now Scenario.now Scenario.now Scenario.now Fixture.filledPage []
               [ AESCrypto.CallImportKey AESCrypto.AES_CBC (replicate 16 x00);
                 AESCrypto.CallEncrypt AESCrypto.AES_CBC
                   [x00; x01; x02; x03; x04; x05; x06; x07;
                    x08; x09; x0a; x0b; x0c; x0d; x0e; x0f]
                   [x68; x65; x6c; x6c; x6f] ]
               (set_content (Html (js "hello"))
                  (Scenario.element (js "DIV") (js "encryptInput") true (Some 0)))
               (Scenario.element (js "DIV") (js "decryptInput") true (Some 0))
               (js "68656c6c6f")) as (_ & H2 & _ & H4).
  - vm_compute. reflexivity.
  - vm_compute. reflexivity.
  - vm_compute. lia.
  - vm_compute. lia.
  - vm_compute. lia.
  - vm_compute. reflexivity.
  - intros ivData cryptoKey encryptedBuffer H. vm_compute in H.
    injection H as <-. split; [discriminate | vm_compute; reflexivity].
  - vm_compute. reflexivity.
  - vm_compute. reflexivity.
  - vm_compute. reflexivity.
  - split; [exact H2 |].
    change (encryptInput Scenario.pageElements)
      with (encryptInput (elements Fixture.filledPage)).
    rewrite H4. vm_compute. reflexivity.
Defined.
